(** * Vue 3 reactivity: proxy construction and trap dispatch

    A shallow embedding of [packages/reactivity/src/reactive.ts] and
    [packages/reactivity/src/baseHandlers.ts].

    JavaScript objects live in a heap of cells addressed by allocation
    index; object identity ([===]) is address equality.  The four
    [WeakMap] registries are finite maps keyed by address.  Every
    function that reads or writes the heap, the registries or the
    tracking subsystem threads a [state] explicitly and may fail
    ([None]) where the JavaScript would throw or recurse without end.

    An ordinary object has own data properties only: accessors,
    property attributes other than extensibility, and the prototype
    chain (but for the array methods the handlers replace) are left
    out.  Numbers are the integers and [NaN]. *)

From Stdlib Require Import ZArith NArith Lia DecimalString DecimalN DecimalPos.
From stdpp Require Import base option list strings gmap.

Local Open Scope string_scope.
Local Open Scope nat_scope.

(** ** Values *)

(** Addresses are allocation indices. *)
Abbreviation addr := nat (only parsing).

(** Symbols: the well-known ones that live on the [Symbol] constructor
    and the ones user code creates. *)
Inductive symbol :=
  | WellKnown (name : string)
  | UserSym (id : nat).

(** Property keys: [string | symbol]. *)
Inductive key :=
  | KStr (s : string)
  | KSym (y : symbol).

Inductive number :=
  | NaN
  | Num (z : Z).

(** The instrumented array methods. *)
Inductive search_method := Includes | IndexOf | LastIndexOf.
Inductive mutator_method := Push | Pop | Shift | Unshift | Splice.
Inductive arr_method :=
  | Search (m : search_method)
  | Mutator (m : mutator_method).

(** Function values: the native [Array.prototype] method or its
    replacement from [arrayInstrumentations]. *)
Inductive func :=
  | FNative (m : arr_method)
  | FInstr (m : arr_method).

Inductive value :=
  | VUndefined
  | VNull
  | VBool (b : bool)
  | VNum (n : number)
  | VStr (s : string)
  | VSym (y : symbol)
  | VFun (f : func)
  | VObj (a : addr).

#[global] Instance symbol_eq_dec : EqDecision symbol.
Proof. solve_decision. Defined.
#[global] Instance key_eq_dec : EqDecision key.
Proof. solve_decision. Defined.
#[global] Instance number_eq_dec : EqDecision number.
Proof. solve_decision. Defined.
#[global] Instance search_method_eq_dec : EqDecision search_method.
Proof. solve_decision. Defined.
#[global] Instance mutator_method_eq_dec : EqDecision mutator_method.
Proof. solve_decision. Defined.
#[global] Instance arr_method_eq_dec : EqDecision arr_method.
Proof. solve_decision. Defined.
#[global] Instance func_eq_dec : EqDecision func.
Proof. solve_decision. Defined.
#[global] Instance value_eq_dec : EqDecision value.
Proof. solve_decision. Defined.

(** [a === b] on modelled values. [NaN] is never strictly equal to
    itself. *)
Definition strict_eq (a b : value) : bool :=
  match a, b with
  | VNum NaN, _ | _, VNum NaN => false
  | _, _ => bool_decide (a = b)
  end.

(** [Object.is(a, b)]; the model has a single zero. *)
Definition same_value (a b : value) : bool := bool_decide (a = b).

(** JavaScript truthiness, as used by [&&], [||], [!] and [if]. *)
Definition truthy (v : value) : bool :=
  match v with
  | VUndefined | VNull => false
  | VBool b => b
  | VNum NaN => false
  | VNum (Num z) => negb (Z.eqb z 0)
  | VStr s => negb (String.eqb s "")
  | VSym _ | VFun _ | VObj _ => true
  end.

(** ** [ReactiveFlags] *)

Module ReactiveFlags.
Definition SKIP : key := KStr "__v_skip".
Definition IS_REACTIVE : key := KStr "__v_isReactive".
Definition IS_READONLY : key := KStr "__v_isReadonly".
Definition IS_SHALLOW : key := KStr "__v_isShallow".
Definition RAW : key := KStr "__v_raw".
End ReactiveFlags.

(** ** Heap cells *)

(** An ordinary object: the tag [Object.prototype.toString] reports
    for it ([toRawType]), its extensibility bit and its own data
    properties in creation order.  An array keeps its elements under
    the decimal index keys and its length under ["length"]. *)
Record object := Object {
  rawType : string;
  extensible : bool;
  props : list (key * value)
}.

(** Which of the handler bundles a proxy was built with. *)
Record handler := Handler {
  h_readonly : bool;
  h_shallow : bool;
  h_collection : bool
}.

Inductive cell :=
  | Plain (o : object)
  | Proxy (target : addr) (h : handler).

#[global] Instance handler_eq_dec : EqDecision handler.
Proof. solve_decision. Defined.

(** ** The tracking subsystem's observable state *)

Inductive TrackOpTypes := GET | HAS | ITERATE.
Inductive TriggerOpTypes := SET | ADD | DELETE | CLEAR.

#[global] Instance TrackOpTypes_eq_dec : EqDecision TrackOpTypes.
Proof. solve_decision. Defined.
#[global] Instance TriggerOpTypes_eq_dec : EqDecision TriggerOpTypes.
Proof. solve_decision. Defined.

Record track_event := TrackEv {
  tr_target : value;
  tr_type : TrackOpTypes;
  tr_key : key
}.

Record trigger_event := TriggerEv {
  tg_target : value;
  tg_type : TriggerOpTypes;
  tg_key : key;
  tg_newValue : value;
  tg_oldValue : value
}.

#[global] Instance track_event_eq_dec : EqDecision track_event.
Proof. solve_decision. Defined.
#[global] Instance trigger_event_eq_dec : EqDecision trigger_event.
Proof. solve_decision. Defined.

(** ** Program state *)

Record state := State {
  heap : list cell;
  reactiveMap : gmap addr value;
  shallowReactiveMap : gmap addr value;
  readonlyMap : gmap addr value;
  shallowReadonlyMap : gmap addr value;
  (* effect.ts *)
  activeEffect : bool;
  shouldTrack : bool;
  trackStack : list bool;
  trackCalls : list track_event;
  deps : list track_event;
  triggered : list trigger_event;
  (* the build constant and the warning channel *)
  DEV : bool;
  warnings : list string
}.

(** The four registries, named the way the handlers select them. *)
Inductive registry :=
  | RegReactive | RegShallowReactive | RegReadonly | RegShallowReadonly.

#[global] Instance registry_eq_dec : EqDecision registry.
Proof. solve_decision. Defined.

Definition proxyMap_get (r : registry) (s : state) : gmap addr value :=
  match r with
  | RegReactive => reactiveMap s
  | RegShallowReactive => shallowReactiveMap s
  | RegReadonly => readonlyMap s
  | RegShallowReadonly => shallowReadonlyMap s
  end.

Definition set_heap (h : list cell) (s : state) : state :=
  State h (reactiveMap s) (shallowReactiveMap s) (readonlyMap s)
        (shallowReadonlyMap s) (activeEffect s) (shouldTrack s) (trackStack s)
        (trackCalls s) (deps s) (triggered s) (DEV s) (warnings s).

Definition proxyMap_set (r : registry) (t : addr) (p : value) (s : state)
  : state :=
  match r with
  | RegReactive =>
      State (heap s) (<[t:=p]> (reactiveMap s)) (shallowReactiveMap s)
            (readonlyMap s) (shallowReadonlyMap s) (activeEffect s)
            (shouldTrack s) (trackStack s) (trackCalls s) (deps s)
            (triggered s) (DEV s) (warnings s)
  | RegShallowReactive =>
      State (heap s) (reactiveMap s) (<[t:=p]> (shallowReactiveMap s))
            (readonlyMap s) (shallowReadonlyMap s) (activeEffect s)
            (shouldTrack s) (trackStack s) (trackCalls s) (deps s)
            (triggered s) (DEV s) (warnings s)
  | RegReadonly =>
      State (heap s) (reactiveMap s) (shallowReactiveMap s)
            (<[t:=p]> (readonlyMap s)) (shallowReadonlyMap s) (activeEffect s)
            (shouldTrack s) (trackStack s) (trackCalls s) (deps s)
            (triggered s) (DEV s) (warnings s)
  | RegShallowReadonly =>
      State (heap s) (reactiveMap s) (shallowReactiveMap s) (readonlyMap s)
            (<[t:=p]> (shallowReadonlyMap s)) (activeEffect s)
            (shouldTrack s) (trackStack s) (trackCalls s) (deps s)
            (triggered s) (DEV s) (warnings s)
  end.

(** The registry of the handler bundle with these two flags
    (the conditional inside the getter's [RAW] test). *)
Definition registry_of (isReadonly shallow : bool) : registry :=
  if isReadonly
  then (if shallow then RegShallowReadonly else RegReadonly)
  else (if shallow then RegShallowReactive else RegReactive).

(** ** A state-and-failure monad for the effectful code *)

Definition M (A : Type) : Type := state -> option (A * state).

Definition ret {A} (a : A) : M A := fun s => Some (a, s).
Definition fail {A} : M A := fun _ => None.
Definition bind {A B} (m : M A) (f : A -> M B) : M B :=
  fun s => match m s with
           | Some (a, s') => f a s'
           | None => None
           end.
Definition gets {A} (f : state -> A) : M A := fun s => Some (f s, s).
Definition modify (f : state -> state) : M unit := fun s => Some (tt, f s).
Definition when (b : bool) (m : M unit) : M unit := if b then m else ret tt.

Notation "'let*' x ':=' m 'in' k" := (bind m (fun x => k))
  (at level 10, x pattern, m at level 100, k at level 200).
Notation "m ';;' k" := (bind m (fun _ => k))
  (at level 100, k at level 200, right associativity).

(** ** Helpers of [@vue/shared] and of the JavaScript runtime *)

(** Modelled from the spec: [isObject] of @vue/shared, the test for a
    structural value: [val !== null && typeof val === 'object']. *)
Definition isObject (v : value) : bool :=
  match v with VObj _ => true | _ => false end.

(** Modelled from the spec: [isSymbol] of @vue/shared, the test for a
    symbolic key. *)
Definition isSymbol (k : key) : bool :=
  match k with KSym _ => true | KStr _ => false end.

(** [builtInSymbols.has(key)]: the symbol-valued static properties of
    [Symbol]. *)
Definition builtInSymbols_has (k : key) : bool :=
  match k with KSym (WellKnown _) => true | _ => false end.

(** [makeMap(`__proto__,__v_isRef,__isVue`)]. *)
Definition isNonTrackableKeys (k : key) : bool :=
  match k with
  | KStr s => bool_decide (s ∈ ["__proto__"; "__v_isRef"; "__isVue"])
  | KSym _ => false
  end.

(** Modelled from the spec: [hasChanged] of @vue/shared, the "changed"
    comparison that treats [NaN] as equal to itself:
    [!Object.is(value, oldValue)]. *)
Definition hasChanged (v old : value) : bool := negb (same_value v old).

(** [i + ''] for an array index. *)
Definition string_of_index (n : N) : string :=
  NilZero.string_of_uint (N.to_uint n).

(** [parseInt(key, 10)] where the result prints back as [key]. *)
Definition index_of_string (s : string) : option N :=
  match NilEmpty.uint_of_string s with
  | Some u =>
      let n := N.of_uint u in
      if String.eqb (string_of_index n) s then Some n else None
  | None => None
  end.

(** Modelled from the spec: [isIntegerKey] of @vue/shared, the test
    for a numeric index key: a string, not ['NaN'], not starting with
    ['-'], with ['' + parseInt(key, 10) === key]. *)
Definition isIntegerKey (k : key) : bool :=
  match k with
  | KStr s => bool_decide (is_Some (index_of_string s))
  | KSym _ => false
  end.

(** [Number(key)] for a key that passed [isIntegerKey]. *)
Definition Number_of_key (k : key) : N :=
  match k with
  | KStr s => default 0%N (index_of_string s)
  | KSym _ => 0%N
  end.

Definition key_of_index (n : N) : key := KStr (string_of_index n).

(** [a < b] with [a] an index and [b] whatever [target.length] gave. *)
Definition index_lt (n : N) (len : value) : bool :=
  match len with
  | VNum (Num z) => (Z.of_N n <? z)%Z
  | _ => false
  end.

Definition String_of_key (k : key) : string :=
  match k with
  | KStr s => s
  | KSym (WellKnown n) => "Symbol(Symbol." ++ n ++ ")"
  | KSym (UserSym _) => "Symbol()"
  end.

Definition method_of_name (s : string) : option arr_method :=
  if String.eqb s "includes" then Some (Search Includes)
  else if String.eqb s "indexOf" then Some (Search IndexOf)
  else if String.eqb s "lastIndexOf" then Some (Search LastIndexOf)
  else if String.eqb s "push" then Some (Mutator Push)
  else if String.eqb s "pop" then Some (Mutator Pop)
  else if String.eqb s "shift" then Some (Mutator Shift)
  else if String.eqb s "unshift" then Some (Mutator Unshift)
  else if String.eqb s "splice" then Some (Mutator Splice)
  else None.

(** [hasOwn(arrayInstrumentations, key)] together with the function it
    holds. *)
Definition arrayInstrumentations (k : key) : option arr_method :=
  match k with
  | KStr s => method_of_name s
  | KSym _ => None
  end.

(** *** Own properties *)

Fixpoint own_lookup (ps : list (key * value)) (k : key) : option value :=
  match ps with
  | [] => None
  | (k', v) :: ps' => if decide (k' = k) then Some v else own_lookup ps' k
  end.

Fixpoint own_update (ps : list (key * value)) (k : key) (v : value)
  : list (key * value) :=
  match ps with
  | [] => [(k, v)]
  | (k', v') :: ps' =>
      if decide (k' = k) then (k, v) :: ps' else (k', v') :: own_update ps' k v
  end.

Definition own_remove (ps : list (key * value)) (k : key)
  : list (key * value) :=
  filter (fun kv => kv.1 ≠ k) ps.

Definition isArray_obj (o : object) : bool := String.eqb (rawType o) "Array".

(** An array index: a canonical numeric string below [2^32 - 1]. *)
Definition isArrayIndex (k : key) : bool :=
  isIntegerKey k && (Number_of_key k <? 4294967295)%N.

Fixpoint insert_sorted (n : N) (l : list N) : list N :=
  match l with
  | [] => [n]
  | m :: l' => if (n <=? m)%N then n :: l else m :: insert_sorted n l'
  end.

Definition sort_indices (l : list N) : list N := foldr insert_sorted [] l.

(** [OrdinaryOwnPropertyKeys]: the array indices in ascending order,
    then the other string keys, then the symbols, both in the order
    the properties were created. *)
Definition own_keys (o : object) : list key :=
  let ks := (props o).*1 in
  map key_of_index (sort_indices (map Number_of_key (filter isArrayIndex ks)))
  ++ filter (fun k => negb (isSymbol k) && negb (isArrayIndex k)) ks
  ++ filter isSymbol ks.

(** [[Get]] on an ordinary object: own data properties, then for an
    array the eight [Array.prototype] methods the handlers instrument. *)
Definition ordinary_get (o : object) (k : key) : value :=
  match own_lookup (props o) k with
  | Some v => v
  | None =>
      if isArray_obj o
      then match arrayInstrumentations k with
           | Some m => VFun (FNative m)
           | None => VUndefined
           end
      else VUndefined
  end.

Definition with_props (o : object) (ps : list (key * value)) : object :=
  Object (rawType o) (extensible o) ps.

(** [[DefineOwnProperty]] of a data property with a new value: [None]
    when the object refuses (a new key on a non-extensible object).  An
    array grows its length past a written index and drops the elements
    past a written length.  Every property is taken as writable, and
    the range check and the number conversion of [ArraySetLength] are
    left out, as is the bound [2^32 - 1] on a length: the statements
    on writes keep to [length_write_ok], and to keys other than the
    skip marker, which [markRaw] defines as not writable. *)

Definition ordinary_define (o : object) (k : key) (v : value) : option object :=
  match own_lookup (props o) k with
  | None =>
      if extensible o then
        let ps := own_update (props o) k v in
        if isArray_obj o && isIntegerKey k then
          let n := Number_of_key k in
          match own_lookup ps (KStr "length") with
          | Some len =>
              if index_lt n len then Some (with_props o ps)
              else Some (with_props o
                     (own_update ps (KStr "length")
                        (VNum (Num (Z.of_N n + 1)))))
          | None => Some (with_props o ps)
          end
        else Some (with_props o ps)
      else None
  | Some _ =>
      if isArray_obj o && bool_decide (k = KStr "length") then
        Some (with_props o
               (own_update
                  (filter (fun kv => negb (isIntegerKey kv.1)
                                     || index_lt (Number_of_key kv.1) v)
                          (props o))
                  k v))
      else Some (with_props o (own_update (props o) k v))
  end.

(** *** Looking through proxies

    The operations the handlers leave without a trap
    ([getOwnPropertyDescriptor], [defineProperty], [isExtensible]) and
    [Array.isArray] reach the object at the end of the target chain. *)
Fixpoint underlying (fuel : nat) (h : list cell) (a : addr)
  : option (addr * object) :=
  match fuel with
  | 0 => None
  | S fuel' =>
      match h !! a with
      | Some (Plain o) => Some (a, o)
      | Some (Proxy t _) => underlying fuel' h t
      | None => None
      end
  end.

Definition underlying_of (s : state) (v : value) : option (addr * object) :=
  match v with
  | VObj a => underlying (length (heap s)) (heap s) a
  | _ => None
  end.

(** Modelled from the spec: [isArray] of @vue/shared, the test for an
    array-shaped value ([Array.isArray], which looks through proxies). *)
Definition isArray (s : state) (v : value) : bool :=
  match underlying_of s v with
  | Some (_, o) => isArray_obj o
  | None => false
  end.

(** [Object.isExtensible]. *)
Definition isExtensible (s : state) (v : value) : bool :=
  match underlying_of s v with
  | Some (_, o) => extensible o
  | None => false
  end.

(** Modelled from the spec: [toRawType] of @vue/shared, the runtime
    kind of a value: the tag inside [Object.prototype.toString.call(v)];
    a proxy reports the tag of what it wraps. *)
Definition toRawType (s : state) (v : value) : string :=
  match v with
  | VUndefined => "Undefined"
  | VNull => "Null"
  | VBool _ => "Boolean"
  | VNum _ => "Number"
  | VStr _ => "String"
  | VSym _ => "Symbol"
  | VFun _ => "Function"
  | VObj _ =>
      match underlying_of s v with
      | Some (_, o) => rawType o
      | None => "Object"
      end
  end.

(** Modelled from the spec: [hasOwn] of @vue/shared: the key is an
    owned key of the value. *)
Definition hasOwn (s : state) (v : value) (k : key) : bool :=
  match underlying_of s v with
  | Some (_, o) => bool_decide (is_Some (own_lookup (props o) k))
  | None => false
  end.

(** ** The collaborators in [effect.ts], [ref.ts] and [warning.ts] *)

Definition set_tracking (st : bool) (stk : list bool) (s : state) : state :=
  State (heap s) (reactiveMap s) (shallowReactiveMap s) (readonlyMap s)
        (shallowReadonlyMap s) (activeEffect s) st stk
        (trackCalls s) (deps s) (triggered s) (DEV s) (warnings s).

Definition add_track (e : track_event) (s : state) : state :=
  State (heap s) (reactiveMap s) (shallowReactiveMap s) (readonlyMap s)
        (shallowReadonlyMap s) (activeEffect s) (shouldTrack s) (trackStack s)
        (trackCalls s ++ [e])
        (if shouldTrack s && activeEffect s then deps s ++ [e] else deps s)
        (triggered s) (DEV s) (warnings s).

Definition add_trigger (e : trigger_event) (s : state) : state :=
  State (heap s) (reactiveMap s) (shallowReactiveMap s) (readonlyMap s)
        (shallowReadonlyMap s) (activeEffect s) (shouldTrack s) (trackStack s)
        (trackCalls s) (deps s) (triggered s ++ [e]) (DEV s) (warnings s).

Definition add_warning (w : string) (s : state) : state :=
  State (heap s) (reactiveMap s) (shallowReactiveMap s) (readonlyMap s)
        (shallowReadonlyMap s) (activeEffect s) (shouldTrack s) (trackStack s)
        (trackCalls s) (deps s) (triggered s) (DEV s) (warnings s ++ [w]).

(** Modelled from the spec: [track] of effect.ts, which is not part of
    the sources at hand.  It records that the active reader context
    depends on [(target, key)] and does nothing when no reader context
    is active or tracking is suppressed.  Every call is logged in
    [trackCalls]; the edges that were registered are in [deps]. *)
Definition track (target : value) (type : TrackOpTypes) (k : key) : M unit :=
  modify (add_track (TrackEv target type k)).

(** Modelled from the spec: [trigger] of effect.ts, reduced to the
    record of the notification. *)
Definition trigger (target : value) (type : TriggerOpTypes) (k : key)
    (newValue oldValue : value) : M unit :=
  modify (add_trigger (TriggerEv target type k newValue oldValue)).

(** Modelled from the spec: [pauseTracking] and [resetTracking] of
    effect.ts push and pop the suppression stack. *)
Definition pauseTracking : M unit :=
  modify (fun s => set_tracking false (shouldTrack s :: trackStack s) s).

Definition resetTracking : M unit :=
  modify (fun s =>
    match trackStack s with
    | last :: rest => set_tracking last rest s
    | [] => set_tracking true [] s
    end).

(** Modelled from the spec: [warn] of warning.ts, the non-fatal
    warning channel. *)
Definition warn (msg : string) : M unit := modify (add_warning msg).

(** ** Property access through the handlers

    The getter, the wrap factory and the flag predicates call each
    other through property reads on values that may themselves be
    proxies.  Each definition takes the property read ([getter]) it is
    to use; [get_prop] ties the knot on a bound for the nesting. *)

Definition getter := value -> key -> value -> M value.

(** [TargetType] and [targetTypeMap]. *)
Inductive TargetType := INVALID | COMMON | COLLECTION.

Definition targetTypeMap (rawType : string) : TargetType :=
  if String.eqb rawType "Object" then COMMON
  else if String.eqb rawType "Array" then COMMON
  else if String.eqb rawType "Map" then COLLECTION
  else if String.eqb rawType "Set" then COLLECTION
  else if String.eqb rawType "WeakMap" then COLLECTION
  else if String.eqb rawType "WeakSet" then COLLECTION
  else INVALID.

Section WithGet.
Variable get : getter.

(** [o[k]] in source text: the receiver is [o] itself. *)
Definition read (o : value) (k : key) : M value := get o k o.

(** Modelled from the spec: [isRef] of ref.ts, the predicate for a
    boxed reference: [!!(r && r.__v_isRef === true)]. *)
Definition isRef (r : value) : M bool :=
  if truthy r then
    let* f := read r (KStr "__v_isRef") in
    ret (strict_eq f (VBool true))
  else ret false.

Definition isReadonly (v : value) : M bool :=
  if truthy v then
    let* f := read v ReactiveFlags.IS_READONLY in ret (truthy f)
  else ret false.

Definition isShallow (v : value) : M bool :=
  if truthy v then
    let* f := read v ReactiveFlags.IS_SHALLOW in ret (truthy f)
  else ret false.

(** [toRaw]: follow the [RAW] pointer while there is one; [n] bounds
    the number of hops. *)
Fixpoint toRaw (n : nat) (observed : value) : M value :=
  match n with
  | 0 => fail
  | S n' =>
      let* raw :=
        if truthy observed then read observed ReactiveFlags.RAW
        else ret observed in
      if truthy raw then toRaw n' raw else ret observed
  end.

Definition getTargetType (v : value) : M TargetType :=
  let* skip := read v ReactiveFlags.SKIP in
  if truthy skip then ret INVALID
  else
    let* ext := gets (fun s => isExtensible s v) in
    if negb ext then ret INVALID
    else let* rt := gets (fun s => toRawType s v) in ret (targetTypeMap rt).

(** [new Proxy(target, handlers)]: a fresh cell at the end of the heap. *)
Definition new_Proxy (target : addr) (h : handler) : M value :=
  let* p := gets (fun s => length (heap s)) in
  modify (fun s => set_heap (heap s ++ [Proxy target h]) s) ;;
  ret (VObj p).

Definition String_of_value (v : value) : string :=
  match v with
  | VUndefined => "undefined"
  | VNull => "null"
  | VBool true => "true"
  | VBool false => "false"
  | VNum NaN => "NaN"
  | VNum (Num z) =>
      if (z <? 0)%Z then "-" ++ string_of_index (Z.to_N (- z))
      else string_of_index (Z.to_N z)
  | VStr s => s
  | VSym y => String_of_key (KSym y)
  | VFun _ => "function () { [native code] }"
  | VObj _ => "[object Object]"
  end.

Definition createReactiveObject (target : value) (isReadonly : bool)
    (baseHandlers collectionHandlers : handler) (proxyMap : registry)
  : M value :=
  match target with
  | VObj a =>
      let* raw := read target ReactiveFlags.RAW in
      let* already :=
        if truthy raw then
          if isReadonly then
            let* r := read target ReactiveFlags.IS_REACTIVE in
            ret (negb (truthy r))
          else ret true
        else ret false in
      if already : bool then ret target
      else
        let* existingProxy :=
          gets (fun s => default VUndefined (proxyMap_get proxyMap s !! a)) in
        if truthy existingProxy then ret existingProxy
        else
          let* targetType := getTargetType target in
          match targetType with
          | INVALID => ret target
          | _ =>
              let* proxy :=
                new_Proxy a
                  (match targetType with
                   | COLLECTION => collectionHandlers
                   | _ => baseHandlers
                   end) in
              modify (proxyMap_set proxyMap a proxy) ;;
              ret proxy
          end
  | _ =>
      let* dev := gets DEV in
      when dev
        (warn ("value cannot be made reactive: " ++ String_of_value target)) ;;
      ret target
  end.

Definition mutableHandlers := Handler false false false.
Definition readonlyHandlers := Handler true false false.
Definition shallowReactiveHandlers := Handler false true false.
Definition shallowReadonlyHandlers := Handler true true false.
Definition mutableCollectionHandlers := Handler false false true.
Definition readonlyCollectionHandlers := Handler true false true.
Definition shallowCollectionHandlers := Handler false true true.
Definition shallowReadonlyCollectionHandlers := Handler true true true.

Definition reactive (target : value) : M value :=
  let* ro := isReadonly target in
  if ro : bool then ret target
  else createReactiveObject target false mutableHandlers
         mutableCollectionHandlers RegReactive.

Definition shallowReactive (target : value) : M value :=
  createReactiveObject target false shallowReactiveHandlers
    shallowCollectionHandlers RegShallowReactive.

Definition readonly (target : value) : M value :=
  createReactiveObject target true readonlyHandlers
    readonlyCollectionHandlers RegReadonly.

Definition shallowReadonly (target : value) : M value :=
  createReactiveObject target true shallowReadonlyHandlers
    shallowReadonlyCollectionHandlers RegShallowReadonly.

(** [isReactive] looks through readonly wrappers; [n] bounds the
    number of hops. *)
Fixpoint isReactive (n : nat) (v : value) : M bool :=
  match n with
  | 0 => fail
  | S n' =>
      let* ro := isReadonly v in
      if ro : bool then
        let* raw := read v ReactiveFlags.RAW in isReactive n' raw
      else if truthy v then
        let* f := read v ReactiveFlags.IS_REACTIVE in ret (truthy f)
      else ret false
  end.

Definition isProxy (n : nat) (v : value) : M bool :=
  let* r := isReactive n v in
  if r : bool then ret true else isReadonly v.

Definition toReactive (v : value) : M value :=
  if isObject v then reactive v else ret v.

Definition toReadonly (v : value) : M value :=
  if isObject v then readonly v else ret v.

(** The part of the getter after tracking: what becomes of the value
    that was read. *)
Definition convert_read (isReadonly shallow targetIsArray : bool)
    (k : key) (res : value) : M value :=
  if shallow then ret res
  else
    let* r := isRef res in
    if r : bool then
      if targetIsArray && isIntegerKey k then ret res
      else read res (KStr "value")
    else if isObject res then
      if isReadonly then readonly res else reactive res
    else ret res.

(** The body of the function [createGetter(isReadonly, shallow)]
    returns. *)
Definition createGetter (isReadonly shallow : bool)
    (target : addr) (k : key) (receiver : value) : M value :=
  if decide (k = ReactiveFlags.IS_REACTIVE) then ret (VBool (negb isReadonly))
  else if decide (k = ReactiveFlags.IS_READONLY) then ret (VBool isReadonly)
  else if decide (k = ReactiveFlags.IS_SHALLOW) then ret (VBool shallow)
  else
    let* registered :=
      gets (fun s => default VUndefined
              (proxyMap_get (registry_of isReadonly shallow) s !! target)) in
    if bool_decide (k = ReactiveFlags.RAW) && strict_eq receiver registered
    then ret (VObj target)
    else
      let* targetIsArray := gets (fun s => isArray s (VObj target)) in
      match (if negb isReadonly && targetIsArray
             then arrayInstrumentations k else None) with
      | Some m => ret (VFun (FInstr m))
      | None =>
          let* res := get (VObj target) k receiver in
          if (if isSymbol k then builtInSymbols_has k
              else isNonTrackableKeys k)
          then ret res
          else
            when (negb isReadonly) (track (VObj target) GET k) ;;
            convert_read isReadonly shallow targetIsArray k res
      end.

(** Modelled from the spec: the [get] of the collection handler
    bundles (collectionHandlers.ts is not part of the sources at
    hand).  It answers the reserved flag keys the same way as the
    base getter and hands every other key to the collection itself;
    what it does for the collection's methods is not modelled. *)
Definition collectionGetter (isReadonly shallow : bool)
    (target : addr) (k : key) (receiver : value) : M value :=
  if decide (k = ReactiveFlags.IS_REACTIVE) then ret (VBool (negb isReadonly))
  else if decide (k = ReactiveFlags.IS_READONLY) then ret (VBool isReadonly)
  else if decide (k = ReactiveFlags.IS_SHALLOW) then ret (VBool shallow)
  else
    let* registered :=
      gets (fun s => default VUndefined
              (proxyMap_get (registry_of isReadonly shallow) s !! target)) in
    if bool_decide (k = ReactiveFlags.RAW) && strict_eq receiver registered
    then ret (VObj target)
    else get (VObj target) k receiver.

(** [[Get]]: [Reflect.get(o, k, receiver)]. *)
Definition get_body (o : value) (k : key) (receiver : value) : M value :=
  match o with
  | VUndefined | VNull => fail
  | VObj a =>
      let* c := gets (fun s => heap s !! a) in
      match c with
      | Some (Plain obj) => ret (ordinary_get obj k)
      | Some (Proxy t h) =>
          if h_collection h
          then collectionGetter (h_readonly h) (h_shallow h) t k receiver
          else createGetter (h_readonly h) (h_shallow h) t k receiver
      | None => fail
      end
  | _ => ret VUndefined
  end.
End WithGet.

Fixpoint get_prop (fuel : nat) : getter :=
  match fuel with
  | 0 => fun _ _ _ => fail
  | S fuel' => get_body (get_prop fuel')
  end.

(** ** Writes, deletes and presence checks through the handlers *)

Definition setter := value -> key -> value -> value -> M bool.
Definition deleter := value -> key -> M bool.
Definition hasser := value -> key -> M bool.

Definition dquote : string := String (Ascii.ascii_of_nat 34) EmptyString.

Definition update_cell (a : addr) (c : cell) (s : state) : state :=
  set_heap (<[a:=c]> (heap s)) s.

(** [[Delete]] on an ordinary object; an array's [length] stays. *)
Definition ordinary_delete (o : object) (k : key) : option object :=
  if isArray_obj o && bool_decide (k = KStr "length") then None
  else Some (with_props o (own_remove (props o) k)).

(** [[HasProperty]] on an ordinary object. *)
Definition ordinary_has (o : object) (k : key) : bool :=
  bool_decide (is_Some (own_lookup (props o) k))
  || (isArray_obj o && bool_decide (is_Some (arrayInstrumentations k))).

(** The invariant of a proxy's [[Delete]]: a trap may not report
    success while the target still has the key as an own key and
    either the key is not configurable (in the model: an array's
    [length]) or the target is not extensible.  The runtime throws a
    [TypeError] then. *)
Definition delete_refuted (s : state) (target : value) (k : key) : bool :=
  hasOwn s target k
  && ((isArray s target && bool_decide (k = KStr "length"))
      || negb (isExtensible s target)).

Section WithSet.
Variable depth : nat.
Variable get : getter.
Variable set : setter.
Variable del : deleter.
Variable has : hasser.

(** [o[k] = v] in strict-mode source text: a refused write throws. *)
Definition assign (o : value) (k : key) (v : value) : M unit :=
  let* ok := set o k v o in
  if ok : bool then ret tt else fail.

(** The part of the setter from [hadKey] on. *)
Definition set_and_notify (target : addr) (k : key)
    (value oldValue receiver : value) : M bool :=
  let* targetIsArray := gets (fun s => isArray s (VObj target)) in
  let* hadKey :=
    if targetIsArray && isIntegerKey k then
      let* len := read get (VObj target) (KStr "length") in
      ret (index_lt (Number_of_key k) len)
    else gets (fun s => hasOwn s (VObj target) k) in
  let* result := set (VObj target) k value receiver in
  let* rawReceiver := toRaw get depth receiver in
  when (strict_eq (VObj target) rawReceiver)
    (if negb hadKey then trigger (VObj target) ADD k value VUndefined
     else if hasChanged value oldValue
          then trigger (VObj target) SET k value oldValue
          else ret tt) ;;
  ret result.

(** The body of the function [createSetter(shallow)] returns. *)
Definition createSetter (shallow : bool)
    (target : addr) (k : key) (value receiver : value) : M bool :=
  let* oldValue := read get (VObj target) k in
  let* roOld := isReadonly get oldValue in
  let* refOld := if roOld : bool then isRef get oldValue else ret false in
  let* reject :=
    if refOld : bool
    then (let* r := isRef get value in ret (negb r))
    else ret false in
  if reject : bool then ret false
  else if negb shallow then
    let* sh := isShallow get value in
    let* unwrap :=
      if sh : bool then ret false
      else (let* ro := isReadonly get value in ret (negb ro)) in
    let* ov :=
      if unwrap : bool then
        let* o := toRaw get depth oldValue in
        let* v := toRaw get depth value in
        ret (o, v)
      else ret (oldValue, value) in
    let* targetIsArray := gets (fun s => isArray s (VObj target)) in
    let* r1 :=
      if negb targetIsArray then isRef get ov.1 else ret false in
    let* box :=
      if r1 : bool
      then (let* r2 := isRef get ov.2 in ret (negb r2))
      else ret false in
    if box : bool then
      assign ov.1 (KStr "value") ov.2 ;;
      ret true
    else set_and_notify target k ov.2 ov.1 receiver
  else set_and_notify target k value oldValue receiver.

Definition deleteProperty (target : addr) (k : key) : M bool :=
  let* hadKey := gets (fun s => hasOwn s (VObj target) k) in
  let* oldValue := read get (VObj target) k in
  let* result := del (VObj target) k in
  when (result && hadKey)
    (trigger (VObj target) DELETE k VUndefined oldValue) ;;
  ret result.

Definition has_trap (target : addr) (k : key) : M bool :=
  let* result := has (VObj target) k in
  when (negb (isSymbol k) || negb (builtInSymbols_has k))
    (track (VObj target) HAS k) ;;
  ret result.

(** Modelled from the spec: [ITERATE_KEY] of effect.ts, the shared
    iteration sentinel. *)
Definition ITERATE_KEY : key := KSym (UserSym 0).

(** [Reflect.ownKeys] comes back as the list of own keys, in the
    order of [own_keys]. *)
Definition ownKeys (target : addr) : M (list key) :=
  let* targetIsArray := gets (fun s => isArray s (VObj target)) in
  track (VObj target) ITERATE
    (if targetIsArray then KStr "length" else ITERATE_KEY) ;;
  gets (fun s => match underlying_of s (VObj target) with
                 | Some (_, o) => own_keys o
                 | None => []
                 end).

(** [readonlyHandlers.set] and [readonlyHandlers.deleteProperty]. *)
Definition readonly_set (target : addr) (k : key) : M bool :=
  let* dev := gets DEV in
  when dev
    (warn ("Set operation on key " ++ dquote ++ String_of_key k ++ dquote
           ++ " failed: target is readonly.")) ;;
  ret true.

Definition readonly_deleteProperty (target : addr) (k : key) : M bool :=
  let* dev := gets DEV in
  when dev
    (warn ("Delete operation on key " ++ dquote ++ String_of_key k ++ dquote
           ++ " failed: target is readonly.")) ;;
  ret true.

(** [[Set]]: [Reflect.set(o, k, v, receiver)].  On an ordinary object
    the data property is created or updated on the receiver, through
    the receiver's own (trap-less) [[DefineOwnProperty]]. *)
Definition set_body (o : value) (k : key) (v receiver : value) : M bool :=
  match o with
  | VObj a =>
      let* c := gets (fun s => heap s !! a) in
      match c with
      | Some (Plain _) =>
          let* u := gets (fun s => underlying_of s receiver) in
          match u with
          | Some (b, obj) =>
              match ordinary_define obj k v with
              | Some obj' => modify (update_cell b (Plain obj')) ;; ret true
              | None => ret false
              end
          | None => ret false
          end
      | Some (Proxy t h) =>
          if h_collection h then set (VObj t) k v receiver
          else if h_readonly h then readonly_set t k
          else createSetter (h_shallow h) t k v receiver
      | None => fail
      end
  | _ => fail
  end.

(** [[Delete]]: [Reflect.deleteProperty(o, k)].  A proxy with a
    [deleteProperty] trap checks a reported success against its
    target ([delete_refuted]) and throws where the two disagree. *)
Definition del_body (o : value) (k : key) : M bool :=
  match o with
  | VObj a =>
      let* c := gets (fun s => heap s !! a) in
      match c with
      | Some (Plain obj) =>
          match ordinary_delete obj k with
          | Some obj' => modify (update_cell a (Plain obj')) ;; ret true
          | None => ret false
          end
      | Some (Proxy t h) =>
          if h_collection h then del (VObj t) k
          else
            let* result :=
              if h_readonly h then readonly_deleteProperty t k
              else deleteProperty t k in
            if result : bool then
              let* refuted := gets (fun s => delete_refuted s (VObj t) k) in
              if refuted : bool then fail else ret true
            else ret false
      | None => fail
      end
  | _ => fail
  end.

(** [[HasProperty]]: [Reflect.has(o, k)]; the readonly bundles have no
    [has] trap. *)
Definition has_body (o : value) (k : key) : M bool :=
  match o with
  | VObj a =>
      let* c := gets (fun s => heap s !! a) in
      match c with
      | Some (Plain obj) => ret (ordinary_has obj k)
      | Some (Proxy t h) =>
          if h_collection h || h_readonly h then has (VObj t) k
          else has_trap t k
      | None => fail
      end
  | _ => fail
  end.
End WithSet.

Fixpoint set_prop (fuel : nat) : setter :=
  match fuel with
  | 0 => fun _ _ _ _ => fail
  | S fuel' =>
      set_body (S fuel') (get_prop (S fuel')) (set_prop fuel')
  end.

Fixpoint del_prop (fuel : nat) : deleter :=
  match fuel with
  | 0 => fun _ _ => fail
  | S fuel' => del_body (get_prop (S fuel')) (del_prop fuel')
  end.

Fixpoint has_prop (fuel : nat) : hasser :=
  match fuel with
  | 0 => fun _ _ => fail
  | S fuel' => has_body (has_prop fuel')
  end.

(** [markRaw].  Modelled from the spec: [def] of @vue/shared sets the
    skip marker with [Object.defineProperty]; the property lands on the
    object itself (the handlers have no [defineProperty] trap) and the
    call throws where the object refuses it.  The marker is defined
    configurable, so a delete removes it like any other property. *)
Definition markRaw (v : value) : M value :=
  let* u := gets (fun s => underlying_of s v) in
  match u with
  | Some (a, o) =>
      match ordinary_define o ReactiveFlags.SKIP (VBool true) with
      | Some o' => modify (update_cell a (Plain o')) ;; ret v
      | None => fail
      end
  | None => fail
  end.

(** ** The four variants *)

Inductive variant :=
  | MutableDeep | MutableShallow | ReadonlyDeep | ReadonlyShallow.

Definition variant_readonly (v : variant) : bool :=
  match v with
  | ReadonlyDeep | ReadonlyShallow => true
  | _ => false
  end.

Definition variant_shallow (v : variant) : bool :=
  match v with
  | MutableShallow | ReadonlyShallow => true
  | _ => false
  end.

Definition variant_registry (v : variant) : registry :=
  registry_of (variant_readonly v) (variant_shallow v).

(** The factory of a variant: [reactive], [shallowReactive],
    [readonly] or [shallowReadonly]. *)
Definition wrap (fuel : nat) (v : variant) (x : value) : M value :=
  match v with
  | MutableDeep => reactive (get_prop fuel) x
  | MutableShallow => shallowReactive (get_prop fuel) x
  | ReadonlyDeep => readonly (get_prop fuel) x
  | ReadonlyShallow => shallowReadonly (get_prop fuel) x
  end.

Definition unwrapToRaw (fuel : nat) (x : value) : M value :=
  toRaw (get_prop fuel) fuel x.

Definition init_state (h : list cell) : state :=
  State h ∅ ∅ ∅ ∅ true true [] [] [] [] true [].

Definition plain_object (ps : list (key * value)) : cell :=
  Plain (Object "Object" true ps).

Definition array_of (vs : list value) : cell :=
  Plain (Object "Array" true
           (imap (fun i v => (key_of_index (N.of_nat i), v)) vs
            ++ [(KStr "length", VNum (Num (Z.of_nat (length vs))))])).

(** ** The native array methods

    [Array.prototype]'s methods are generic: they reach the array they
    are applied to only through [[Get]], [[Set]], [[Delete]] and
    [[HasProperty]], so applied to a proxy they run through its traps.
    They follow the steps of the ECMAScript algorithms. *)

Fixpoint forM {A} (l : list A) (f : A -> M unit) : M unit :=
  match l with
  | [] => ret tt
  | x :: l' => f x ;; forM l' f
  end.

(** [ToLength] of what [length] holds. *)
Definition ToLength (v : value) : nat :=
  match v with
  | VNum (Num z) => Z.to_nat z
  | _ => 0
  end.

(** [ToIntegerOrInfinity] on the values the model has numbers for. *)
Definition ToInteger (v : value) : Z :=
  match v with
  | VNum (Num z) => z
  | VBool true => 1%Z
  | VStr s => match index_of_string s with
              | Some n => Z.of_N n
              | None => 0%Z
              end
  | _ => 0%Z
  end.

Definition idx (n : nat) : key := key_of_index (N.of_nat n).
Definition num (n : nat) : value := VNum (Num (Z.of_nat n)).

Section Natives.
Variable get : getter.
Variable set : setter.
Variable del : deleter.
Variable has : hasser.

Definition LengthOfArrayLike (O : value) : M nat :=
  let* len := get O (KStr "length") O in ret (ToLength len).

(** [Set(O, P, V, true)] and [DeletePropertyOrThrow(O, P)]. *)
Definition Set_or_throw (O : value) (k : key) (v : value) : M unit :=
  let* ok := set O k v O in if ok : bool then ret tt else fail.

Definition Delete_or_throw (O : value) (k : key) : M unit :=
  let* ok := del O k in if ok : bool then ret tt else fail.

(** First index at which [test] accepts the element, among [ks]. *)
Fixpoint find_index (O : value) (probe : bool) (test : value -> bool)
    (ks : list nat) : M (option nat) :=
  match ks with
  | [] => ret None
  | k :: ks' =>
      let* present := if probe then has O (idx k) else ret true in
      if present : bool then
        let* elementK := get O (idx k) O in
        if test elementK then ret (Some k) else find_index O probe test ks'
      else find_index O probe test ks'
  end.

Definition from_start (len : nat) (args : list value) : nat :=
  let n := ToInteger (default VUndefined (args !! 1)) in
  if (0 <=? n)%Z then Z.to_nat n else Z.to_nat (Z.of_nat len + n).

Definition native_search (m : search_method) (O : value)
    (args : list value) : M value :=
  let searchElement := default VUndefined (args !! 0) in
  let* len := LengthOfArrayLike O in
  match m with
  | Includes =>
      let k := from_start len args in
      let* r := find_index O false (same_value searchElement)
                  (seq k (len - k)) in
      ret (VBool (bool_decide (is_Some r)))
  | IndexOf =>
      let k := from_start len args in
      let* r := find_index O true (strict_eq searchElement)
                  (seq k (len - k)) in
      ret (match r with
           | Some i => num i
           | None => VNum (Num (-1))
           end)
  | LastIndexOf =>
      let n := match args !! 1 with
               | Some f => ToInteger f
               | None => (Z.of_nat len - 1)%Z
               end in
      let k := if (0 <=? n)%Z then Z.min n (Z.of_nat len - 1)
               else (Z.of_nat len + n)%Z in
      let* r := find_index O true (strict_eq searchElement)
                  (rev (seq 0 (Z.to_nat (k + 1)))) in
      ret (match r with
           | Some i => num i
           | None => VNum (Num (-1))
           end)
  end.

(** Move the element at [from] to [to], or delete [to] where [from]
    is a hole. *)
Definition move (O : value) (from to : nat) : M unit :=
  let* fromPresent := has O (idx from) in
  if fromPresent : bool then
    let* fromValue := get O (idx from) O in
    Set_or_throw O (idx to) fromValue
  else Delete_or_throw O (idx to).

Definition set_items (O : value) (start : nat) (items : list value)
  : M unit :=
  forM (imap (fun j item => (start + j, item)) items)
       (fun p => Set_or_throw O (idx p.1) p.2).

(** [ArraySpeciesCreate] for an array without a subclass: the
    constructor is read off the receiver, then a fresh array is
    allocated. *)
Definition ArraySpeciesCreate (O : value) : M addr :=
  get O (KStr "constructor") O ;;
  let* a := gets (fun s => length (heap s)) in
  modify (fun s =>
    set_heap (heap s ++ [Plain (Object "Array" true
                                  [(KStr "length", VNum (Num 0))])]) s) ;;
  ret a.

Definition native_mutator (m : mutator_method) (O : value)
    (args : list value) : M value :=
  let* len := LengthOfArrayLike O in
  match m with
  | Push =>
      set_items O len args ;;
      Set_or_throw O (KStr "length") (num (len + length args)) ;;
      ret (num (len + length args))
  | Pop =>
      match len with
      | 0 =>
          Set_or_throw O (KStr "length") (num 0) ;;
          ret VUndefined
      | S newLen =>
          let* element := get O (idx newLen) O in
          Delete_or_throw O (idx newLen) ;;
          Set_or_throw O (KStr "length") (num newLen) ;;
          ret element
      end
  | Shift =>
      match len with
      | 0 =>
          Set_or_throw O (KStr "length") (num 0) ;;
          ret VUndefined
      | S newLen =>
          let* first := get O (idx 0) O in
          forM (seq 1 newLen) (fun k => move O k (k - 1)) ;;
          Delete_or_throw O (idx newLen) ;;
          Set_or_throw O (KStr "length") (num newLen) ;;
          ret first
      end
  | Unshift =>
      let argCount := length args in
      (if 0 <? argCount then
         forM (rev (seq 1 len))
              (fun k => move O (k - 1) (k + argCount - 1)) ;;
         set_items O 0 args
       else ret tt) ;;
      Set_or_throw O (KStr "length") (num (len + argCount)) ;;
      ret (num (len + argCount))
  | Splice =>
      let relativeStart := ToInteger (default VUndefined (args !! 0)) in
      let actualStart :=
        if (relativeStart <? 0)%Z
        then Z.to_nat (Z.of_nat len + relativeStart)
        else Z.to_nat (Z.min relativeStart (Z.of_nat len)) in
      let items := drop 2 args in
      let itemCount := length items in
      let actualDeleteCount :=
        match args with
        | [] => 0
        | [_] => len - actualStart
        | _ :: dc :: _ =>
            Z.to_nat (Z.min (Z.max (ToInteger dc) 0)
                            (Z.of_nat (len - actualStart)))
        end in
      let* A := ArraySpeciesCreate O in
      forM (seq 0 actualDeleteCount)
           (fun k =>
              let* fromPresent := has O (idx (actualStart + k)) in
              if fromPresent : bool then
                let* fromValue := get O (idx (actualStart + k)) O in
                Set_or_throw (VObj A) (idx k) fromValue
              else ret tt) ;;
      Set_or_throw (VObj A) (KStr "length") (num actualDeleteCount) ;;
      (if itemCount <? actualDeleteCount then
         forM (seq actualStart (len - actualDeleteCount - actualStart))
              (fun k => move O (k + actualDeleteCount) (k + itemCount)) ;;
         forM (rev (seq (len - actualDeleteCount + itemCount)
                        (actualDeleteCount - itemCount)))
              (fun k => Delete_or_throw O (idx k))
       else if actualDeleteCount <? itemCount then
         forM (rev (seq actualStart (len - actualDeleteCount - actualStart)))
              (fun k => move O (k + actualDeleteCount) (k + itemCount))
       else ret tt) ;;
      set_items O actualStart items ;;
      Set_or_throw O (KStr "length")
        (num (len - actualDeleteCount + itemCount)) ;;
      ret (VObj A)
  end.

(** ** [createArrayInstrumentations] *)

Variable depth : nat.

(** [f.apply(this, args)] for a native method. *)
Definition apply_native (f : value) (this : value) (args : list value)
  : M value :=
  match f with
  | VFun (FNative (Search m)) => native_search m this args
  | VFun (FNative (Mutator m)) => native_mutator m this args
  | _ => fail
  end.

Definition name_of_method (m : arr_method) : string :=
  match m with
  | Search Includes => "includes"
  | Search IndexOf => "indexOf"
  | Search LastIndexOf => "lastIndexOf"
  | Mutator Push => "push"
  | Mutator Pop => "pop"
  | Mutator Shift => "shift"
  | Mutator Unshift => "unshift"
  | Mutator Splice => "splice"
  end.

Fixpoint mapM {A B} (f : A -> M B) (l : list A) : M (list B) :=
  match l with
  | [] => ret []
  | x :: l' => let* y := f x in let* ys := mapM f l' in ret (y :: ys)
  end.

(** The replacement for [includes], [indexOf] and [lastIndexOf]. *)
Definition instr_search (m : search_method) (this : value)
    (args : list value) : M value :=
  let key := KStr (name_of_method (Search m)) in
  let* arr := toRaw get depth this in
  let* l := LengthOfArrayLike this in
  forM (seq 0 l) (fun i => track arr GET (idx i)) ;;
  let* f := read get arr key in
  let* res := apply_native f arr args in
  if strict_eq res (VNum (Num (-1))) || strict_eq res (VBool false) then
    let* f' := read get arr key in
    let* rawArgs := mapM (toRaw get depth) args in
    apply_native f' arr rawArgs
  else ret res.

(** The replacement for [push], [pop], [shift], [unshift] and
    [splice]. *)
Definition instr_mutator (m : mutator_method) (this : value)
    (args : list value) : M value :=
  let key := KStr (name_of_method (Mutator m)) in
  pauseTracking ;;
  let* raw := toRaw get depth this in
  let* f := read get raw key in
  let* res := apply_native f this args in
  resetTracking ;;
  ret res.

(** A call [f.apply(this, args)] of any function value. *)
Definition apply_func (f : value) (this : value) (args : list value)
  : M value :=
  match f with
  | VFun (FInstr (Search m)) => instr_search m this args
  | VFun (FInstr (Mutator m)) => instr_mutator m this args
  | _ => apply_native f this args
  end.
End Natives.

(** [o.name(...args)]: read the method off [o], then apply it to [o]. *)
Definition call_method (fuel : nat) (o : value) (name : string)
    (args : list value) : M value :=
  let* f := get_prop fuel o (KStr name) o in
  apply_func (get_prop fuel) (set_prop fuel) (del_prop fuel) (has_prop fuel)
    fuel f o args.

(** * Definitions the statements use *)

(** What the classifier decides on an ordinary object. *)
Definition classify (o : object) : TargetType :=
  if truthy (ordinary_get o ReactiveFlags.SKIP) then INVALID
  else if negb (extensible o) then INVALID
  else targetTypeMap (rawType o).

(** Every registry entry is the address of a proxy over the key, built
    with a handler bundle of that registry. *)
Definition entry_ok (s : state) (r : registry) (t : addr) (p : value) : bool :=
  match p with
  | VObj pa =>
      match heap s !! pa with
      | Some (Proxy t' h) =>
          bool_decide (t' = t)
          && bool_decide (registry_of (h_readonly h) (h_shallow h) = r)
      | _ => false
      end
  | _ => false
  end.

Definition registries_ok (s : state) : Prop :=
  forall r t p, proxyMap_get r s !! t = Some p -> entry_ok s r t p = true.

Definition all_registries : list registry :=
  [RegReactive; RegShallowReactive; RegReadonly; RegShallowReadonly].

(** The same as a check that runs. *)
Definition registries_okb (s : state) : bool :=
  forallb (fun r =>
             forallb (fun tp => entry_ok s r tp.1 tp.2)
                     (map_to_list (proxyMap_get r s)))
          all_registries.

(** What the factory does with an ordinary object. *)
Definition factory_result (s : state) (a : addr) (o : object) (ro : bool)
    (bh ch : handler) (r : registry) : value * state :=
  if truthy (ordinary_get o ReactiveFlags.RAW)
     && negb (ro && truthy (ordinary_get o ReactiveFlags.IS_REACTIVE))
  then (VObj a, s)
  else
    let existing := default VUndefined (proxyMap_get r s !! a) in
    if truthy existing then (existing, s)
    else
      match classify o with
      | INVALID => (VObj a, s)
      | ty =>
          let p := VObj (length (heap s)) in
          (p, proxyMap_set r a p
                (set_heap (heap s ++ [Proxy a (match ty with
                                               | COLLECTION => ch
                                               | _ => bh
                                               end)]) s))
      end.

#[global] Instance variant_eq_dec : EqDecision variant.
Proof. solve_decision. Defined.

Definition variant_base (v : variant) : handler :=
  Handler (variant_readonly v) (variant_shallow v) false.

Definition variant_collection (v : variant) : handler :=
  Handler (variant_readonly v) (variant_shallow v) true.

(** What [wrap] does with an ordinary object. *)
Definition wrap_result (s : state) (a : addr) (o : object) (v : variant)
  : value * state :=
  if bool_decide (v = MutableDeep)
     && truthy (ordinary_get o ReactiveFlags.IS_READONLY)
  then (VObj a, s)
  else factory_result s a o (variant_readonly v) (variant_base v)
         (variant_collection v) (variant_registry v).

(** The record [{a: 1}] at address 0, not wrapped yet. *)
Definition fresh_record_state : state :=
  init_state [plain_object [(KStr "a", VNum (Num 1))]].

(** The state after the getter of a mutable proxy over [x] has read a
    trackable key that holds a falsy value. *)
Definition after_read (hd : handler) (x : addr) (k : key) (s : state)
  : state :=
  if h_collection hd then s else add_track (TrackEv (VObj x) GET k) s.

Definition wrappable_kinds : list string :=
  ["Object"; "Array"; "Map"; "Set"; "WeakMap"; "WeakSet"].

(** The empty record at address 0, not wrapped yet. *)
Definition empty_record_state : state := init_state [plain_object []].

Definition preserves {A} (R : relation state) (m : M A) : Prop :=
  forall s a s', m s = Some (a, s') -> R s s'.

(** What a read may change: it allocates proxies and logs [track]
    calls, and registers a dependency only while tracking is on. *)
Definition get_frame (s s' : state) : Prop :=
  triggered s' = triggered s
  /\ shouldTrack s' = shouldTrack s
  /\ trackStack s' = trackStack s
  /\ (shouldTrack s = false -> deps s' = deps s)
  /\ heap s `prefix_of` heap s'.

(** "Existed before", on the object as it is before the write. *)
Definition existed_before (o : object) (k : key) : bool :=
  if isArray_obj o && isIntegerKey k
  then index_lt (Number_of_key k) (ordinary_get o (KStr "length"))
  else bool_decide (is_Some (own_lookup (props o) k)).

(** The notification the setter owes for a write of [v] over [old]. *)
Definition notification (t : addr) (o : object) (k : key) (v old : value)
    (rawReceiver : value) : list trigger_event :=
  if strict_eq (VObj t) rawReceiver then
    if negb (existed_before o k) then [TriggerEv (VObj t) ADD k v VUndefined]
    else if hasChanged v old then [TriggerEv (VObj t) SET k v old]
    else []
  else [].

Definition state_after {A} (m : M A) (s : state) : state :=
  match m s with
  | Some (_, s') => s'
  | None => s
  end.

(** A one-element array at address 0 and its mutable proxy at 1. *)
Definition one_array_state : state :=
  state_after (wrap 1 MutableDeep (VObj 0))
    (init_state [array_of [VNum (Num 1)]]).

(** The three writes of a record [{a: 1}] through its mutable proxy:
    an unchanged value, a changed value, a new key. *)
Definition record_state : state :=
  state_after (wrap 1 MutableDeep (VObj 0))
    (init_state [plain_object [(KStr "a", VNum (Num 1))]]).

(** The state after a handler that only warns, and only in a
    development build. *)
Definition warned (msg : string) (s : state) : state :=
  if DEV s then add_warning msg s else s.

Definition set_warning (k : key) : string :=
  "Set operation on key " ++ dquote ++ String_of_key k ++ dquote
  ++ " failed: target is readonly.".

Definition delete_warning (k : key) : string :=
  "Delete operation on key " ++ dquote ++ String_of_key k ++ dquote
  ++ " failed: target is readonly.".

(** The record [{a: 1}] at 0 and its readonly proxy at 1. *)
Definition readonly_state : state :=
  state_after (wrap 1 ReadonlyDeep (VObj 0))
    (init_state [plain_object [(KStr "a", VNum (Num 1))]]).

(** The same proxy in a production build. *)
Definition production (s : state) : state :=
  State (heap s) (reactiveMap s) (shallowReactiveMap s) (readonlyMap s)
        (shallowReadonlyMap s) (activeEffect s) (shouldTrack s) (trackStack s)
        (trackCalls s) (deps s) (triggered s) false (warnings s).

(** A one-element array at address 0 and its readonly proxy at 1. *)
Definition readonly_array_state : state :=
  state_after (wrap 1 ReadonlyDeep (VObj 0))
    (init_state [array_of [VNum (Num 1)]]).

(** A value that is no proxy: a primitive or an ordinary object. *)
Definition is_raw (s : state) (v : value) : bool :=
  match v with
  | VObj c => match heap s !! c with
              | Some (Plain _) => true
              | _ => false
              end
  | _ => true
  end.

(** What [v[k]] holds for such a value. *)
Definition prop_of (s : state) (v : value) (k : key) : value :=
  match v with
  | VObj c => match heap s !! c with
              | Some (Plain oc) => ordinary_get oc k
              | _ => VUndefined
              end
  | _ => VUndefined
  end.

(** A box: an ordinary object whose [__v_isRef] is [true]. *)
Definition is_box (s : state) (v : value) : bool :=
  is_raw s v && truthy v
  && strict_eq (prop_of s v (KStr "__v_isRef")) (VBool true).

(** A value free of the reserved flags that is no box. *)
Definition plain_value (s : state) (v : value) : bool :=
  is_raw s v
  && negb (truthy (prop_of s v ReactiveFlags.RAW))
  && negb (truthy (prop_of s v ReactiveFlags.IS_READONLY))
  && negb (truthy (prop_of s v ReactiveFlags.IS_SHALLOW))
  && negb (strict_eq (prop_of s v (KStr "__v_isRef")) (VBool true)).

(** A box at 0, a readonly box at 1, the record
    [{count: box, total: readonly box}] at 2 and its mutable proxy at 3. *)
Definition box_cell (ro : bool) (inner : value) : cell :=
  plain_object
    ((if ro then [(ReactiveFlags.IS_READONLY, VBool true)] else [])
     ++ [(KStr "__v_isRef", VBool true); (KStr "value", inner)]).

Definition boxed_state : state :=
  state_after (wrap 1 MutableDeep (VObj 2))
    (init_state
       [box_cell false (VNum (Num 0));
        box_cell true (VNum (Num 0));
        plain_object [(KStr "count", VObj 0); (KStr "total", VObj 1)]]).

(** The getter answers [RAW] itself only to the proxy registered for
    the target. *)
Definition answers_RAW (ro sh : bool) (s : state) (t : addr) (k : key)
    (r : value) : bool :=
  bool_decide (k = ReactiveFlags.RAW)
  && strict_eq r
       (default VUndefined (proxyMap_get (registry_of ro sh) s !! t)).

(** The keys for which the getter of a proxy over the ordinary object
    [o] at [t] returns before its tracking step: an answered reserved
    flag, on an array one of the instrumented method names, a built-in
    symbol, a non-trackable key. *)
Definition returns_early (ro sh : bool) (s : state) (t : addr)
    (o : object) (k : key) (r : value) : bool :=
  bool_decide (k ∈ [ReactiveFlags.IS_REACTIVE; ReactiveFlags.IS_READONLY;
                    ReactiveFlags.IS_SHALLOW])
  || answers_RAW ro sh s t k r
  || (negb ro && isArray_obj o
      && bool_decide (is_Some (arrayInstrumentations k)))
  || builtInSymbols_has k
  || isNonTrackableKeys k.

(** When that getter calls [track(t, GET, k)] itself. *)
Definition read_trap_tracks (ro sh : bool) (s : state) (t : addr)
    (o : object) (k : key) (r : value) : bool :=
  negb ro && negb (returns_early ro sh s t o k r).

Definition own_track (ro sh : bool) (s : state) (t : addr) (o : object)
    (k : key) (r : value) : list track_event :=
  if read_trap_tracks ro sh s t o k r then [TrackEv (VObj t) GET k] else [].

Definition tracked (ro sh : bool) (s : state) (t : addr) (o : object)
    (k : key) (r : value) : state :=
  if read_trap_tracks ro sh s t o k r
  then add_track (TrackEv (VObj t) GET k) s else s.

(** The variant nested values are wrapped with. *)
Definition nested_variant (ro : bool) : variant :=
  if ro then ReadonlyDeep else MutableDeep.

(** A box at 0, the record [{x: 1}] at 1, the record
    [{count: box, child: {x: 1}, n: 5}] at 2 and its mutable proxy
    at 3. *)
Definition conversion_record : object :=
  Object "Object" true
    [(KStr "count", VObj 0); (KStr "child", VObj 1);
     (KStr "n", VNum (Num 5))].

Definition conversion_state : state :=
  state_after (wrap 1 MutableDeep (VObj 2))
    (init_state
       [box_cell false (VNum (Num 7));
        plain_object [(KStr "x", VNum (Num 1))];
        Plain conversion_record]).

(** An array [[box, 2]] at 1 (the box at 0) and its proxies: deep
    mutable at 2, shallow mutable at 3. *)
Definition box_array_state : state :=
  state_after (wrap 1 MutableDeep (VObj 1) ;; wrap 1 MutableShallow (VObj 1))
    (init_state [box_cell false (VNum (Num 1));
                 array_of [VObj 0; VNum (Num 2)]]).

(** The state after [track(v, GET, i)] for each index in turn. *)
Definition track_indices (v : value) (ks : list nat) (s : state) : state :=
  foldl (fun s i => add_track (TrackEv v GET (idx i)) s) s ks.

Definition not_found (res : value) : bool :=
  strict_eq res (VNum (Num (-1))) || strict_eq res (VBool false).

Definition search_name (m : search_method) : string :=
  name_of_method (Search m).

(** The record [{x: 1}] at 0, the array [[record]] at 1, the array's
    mutable proxy at 2 and, after a read of its element, the record's
    mutable proxy at 3. *)
Definition search_state : state :=
  state_after (wrap 1 MutableDeep (VObj 1) ;;
               get_prop 3 (VObj 2) (KStr "0") (VObj 2))
    (init_state [plain_object [(KStr "x", VNum (Num 1))];
                 array_of [VObj 0]]).

(** What any handler may do to the tracking subsystem: it leaves the
    suppression state alone, and registers no dependency while
    tracking is suppressed. *)
Definition quiet (s s' : state) : Prop :=
  shouldTrack s' = shouldTrack s
  /\ trackStack s' = trackStack s
  /\ (shouldTrack s = false -> deps s' = deps s).

Definition mutator_name (m : mutator_method) : string :=
  name_of_method (Mutator m).

(** The array [[5, "b", 8]] at 0 and its mutable proxy at 1. *)
Definition three_array_state : state :=
  state_after (wrap 1 MutableDeep (VObj 0))
    (init_state [array_of [VNum (Num 5); VStr "b"; VNum (Num 8)]]).

(** The result of a method call and the dependencies registered by
    the end of it. *)
Definition outcome (m : M value) (s : state)
  : option (value * list track_event) :=
  match m s with
  | Some (v, s') => Some (v, deps s')
  | None => None
  end.

(** The shim as C9 words it: the native method applied to the
    unwrapped array. *)
Definition mutator_against_raw (fuel : nat) (m : mutator_method)
    (this : value) (args : list value) : M value :=
  pauseTracking ;;
  let* arr := toRaw (get_prop fuel) fuel this in
  let* res := native_mutator (get_prop fuel) (set_prop fuel) (del_prop fuel)
                (has_prop fuel) m arr args in
  resetTracking ;;
  ret res.

(** The state after the notifications [evs] went out. *)
Definition notified (evs : list trigger_event) (s : state) : state :=
  foldl (fun s e => add_trigger e s) s evs.

(** [keeps_registries s s']: soundness of the registries carries over
    from [s] to [s']. *)
Definition keeps_registries (s s' : state) : Prop :=
  registries_ok s -> registries_ok s'.

(** A run of wrap requests, results dropped. *)
Definition wraps (fuel : nat) (reqs : list (variant * addr)) : M unit :=
  forM reqs (fun r => wrap fuel r.1 (VObj r.2) ;; ret tt).

(** The operations user code performs on values. *)
Inductive operation :=
  | OpWrap (v : variant) (x : value)
  | OpGet (o : value) (k : key)
  | OpSet (o : value) (k : key) (v : value)
  | OpDelete (o : value) (k : key)
  | OpHas (o : value) (k : key)
  | OpCall (o : value) (name : string) (args : list value)
  | OpMarkRaw (v : value).

Definition run (fuel : nat) (op : operation) : M unit :=
  match op with
  | OpWrap v x => wrap fuel v x ;; ret tt
  | OpGet o k => get_prop fuel o k o ;; ret tt
  | OpSet o k v => set_prop fuel o k v o ;; ret tt
  | OpDelete o k => del_prop fuel o k ;; ret tt
  | OpHas o k => has_prop fuel o k ;; ret tt
  | OpCall o name args => call_method fuel o name args ;; ret tt
  | OpMarkRaw v => markRaw v ;; ret tt
  end.

(** A value that is no proxy and carries none of the reserved flags. *)
Definition unflagged (s : state) (v : value) : bool :=
  is_raw s v
  && forallb (fun k => negb (truthy (prop_of s v k)))
       [ReactiveFlags.IS_REACTIVE; ReactiveFlags.IS_READONLY;
        ReactiveFlags.IS_SHALLOW; ReactiveFlags.RAW].

(** The notification the [deleteProperty] trap owes for a key of the
    ordinary object [o] at [t]. *)
Definition deletion (t : addr) (o : object) (k : key) : list trigger_event :=
  if bool_decide (is_Some (own_lookup (props o) k))
  then [TriggerEv (VObj t) DELETE k VUndefined (ordinary_get o k)]
  else [].

(** [[OwnPropertyKeys]]: [Reflect.ownKeys(o)]; of the handler bundles
    only the mutable ones have an [ownKeys] trap. *)
Fixpoint ownKeys_prop (fuel : nat) (o : value) : M (list key) :=
  match fuel with
  | 0 => fail
  | S fuel' =>
      match o with
      | VObj a =>
          let* c := gets (fun s => heap s !! a) in
          match c with
          | Some (Plain obj) => ret (own_keys obj)
          | Some (Proxy t h) =>
              if h_collection h || h_readonly h
              then ownKeys_prop fuel' (VObj t)
              else ownKeys t
          | None => fail
          end
      | _ => fail
      end
  end.

(** What a run of steps on the proxy [p] of the ordinary object [o] at
    [t] keeps: it sends no notification and changes no object that
    exists in place. *)
Definition readonly_frame (p t : addr) (h : handler) (o : object)
    (s s' : state) : Prop :=
  heap s !! p = Some (Proxy t h) ->
  heap s !! t = Some (Plain o) ->
  triggered s' = triggered s /\ heap s `prefix_of` heap s'.

(** The state after the readonly [set] trap turned down a write for
    each of the keys in turn. *)
Definition warned_all (ks : list key) (s : state) : state :=
  foldl (fun s k => warned (set_warning k) s) s ks.

(** The records [{a: 1}] at 0 and [{x: 1}] at 1 and their mutable deep
    proxies at 2 and 3. *)
Definition two_records_state : state :=
  state_after (wrap 1 MutableDeep (VObj 0) ;; wrap 1 MutableDeep (VObj 1))
    (init_state [plain_object [(KStr "a", VNum (Num 1))];
                 plain_object [(KStr "x", VNum (Num 1))]]).
(** The record [{a: 1}] at 0, made non-extensible after its mutable
    proxy at 1 was created. *)
Definition sealed_record_state : state :=
  update_cell 0 (Plain (Object "Object" false [(KStr "a", VNum (Num 1))]))
    record_state.

(** The proxy [p] is registered for the array [o] at [t], which is
    extensible, has length [l] and no element from [l] on. *)
Definition array_behind (s : state) (p t : addr) (h : handler) (o : object)
    (l : nat) : Prop :=
  heap s !! p = Some (Proxy t h)
  /\ proxyMap_get (registry_of (h_readonly h) (h_shallow h)) s !! t
     = Some (VObj p)
  /\ heap s !! t = Some (Plain o)
  /\ isArray_obj o = true
  /\ extensible o = true
  /\ truthy (ordinary_get o ReactiveFlags.RAW) = false
  /\ own_lookup (props o) (KStr "length") = Some (num l)
  /\ forall i, l <= i -> own_lookup (props o) (idx i) = None.

(** What [ArraySetLength] accepts without conversion: a whole number
    from [0] to [2^32 - 1]. *)
Definition valid_length (v : value) : bool :=
  match v with
  | VNum (Num z) => (0 <=? z)%Z && (z <? 4294967296)%Z
  | _ => false
  end.

(** The key [k] is the [length] of the array [o]. *)
Definition array_length_key (o : object) (k : key) : bool :=
  isArray_obj o && bool_decide (k = KStr "length").

(** A write of [v] to the key [k] of [o] is no assignment of an
    invalid length to an array. *)
Definition length_write_ok (o : object) (k : key) (v : value) : bool :=
  negb (array_length_key o k) || valid_length v.

(** The notifications [push] owes for appending [items] at [l]. *)
Definition appended (t : addr) (l : nat) (items : list value)
  : list trigger_event :=
  imap (fun j v => TriggerEv (VObj t) ADD (idx (l + j)) v VUndefined) items.

(** The object at [x] carries a truthy skip marker, and the registry
    [r] holds no wrapper of it. *)
Definition marked_unwrapped (x : addr) (r : registry) (s : state) : Prop :=
  (exists o, heap s !! x = Some (Plain o)
             /\ truthy (ordinary_get o ReactiveFlags.SKIP) = true)
  /\ proxyMap_get r s !! x = None.

(** What a step keeps of a marked object. *)
Definition keeps_marked (x : addr) (r : registry) : relation state :=
  fun s s' => marked_unwrapped x r s -> marked_unwrapped x r s'.

(** An operation that neither writes nor deletes the skip marker of
    any object. *)
Definition keeps_marker (op : operation) : bool :=
  match op with
  | OpSet _ k _ | OpDelete _ k =>
      negb (bool_decide (k = ReactiveFlags.SKIP))
  | _ => true
  end.

(** * Properties *)

(** ** Reads that leave the state alone *)

Lemma bind_Some {A B} (m : M A) (f : A -> M B) s a s' :
  m s = Some (a, s') -> bind m f s = f a s'.
Proof. intros H. unfold bind. by rewrite H. Qed.

Lemma underlying_plain h a o :
  h !! a = Some (Plain o) -> underlying (length h) h a = Some (a, o).
Proof.
  intros H. pose proof (lookup_lt_Some _ _ _ H) as Hlt.
  destruct (length h) as [|n] eqn:E; [lia|]. simpl. by rewrite H.
Qed.

Lemma underlying_of_plain s a o :
  heap s !! a = Some (Plain o) -> underlying_of s (VObj a) = Some (a, o).
Proof. apply underlying_plain. Qed.

#[global] Arguments get_prop : simpl never.
#[global] Arguments set_prop : simpl never.
#[global] Arguments del_prop : simpl never.
#[global] Arguments has_prop : simpl never.
#[global] Arguments proxyMap_get : simpl never.
#[global] Arguments underlying_of : simpl never.
#[global] Arguments underlying : simpl never.

Lemma get_prop_S f : get_prop (S f) = get_body (get_prop f).
Proof. reflexivity. Qed.

Lemma get_plain f s a o k r :
  heap s !! a = Some (Plain o) ->
  get_prop (S f) (VObj a) k r s = Some (ordinary_get o k, s).
Proof. intros H. rewrite get_prop_S. unfold get_body, bind, gets. by rewrite H. Qed.

Lemma getTargetType_plain f s a o :
  heap s !! a = Some (Plain o) ->
  getTargetType (get_prop (S f)) (VObj a) s = Some (classify o, s).
Proof.
  intros H. unfold getTargetType, read, classify.
  rewrite (bind_Some _ _ _ _ _ (get_plain f s a o _ _ H)).
  destruct (truthy _); [done|].
  unfold bind, gets, isExtensible, toRawType.
  rewrite (underlying_of_plain _ _ _ H).
  destruct (extensible o); simpl; [|done].
  by rewrite (underlying_of_plain _ _ _ H).
Qed.

(** A proxy answers the three boolean flags from its handler bundle
    and [RAW] with its target, provided it is the registered proxy of
    that target. *)
Lemma get_proxy_flags f s pa t h r :
  heap s !! pa = Some (Proxy t h) ->
  get_prop (S f) (VObj pa) ReactiveFlags.IS_REACTIVE r s
    = Some (VBool (negb (h_readonly h)), s)
  /\ get_prop (S f) (VObj pa) ReactiveFlags.IS_READONLY r s
    = Some (VBool (h_readonly h), s)
  /\ get_prop (S f) (VObj pa) ReactiveFlags.IS_SHALLOW r s
    = Some (VBool (h_shallow h), s).
Proof.
  intros H. rewrite get_prop_S. unfold get_body, bind, gets. rewrite H.
  by destruct (h_collection h).
Qed.

Lemma get_proxy_RAW f s pa t h :
  heap s !! pa = Some (Proxy t h) ->
  proxyMap_get (registry_of (h_readonly h) (h_shallow h)) s !! t
    = Some (VObj pa) ->
  get_prop (S f) (VObj pa) ReactiveFlags.RAW (VObj pa) s = Some (VObj t, s).
Proof.
  intros H Hreg. rewrite get_prop_S. unfold get_body, bind, gets. rewrite H.
  destruct (h_collection h); unfold collectionGetter, createGetter;
    repeat (case_decide; [discriminate|]);
    unfold bind, gets; rewrite Hreg; simpl default;
    unfold strict_eq; rewrite !bool_decide_eq_true_2 by done; done.
Qed.

(** The factory hands a registered proxy back when asked for the
    variant it already has (or for a mutable one at all). *)
Lemma createReactiveObject_proxy f s pa t h ro bh ch r :
  heap s !! pa = Some (Proxy t h) ->
  proxyMap_get (registry_of (h_readonly h) (h_shallow h)) s !! t
    = Some (VObj pa) ->
  (ro = true -> h_readonly h = true) ->
  createReactiveObject (get_prop (S f)) (VObj pa) ro bh ch r s
    = Some (VObj pa, s).
Proof.
  intros H Hreg Hro. unfold createReactiveObject, read.
  rewrite (bind_Some _ _ _ _ _ (get_proxy_RAW f s pa t h H Hreg)).
  simpl.
  destruct ro.
  - destruct (get_proxy_flags f s pa t h (VObj pa) H) as (E & _ & _).
    rewrite (bind_Some _ _ _ _ _ (bind_Some _ _ _ _ _ E)).
    rewrite Hro by done. done.
  - done.
Qed.

Lemma isReadonly_proxy f s pa t h :
  heap s !! pa = Some (Proxy t h) ->
  isReadonly (get_prop (S f)) (VObj pa) s = Some (h_readonly h, s).
Proof.
  intros H. unfold isReadonly, read. simpl.
  destruct (get_proxy_flags f s pa t h (VObj pa) H) as (_ & E & _).
  rewrite (bind_Some _ _ _ _ _ E). by destruct (h_readonly h).
Qed.

Lemma isReadonly_plain f s a o :
  heap s !! a = Some (Plain o) ->
  isReadonly (get_prop (S f)) (VObj a) s
    = Some (truthy (ordinary_get o ReactiveFlags.IS_READONLY), s).
Proof.
  intros H. unfold isReadonly, read. simpl.
  by rewrite (bind_Some _ _ _ _ _ (get_plain f s a o _ _ H)).
Qed.

(** ** The registries *)

Lemma registries_okb_ok s : registries_okb s = true -> registries_ok s.
Proof.
  unfold registries_okb. rewrite forallb_forall. intros H r t p Hl.
  assert (Hr : In r all_registries) by (destruct r; simpl; tauto).
  specialize (H r Hr). rewrite forallb_forall in H.
  apply (H (t, p)). apply list_elem_of_In. by apply elem_of_map_to_list.
Qed.

Lemma entry_ok_inv s r t p :
  entry_ok s r t p = true ->
  exists pa h, p = VObj pa /\ heap s !! pa = Some (Proxy t h)
               /\ registry_of (h_readonly h) (h_shallow h) = r.
Proof.
  unfold entry_ok. destruct p as [| | | | | | |pa]; try done.
  destruct (heap s !! pa) as [[|t' h]|] eqn:E; try done.
  rewrite andb_true_iff, !bool_decide_eq_true. intros [-> <-]. eauto.
Qed.

Lemma createReactiveObject_plain f s a o ro bh ch r :
  heap s !! a = Some (Plain o) ->
  createReactiveObject (get_prop (S f)) (VObj a) ro bh ch r s
    = Some (factory_result s a o ro bh ch r).
Proof.
  intros H. unfold createReactiveObject, factory_result, read.
  rewrite (bind_Some _ _ _ _ _ (get_plain f s a o _ _ H)).
  destruct (truthy (ordinary_get o ReactiveFlags.RAW)); simpl.
  - destruct ro; simpl.
    + rewrite (bind_Some _ _ _ _ _
                 (bind_Some _ _ _ _ _ (get_plain f s a o _ _ H))).
      unfold ret. simpl.
      destruct (truthy (ordinary_get o ReactiveFlags.IS_REACTIVE)); simpl.
      2: done.
      unfold bind at 1. unfold gets at 1.
      destruct (truthy (default VUndefined (proxyMap_get r s !! a))); [done|].
      rewrite (bind_Some _ _ _ _ _ (getTargetType_plain f s a o H)).
      by destruct (classify o).
    + done.
  - unfold bind at 1. unfold ret at 1. unfold bind at 1. unfold gets at 1.
    destruct (truthy (default VUndefined (proxyMap_get r s !! a))); [done|].
    rewrite (bind_Some _ _ _ _ _ (getTargetType_plain f s a o H)).
    by destruct (classify o).
Qed.

Lemma heap_proxyMap_set r a p s : heap (proxyMap_set r a p s) = heap s.
Proof. by destruct r. Qed.

Lemma proxyMap_get_set r a p s :
  proxyMap_get r (proxyMap_set r a p s) !! a = Some p.
Proof. destruct r; unfold proxyMap_get; simpl; apply lookup_insert_eq. Qed.

Lemma proxyMap_get_set_heap r h s :
  proxyMap_get r (set_heap h s) = proxyMap_get r s.
Proof. by destruct r. Qed.

Lemma wrap_plain f s a o v :
  heap s !! a = Some (Plain o) ->
  wrap (S f) v (VObj a) s = Some (wrap_result s a o v).
Proof.
  intros H. unfold wrap_result.
  destruct v; unfold wrap;
    [| exact (createReactiveObject_plain f s a o _ _ _ _ H) ..].
  unfold reactive.
  rewrite (bind_Some _ _ _ _ _ (isReadonly_plain f s a o H)).
  rewrite bool_decide_eq_true_2 by done.
  destruct (truthy _); [done|].
  exact (createReactiveObject_plain f s a o _ _ _ _ H).
Qed.

(** Wrapping a registered proxy of variant [v] at variant [v] again
    returns it. *)
Lemma wrap_registered f s pa t h v :
  heap s !! pa = Some (Proxy t h) ->
  h_readonly h = variant_readonly v ->
  h_shallow h = variant_shallow v ->
  proxyMap_get (variant_registry v) s !! t = Some (VObj pa) ->
  wrap (S f) v (VObj pa) s = Some (VObj pa, s).
Proof.
  intros H Hro Hsh Hreg. unfold variant_registry in Hreg.
  rewrite <- Hro, <- Hsh in Hreg.
  destruct v; unfold wrap;
    [| apply (createReactiveObject_proxy f s pa t h _ _ _ _ H Hreg);
       by rewrite Hro ..].
  unfold reactive.
  rewrite (bind_Some _ _ _ _ _ (isReadonly_proxy f s pa t h H)).
  rewrite Hro. simpl variant_readonly. cbv iota.
  apply (createReactiveObject_proxy f s pa t h _ _ _ _ H Hreg). done.
Qed.

Lemma registry_of_inj ro sh ro' sh' :
  registry_of ro sh = registry_of ro' sh' -> ro = ro' /\ sh = sh'.
Proof. by destruct ro, sh, ro', sh'. Qed.

(** For an ordinary object [x] and a variant [v], [wrap] returns some
    [y]; wrapping [y] at [v] again returns [y] itself, and so does a
    second request for [(x, v)].  Neither repetition changes the
    state. *)
Lemma wrap_twice (f : nat) (s : state) (v : variant) (x : addr)
    (o : object) :
  registries_ok s ->
  heap s !! x = Some (Plain o) ->
  exists y s1,
    wrap (S f) v (VObj x) s = Some (y, s1)
    /\ wrap (S f) v y s1 = Some (y, s1)
    /\ wrap (S f) v (VObj x) s1 = Some (y, s1).
Proof.
  intros Hok Hx. pose proof (wrap_plain f s x o v Hx) as Hw.
  unfold wrap_result in Hw.
  destruct (bool_decide (v = MutableDeep)
            && truthy (ordinary_get o ReactiveFlags.IS_READONLY)) eqn:E1.
  { exists (VObj x), s. done. }
  unfold factory_result in Hw.
  destruct (truthy (ordinary_get o ReactiveFlags.RAW)
            && negb (variant_readonly v
                     && truthy (ordinary_get o ReactiveFlags.IS_REACTIVE)))
    eqn:E2.
  { exists (VObj x), s. done. }
  destruct (proxyMap_get (variant_registry v) s !! x) as [p|] eqn:E3;
    simpl in Hw.
  - (* the registry already has an entry *)
    destruct (entry_ok_inv _ _ _ _ (Hok _ _ _ E3)) as (pa & h & -> & Hp & Hr).
    simpl in Hw. exists (VObj pa), s. split; [done|]. split; [|done].
    apply registry_of_inj in Hr as [Hro Hsh].
    by apply (wrap_registered f s pa x h v).
  - destruct (classify o) eqn:E4.
    + exists (VObj x), s. done.
    + eexists _, _. split; [exact Hw|].
      match goal with |- context [proxyMap_set ?r ?a ?p (set_heap ?h s)] =>
        set (s1 := proxyMap_set r a p (set_heap h s)) end.
      assert (Hp : heap s1 !! length (heap s)
                   = Some (Proxy x (variant_base v))).
      { unfold s1. rewrite heap_proxyMap_set. simpl.
        by rewrite lookup_app_r, Nat.sub_diag by lia. }
      assert (Hreg : proxyMap_get (variant_registry v) s1 !! x
                     = Some (VObj (length (heap s)))).
      { unfold s1. apply proxyMap_get_set. }
      split.
      * apply (wrap_registered f s1 _ x (variant_base v) v Hp); done.
      * assert (Hx1 : heap s1 !! x = Some (Plain o)).
        { unfold s1. rewrite heap_proxyMap_set. simpl.
          by apply lookup_app_l_Some. }
        rewrite (wrap_plain f s1 x o v Hx1). unfold wrap_result.
        rewrite E1. unfold factory_result. rewrite E2, Hreg. done.
    + eexists _, _. split; [exact Hw|].
      match goal with |- context [proxyMap_set ?r ?a ?p (set_heap ?h s)] =>
        set (s1 := proxyMap_set r a p (set_heap h s)) end.
      assert (Hp : heap s1 !! length (heap s)
                   = Some (Proxy x (variant_collection v))).
      { unfold s1. rewrite heap_proxyMap_set. simpl.
        by rewrite lookup_app_r, Nat.sub_diag by lia. }
      assert (Hreg : proxyMap_get (variant_registry v) s1 !! x
                     = Some (VObj (length (heap s)))).
      { unfold s1. apply proxyMap_get_set. }
      split.
      * apply (wrap_registered f s1 _ x (variant_collection v) v Hp); done.
      * assert (Hx1 : heap s1 !! x = Some (Plain o)).
        { unfold s1. rewrite heap_proxyMap_set. simpl.
          by apply lookup_app_l_Some. }
        rewrite (wrap_plain f s1 x o v Hx1). unfold wrap_result.
        rewrite E1. unfold factory_result. rewrite E2, Hreg. done.
Qed.

(** ** Frame facts for allocation and registration *)

Lemma proxyMap_get_set_ne r r' a a' p s :
  r <> r' \/ a <> a' ->
  proxyMap_get r' (proxyMap_set r a p s) !! a' = proxyMap_get r' s !! a'.
Proof.
  intros H. destruct r, r'; unfold proxyMap_get; simpl; try done;
    (destruct (decide (a = a')) as [->|Hne];
     [destruct H; done | by rewrite lookup_insert_ne]).
Qed.

Lemma proxyMap_get_add_track r e s :
  proxyMap_get r (add_track e s) = proxyMap_get r s.
Proof. by destruct r. Qed.

Lemma entry_ok_mono s s' r t p :
  (forall a c, heap s !! a = Some c -> heap s' !! a = Some c) ->
  entry_ok s r t p = true -> entry_ok s' r t p = true.
Proof.
  intros Hh H. destruct (entry_ok_inv _ _ _ _ H) as (pa & h & -> & Hp & Hr).
  unfold entry_ok. rewrite (Hh _ _ Hp).
  by rewrite !bool_decide_eq_true_2.
Qed.

(** Registering a freshly allocated proxy keeps the registries sound. *)
Lemma registries_ok_alloc s r a h :
  registries_ok s ->
  registry_of (h_readonly h) (h_shallow h) = r ->
  registries_ok
    (proxyMap_set r a (VObj (length (heap s)))
       (set_heap (heap s ++ [Proxy a h]) s)).
Proof.
  intros Hok Hr r' t p Hl.
  destruct (decide (r = r' /\ a = t)) as [[<- <-]|Hne].
  - rewrite proxyMap_get_set in Hl. injection Hl as <-.
    unfold entry_ok. rewrite heap_proxyMap_set. simpl.
    rewrite lookup_app_r, Nat.sub_diag by lia. simpl.
    by rewrite !bool_decide_eq_true_2.
  - rewrite proxyMap_get_set_ne in Hl.
    2: { destruct (decide (r = r')); [right|left]; naive_solver. }
    rewrite proxyMap_get_set_heap in Hl.
    eapply entry_ok_mono; [|by apply Hok].
    intros a' c Ha. rewrite heap_proxyMap_set. simpl.
    by apply lookup_app_l_Some.
Qed.

Lemma registries_ok_add_track s e :
  registries_ok s -> registries_ok (add_track e s).
Proof.
  intros Hok r t p Hl. rewrite proxyMap_get_add_track in Hl.
  eapply entry_ok_mono; [|by apply Hok]. done.
Qed.

(** What a successful wrap of an unflagged, wrappable ordinary object
    leaves behind. *)
Lemma wrap_plain_facts f s v x o :
  registries_ok s ->
  heap s !! x = Some (Plain o) ->
  classify o <> INVALID ->
  truthy (ordinary_get o ReactiveFlags.RAW) = false ->
  truthy (ordinary_get o ReactiveFlags.IS_READONLY) = false ->
  exists p h s1,
    wrap (S f) v (VObj x) s = Some (VObj p, s1)
    /\ heap s1 !! p = Some (Proxy x h)
    /\ h_readonly h = variant_readonly v
    /\ h_shallow h = variant_shallow v
    /\ proxyMap_get (variant_registry v) s1 !! x = Some (VObj p)
    /\ heap s1 !! x = Some (Plain o)
    /\ registries_ok s1.
Proof.
  intros Hok Hx Hc Hraw Hro. rewrite (wrap_plain f s x o v Hx).
  unfold wrap_result, factory_result. rewrite Hro, Hraw, andb_false_r. simpl.
  destruct (proxyMap_get (variant_registry v) s !! x) as [e|] eqn:E; simpl.
  - destruct (entry_ok_inv _ _ _ _ (Hok _ _ _ E)) as (pa & h & -> & Hp & Hr).
    apply registry_of_inj in Hr as [? ?]. simpl.
    exists pa, h, s. done.
  - destruct (classify o) eqn:Ec; [done| |].
    + eexists _, (variant_base v), _. split; [done|].
      rewrite !heap_proxyMap_set. simpl.
      rewrite lookup_app_r, Nat.sub_diag by lia.
      repeat split; try done.
      * apply proxyMap_get_set.
      * by apply lookup_app_l_Some.
      * by apply registries_ok_alloc.
    + eexists _, (variant_collection v), _. split; [done|].
      rewrite !heap_proxyMap_set. simpl.
      rewrite lookup_app_r, Nat.sub_diag by lia.
      repeat split; try done.
      * apply proxyMap_get_set.
      * by apply lookup_app_l_Some.
      * by apply registries_ok_alloc.
Qed.

Lemma bind_gets {A B} (g : state -> A) (k : A -> M B) s :
  bind (gets g) k s = k (g s) s.
Proof. reflexivity. Qed.

Lemma bind_modify {B} (g : state -> state) (k : unit -> M B) s :
  bind (modify g) k s = k tt (g s).
Proof. reflexivity. Qed.

Lemma bind_ret {A B} (a : A) (k : A -> M B) s : bind (ret a) k s = k a s.
Proof. reflexivity. Qed.

Lemma gets_run {A} (g : state -> A) s : gets g s = Some (g s, s).
Proof. reflexivity. Qed.

Lemma modify_run (g : state -> state) s : modify g s = Some (tt, g s).
Proof. reflexivity. Qed.

Lemma ret_run {A} (a : A) s : ret a s = Some (a, s).
Proof. reflexivity. Qed.

(** Unfold the monad's plumbing, and nothing else. *)
Ltac mstep :=
  repeat (progress
            (cbn [bind ret gets modify when fail andb orb negb fst snd
                  truthy isObject from_option id
                  isSymbol ReactiveFlags.SKIP ReactiveFlags.RAW
                  ReactiveFlags.IS_REACTIVE ReactiveFlags.IS_READONLY
                  ReactiveFlags.IS_SHALLOW])
          || rewrite bind_gets || rewrite bind_modify || rewrite bind_ret
          || rewrite gets_run || rewrite modify_run || rewrite ret_run).

(** Replace a computation whose outcome is known, at the head of a
    bind. *)
Ltac mrw E := rewrite (bind_Some _ _ _ _ _ E); mstep.

(** ** Reads through a mutable proxy of an ordinary object *)

Lemma truthy_false_not_object v : truthy v = false -> isObject v = false.
Proof. by destruct v. Qed.

Lemma isRef_falsy get v s : truthy v = false -> isRef get v s = Some (false, s).
Proof. intros H. unfold isRef. by rewrite H. Qed.

Lemma underlying_proxy_plain h pa x hd o :
  h !! pa = Some (Proxy x hd) -> h !! x = Some (Plain o) ->
  underlying (length h) h pa = Some (x, o).
Proof.
  intros Hp Hx.
  pose proof (lookup_lt_Some _ _ _ Hp). pose proof (lookup_lt_Some _ _ _ Hx).
  assert (pa <> x) by (intros ->; congruence).
  destruct (length h) as [|[|n]] eqn:E; [lia|lia|].
  unfold underlying. rewrite Hp. fold underlying.
  unfold underlying. by rewrite Hx.
Qed.

Lemma get_SKIP_through_proxy f s p x hd o r :
  heap s !! p = Some (Proxy x hd) ->
  h_readonly hd = false -> h_shallow hd = false ->
  heap s !! x = Some (Plain o) ->
  truthy (ordinary_get o ReactiveFlags.SKIP) = false ->
  get_prop (S (S f)) (VObj p) ReactiveFlags.SKIP r s
    = Some (ordinary_get o ReactiveFlags.SKIP,
            after_read hd x ReactiveFlags.SKIP s).
Proof.
  intros Hp Hro Hsh Hx Hskip.
  rewrite get_prop_S. unfold get_body. mstep. rewrite Hp. unfold after_read.
  destruct (h_collection hd).
  - unfold collectionGetter. repeat (case_decide; [discriminate|]). mstep.
    rewrite bool_decide_eq_false_2 by discriminate. mstep.
    apply (get_plain f s x o _ _ Hx).
  - unfold createGetter. repeat (case_decide; [discriminate|]). mstep.
    rewrite bool_decide_eq_false_2 by discriminate. mstep.
    replace (if negb (h_readonly hd) && isArray s (VObj x)
             then arrayInstrumentations ReactiveFlags.SKIP else None)
      with (@None arr_method) by (by destruct (_ && _)).
    mstep. mrw (get_plain f s x o ReactiveFlags.SKIP r Hx).
    change (isNonTrackableKeys ReactiveFlags.SKIP) with false.
    rewrite Hro, Hsh. unfold track, convert_read. mstep.
    mrw (isRef_falsy (get_prop (S f)) _
           (add_track (TrackEv (VObj x) GET ReactiveFlags.SKIP) s) Hskip).
    by rewrite (truthy_false_not_object _ Hskip).
Qed.

Lemma heap_after_read hd x k s : heap (after_read hd x k s) = heap s.
Proof. unfold after_read. by destruct (h_collection hd). Qed.

Lemma proxyMap_get_after_read r hd x k s :
  proxyMap_get r (after_read hd x k s) = proxyMap_get r s.
Proof.
  unfold after_read. destruct (h_collection hd); [done|].
  apply proxyMap_get_add_track.
Qed.

Lemma classify_valid o :
  classify o <> INVALID ->
  truthy (ordinary_get o ReactiveFlags.SKIP) = false
  /\ extensible o = true
  /\ classify o = targetTypeMap (rawType o).
Proof.
  unfold classify. destruct (truthy _); [done|].
  by destruct (extensible o).
Qed.

Lemma getTargetType_through_proxy f s p x hd o :
  heap s !! p = Some (Proxy x hd) ->
  h_readonly hd = false -> h_shallow hd = false ->
  heap s !! x = Some (Plain o) ->
  classify o <> INVALID ->
  getTargetType (get_prop (S (S f))) (VObj p) s
    = Some (classify o, after_read hd x ReactiveFlags.SKIP s).
Proof.
  intros Hp Hro Hsh Hx Hc.
  destruct (classify_valid o Hc) as (Hskip & Hext & ->).
  unfold getTargetType, read.
  mrw (get_SKIP_through_proxy f s p x hd o (VObj p) Hp Hro Hsh Hx Hskip).
  rewrite Hskip. mstep.
  unfold isExtensible, toRawType, underlying_of.
  rewrite heap_after_read.
  rewrite (underlying_proxy_plain _ _ _ _ _ Hp Hx).
  rewrite Hext. mstep. rewrite heap_after_read.
  by rewrite (underlying_proxy_plain _ _ _ _ _ Hp Hx).
Qed.

(** [readonly] over the mutable proxy of a wrappable ordinary object
    yields the registered readonly proxy of that proxy. *)
Lemma readonly_over_mutable f s p x hd o :
  registries_ok s ->
  heap s !! p = Some (Proxy x hd) ->
  h_readonly hd = false -> h_shallow hd = false ->
  proxyMap_get RegReactive s !! x = Some (VObj p) ->
  heap s !! x = Some (Plain o) ->
  classify o <> INVALID ->
  exists y hy s2,
    readonly (get_prop (S (S f))) (VObj p) s = Some (VObj y, s2)
    /\ heap s2 !! y = Some (Proxy p hy)
    /\ h_readonly hy = true /\ h_shallow hy = false
    /\ proxyMap_get RegReadonly s2 !! p = Some (VObj y)
    /\ heap s2 !! p = Some (Proxy x hd)
    /\ proxyMap_get RegReactive s2 !! x = Some (VObj p)
    /\ heap s2 !! x = Some (Plain o).
Proof.
  intros Hok Hp Hro Hsh Hreg Hx Hc.
  assert (Hreg' : proxyMap_get (registry_of (h_readonly hd) (h_shallow hd)) s
                    !! x = Some (VObj p)) by (by rewrite Hro, Hsh).
  unfold readonly, createReactiveObject, read.
  mrw (get_proxy_RAW (S f) s p x hd Hp Hreg'). simpl truthy. cbv iota.
  destruct (get_proxy_flags (S f) s p x hd (VObj p) Hp) as (E & _ & _).
  mrw (bind_Some _ (fun r => ret (negb (truthy r))) _ _ _ E).
  rewrite Hro. simpl truthy. mstep.
  destruct (proxyMap_get RegReadonly s !! p) as [e|] eqn:E3.
  - destruct (entry_ok_inv _ _ _ _ (Hok _ _ _ E3)) as (y & hy & -> & Hy & Hr).
    apply (registry_of_inj _ _ true false) in Hr as [? ?].
    mstep. exists y, hy, s. done.
  - mstep.
    mrw (getTargetType_through_proxy f s p x hd o Hp Hro Hsh Hx Hc).
    set (s' := after_read hd x ReactiveFlags.SKIP s).
    assert (Hh : heap s' = heap s) by apply heap_after_read.
    destruct (classify o) eqn:Ec; [done| |]; unfold new_Proxy; mstep;
      eexists _, _, _; (split; [reflexivity|]);
      rewrite !heap_proxyMap_set; simpl heap; rewrite Hh;
      rewrite lookup_app_r, Nat.sub_diag by lia;
      (split; [reflexivity|]); (split; [reflexivity|]);
      (split; [reflexivity|]);
      (split; [apply proxyMap_get_set|]);
      (split; [by apply lookup_app_l_Some|]);
      (split; [|by apply lookup_app_l_Some]);
      rewrite proxyMap_get_set_ne by (by left);
      rewrite proxyMap_get_set_heap; unfold s';
      by rewrite proxyMap_get_after_read.
Qed.

(** C2.  Readonly absorption: for a wrappable ordinary object [x]
    without reserved flags, the mutable factory yields a wrapper [p];
    the readonly factory applied to [p] yields a readonly wrapper [y]
    distinct from [p] and from [x], which unwraps to [x]; and the
    mutable factory applied to [y] returns [y] unchanged. *)
Theorem readonly_absorption (f : nat) (s : state) (x : addr) (o : object) :
  registries_ok s ->
  heap s !! x = Some (Plain o) ->
  classify o <> INVALID ->
  truthy (ordinary_get o ReactiveFlags.RAW) = false ->
  truthy (ordinary_get o ReactiveFlags.IS_READONLY) = false ->
  exists p y s1 s2,
    wrap (S (S (S f))) MutableDeep (VObj x) s = Some (VObj p, s1)
    /\ wrap (S (S (S f))) ReadonlyDeep (VObj p) s1 = Some (VObj y, s2)
    /\ y <> p /\ y <> x /\ p <> x
    /\ (exists hy, heap s2 !! y = Some (Proxy p hy) /\ h_readonly hy = true)
    /\ unwrapToRaw (S (S (S f))) (VObj y) s2 = Some (VObj x, s2)
    /\ wrap (S (S (S f))) MutableDeep (VObj y) s2 = Some (VObj y, s2).
Proof.
  intros Hok Hx Hc Hraw Hro.
  destruct (wrap_plain_facts (S (S f)) s MutableDeep x o Hok Hx Hc Hraw Hro)
    as (p & hd & s1 & Hw1 & Hp & Hdro & Hdsh & Hreg & Hx1 & Hok1).
  destruct (readonly_over_mutable (S f) s1 p x hd o Hok1 Hp Hdro Hdsh Hreg
              Hx1 Hc)
    as (y & hy & s2 & Hw2 & Hy & Hyro & Hysh & Hyreg & Hp2 & Hreg2 & Hx2).
  exists p, y, s1, s2.
  split; [exact Hw1|]. split; [exact Hw2|].
  split; [intros ->; congruence|].
  split; [intros ->; congruence|].
  split; [intros ->; congruence|].
  split; [by exists hy|].
  split.
  - unfold unwrapToRaw. cbn [toRaw]. mstep. unfold read.
    assert (Hyreg' : proxyMap_get (registry_of (h_readonly hy) (h_shallow hy))
                       s2 !! p = Some (VObj y)) by (by rewrite Hyro, Hysh).
    mrw (get_proxy_RAW (S (S f)) s2 y p hy Hy Hyreg').
    assert (Hreg' : proxyMap_get (registry_of (h_readonly hd) (h_shallow hd))
                      s2 !! x = Some (VObj p)) by (by rewrite Hdro, Hdsh).
    mrw (get_proxy_RAW (S (S f)) s2 p x hd Hp2 Hreg').
    mrw (get_plain (S (S f)) s2 x o ReactiveFlags.RAW (VObj x) Hx2).
    by rewrite Hraw.
  - unfold wrap, reactive.
    mrw (isReadonly_proxy (S (S f)) s2 y p hy Hy). by rewrite Hyro.
Qed.

Lemma readonly_absorption_witness :
  exists p y s1 s2,
    wrap 3 MutableDeep (VObj 0) fresh_record_state = Some (VObj p, s1)
    /\ wrap 3 ReadonlyDeep (VObj p) s1 = Some (VObj y, s2)
    /\ y <> p /\ y <> 0 /\ p <> 0
    /\ (exists hy, heap s2 !! y = Some (Proxy p hy) /\ h_readonly hy = true)
    /\ unwrapToRaw 3 (VObj y) s2 = Some (VObj 0, s2)
    /\ wrap 3 MutableDeep (VObj y) s2 = Some (VObj y, s2).
Proof.
  apply (readonly_absorption 0 fresh_record_state 0
           (Object "Object" true [(KStr "a", VNum (Num 1))])).
  - apply registries_okb_ok. vm_compute. reflexivity.
  - reflexivity.
  - vm_compute. discriminate.
  - reflexivity.
  - reflexivity.
Defined.

(** ** Own properties, heap cells and the classifier *)

Lemma targetTypeMap_INVALID rt :
  targetTypeMap rt = INVALID <-> rt ∉ wrappable_kinds.
Proof.
  unfold targetTypeMap, wrappable_kinds.
  rewrite !elem_of_cons, elem_of_nil.
  repeat match goal with
         | |- context [String.eqb rt ?x] =>
             destruct (String.eqb_spec rt x) as [->|?];
             [split; [discriminate|intros H; exfalso; apply H; tauto]|]
         end.
  split; [tauto|done].
Qed.

Lemma own_lookup_update ps k v : own_lookup (own_update ps k v) k = Some v.
Proof.
  induction ps as [|[k' v'] ps IH]; simpl.
  - by rewrite decide_True.
  - destruct (decide (k' = k)) as [->|Hne]; simpl.
    + by rewrite decide_True.
    + by rewrite decide_False.
Qed.

Lemma own_lookup_update_ne ps k k' v :
  k <> k' -> own_lookup (own_update ps k v) k' = own_lookup ps k'.
Proof.
  intros Hne. induction ps as [|[k0 v0] ps IH]; simpl.
  - by rewrite decide_False.
  - destruct (decide (k0 = k)) as [->|Hne0]; simpl.
    + by rewrite !decide_False.
    + destruct (decide (k0 = k')); [done|apply IH].
Qed.

Lemma heap_update_cell a c s : heap (update_cell a c s) = <[a:=c]> (heap s).
Proof. done. Qed.

Lemma proxyMap_get_update_cell r a c s :
  proxyMap_get r (update_cell a c s) = proxyMap_get r s.
Proof. by destruct r. Qed.

(** ** Frame conditions

    [preserves R m]: every run of [m] that returns relates the state
    before to the state after. *)

Section Preserves.
Context (R : relation state) `{!PreOrder R}.

Lemma preserves_ret {A} (a : A) : preserves R (ret a).
Proof. intros s a' s' [= _ <-]. reflexivity. Qed.

Lemma preserves_fail {A} : preserves R (@fail A).
Proof. intros s a s' [=]. Qed.

Lemma preserves_gets {A} (g : state -> A) : preserves R (gets g).
Proof. intros s a' s' [= _ <-]. reflexivity. Qed.

Lemma preserves_modify (g : state -> state) :
  (forall s, R s (g s)) -> preserves R (modify g).
Proof. intros H s a' s' E. inversion E; subst. apply H. Qed.

Lemma preserves_bind {A B} (m : M A) (k : A -> M B) :
  preserves R m -> (forall a, preserves R (k a)) -> preserves R (bind m k).
Proof.
  intros Hm Hk s b s'. unfold bind.
  destruct (m s) as [[a s1]|] eqn:E; [|done].
  intros H. etrans; [eapply Hm, E|eapply Hk, H].
Qed.

Lemma preserves_when (b : bool) (m : M unit) :
  preserves R m -> preserves R (when b m).
Proof. destruct b; [done|]. intros _. apply preserves_ret. Qed.

Lemma preserves_forM {A} (l : list A) (k : A -> M unit) :
  (forall a, preserves R (k a)) -> preserves R (forM l k).
Proof.
  intros Hk. induction l as [|a l IH]; simpl.
  - apply preserves_ret.
  - apply preserves_bind; [apply Hk|by intros _].
Qed.

Lemma preserves_mapM {A B} (k : A -> M B) (l : list A) :
  (forall a, preserves R (k a)) -> preserves R (mapM k l).
Proof.
  intros Hk. induction l as [|a l IH]; simpl.
  - apply preserves_ret.
  - apply preserves_bind; [apply Hk|intros b].
    apply preserves_bind; [apply IH|intros bs]. apply preserves_ret.
Qed.
End Preserves.

Lemma preserves_weaken {A} (R R' : relation state) (m : M A) :
  (forall s s', R s s' -> R' s s') -> preserves R m -> preserves R' m.
Proof. intros H Hm s a s' E. eapply H, Hm, E. Qed.

(** Break a computation down to the calls it makes. *)
Ltac pres_step :=
  first
    [ apply preserves_ret; solve [typeclasses eauto]
    | apply preserves_fail
    | apply preserves_gets; solve [typeclasses eauto]
    | apply preserves_bind; [typeclasses eauto| |intros ?]
    | apply preserves_when; [typeclasses eauto|]
    | apply preserves_forM; [typeclasses eauto|intros ?]
    | apply preserves_mapM; [typeclasses eauto|intros ?]
    | match goal with
      | |- preserves _ (if ?b then _ else _) => destruct b
      | |- preserves _ (match ?x with _ => _ end) => destruct x
      | |- preserves _ (let (_, _) := ?x in _) => destruct x
      end ].

Ltac pres := repeat pres_step.

#[global] Instance get_frame_preorder : PreOrder get_frame.
Proof.
  split.
  - intros s. unfold get_frame. done.
  - intros s1 s2 s3 (T1 & S1 & K1 & D1 & H1) (T2 & S2 & K2 & D2 & H2).
    unfold get_frame. rewrite T2, S2, K2. repeat split; try done.
    + intros Hs. rewrite D2 by congruence. auto.
    + by etrans.
Qed.

Lemma get_frame_track e s : get_frame s (add_track e s).
Proof.
  unfold get_frame, add_track. simpl. repeat split; try done.
  intros ->. done.
Qed.

Lemma get_frame_warning w s : get_frame s (add_warning w s).
Proof. unfold get_frame. done. Qed.

Lemma get_frame_alloc c s : get_frame s (set_heap (heap s ++ [c]) s).
Proof.
  unfold get_frame. simpl. repeat split; try done. by apply prefix_app_r.
Qed.

Lemma get_frame_proxyMap_set r a p s : get_frame s (proxyMap_set r a p s).
Proof. unfold get_frame. by destruct r. Qed.

Lemma preserves_get_modify (g : state -> state) :
  (forall s, get_frame s (g s)) -> preserves get_frame (modify g).
Proof. apply preserves_modify. Qed.

Create HintDb frame.
#[global] Hint Resolve get_frame_track get_frame_warning get_frame_alloc
  get_frame_proxyMap_set : frame.
#[global] Hint Extern 1 (preserves get_frame (modify _)) =>
  apply preserves_get_modify; intros ? : frame.
#[global] Hint Extern 1 (preserves get_frame (track _ _ _)) =>
  apply preserves_get_modify; intros ? : frame.
#[global] Hint Extern 1 (preserves get_frame (warn _)) =>
  apply preserves_get_modify; intros ? : frame.

Section GetFrame.
Variable get : getter.
Hypothesis Hget : forall o k r, preserves get_frame (get o k r).

Lemma preserves_read o k : preserves get_frame (read get o k).
Proof. apply Hget. Qed.
#[local] Hint Resolve preserves_read : frame.

Lemma preserves_isRef v : preserves get_frame (isRef get v).
Proof. unfold isRef, read. pres; auto with frame. Qed.
#[local] Hint Resolve preserves_isRef : frame.

Lemma preserves_isReadonly v : preserves get_frame (isReadonly get v).
Proof. unfold isReadonly, read. pres; auto with frame. Qed.
#[local] Hint Resolve preserves_isReadonly : frame.

Lemma preserves_isShallow v : preserves get_frame (isShallow get v).
Proof. unfold isShallow, read. pres; auto with frame. Qed.
#[local] Hint Resolve preserves_isShallow : frame.

Lemma preserves_toRaw n v : preserves get_frame (toRaw get n v).
Proof.
  revert v. induction n as [|n IH]; intros v; simpl; unfold read; pres;
    auto with frame.
Qed.
#[local] Hint Resolve preserves_toRaw : frame.

Lemma preserves_getTargetType v : preserves get_frame (getTargetType get v).
Proof. unfold getTargetType, read. pres; auto with frame. Qed.
#[local] Hint Resolve preserves_getTargetType : frame.

Lemma preserves_createReactiveObject t ro bh ch r :
  preserves get_frame (createReactiveObject get t ro bh ch r).
Proof.
  unfold createReactiveObject, read, new_Proxy. pres; auto with frame.
Qed.
#[local] Hint Resolve preserves_createReactiveObject : frame.

Lemma preserves_reactive t : preserves get_frame (reactive get t).
Proof.
  unfold reactive. pres; auto with frame.
Qed.
#[local] Hint Resolve preserves_reactive : frame.

Lemma preserves_readonly t : preserves get_frame (readonly get t).
Proof. apply preserves_createReactiveObject. Qed.
#[local] Hint Resolve preserves_readonly : frame.

Lemma preserves_convert_read ro sh arr k res :
  preserves get_frame (convert_read get ro sh arr k res).
Proof. unfold convert_read, read. pres; auto with frame. Qed.
#[local] Hint Resolve preserves_convert_read : frame.

Lemma preserves_createGetter ro sh t k r :
  preserves get_frame (createGetter get ro sh t k r).
Proof.
  unfold createGetter, read. pres; auto with frame.
Qed.
#[local] Hint Resolve preserves_createGetter : frame.

Lemma preserves_collectionGetter ro sh t k r :
  preserves get_frame (collectionGetter get ro sh t k r).
Proof. unfold collectionGetter. pres; auto with frame. Qed.
#[local] Hint Resolve preserves_collectionGetter : frame.

Lemma preserves_get_body o k r : preserves get_frame (get_body get o k r).
Proof.
  unfold get_body. pres; auto with frame.
Qed.
#[local] Hint Resolve preserves_get_body : frame.

End GetFrame.

Lemma preserves_get_prop f o k r : preserves get_frame (get_prop f o k r).
Proof.
  revert o k r. induction f as [|f IH]; intros o k r.
  - apply preserves_fail.
  - rewrite get_prop_S. by apply preserves_get_body.
Qed.

(** ** Writes on ordinary objects *)

Lemma set_prop_S f :
  set_prop (S f) = set_body (S f) (get_prop (S f)) (set_prop f).
Proof. reflexivity. Qed.

Lemma isArray_plain s a o :
  heap s !! a = Some (Plain o) -> isArray s (VObj a) = isArray_obj o.
Proof. intros H. unfold isArray. by rewrite (underlying_of_plain _ _ _ H). Qed.

Lemma hasOwn_plain s a o k :
  heap s !! a = Some (Plain o) ->
  hasOwn s (VObj a) k = bool_decide (is_Some (own_lookup (props o) k)).
Proof. intros H. unfold hasOwn. by rewrite (underlying_of_plain _ _ _ H). Qed.

Lemma bind_inv {A B} (m : M A) (k : A -> M B) s b s' :
  bind m k s = Some (b, s') ->
  exists a s1, m s = Some (a, s1) /\ k a s1 = Some (b, s').
Proof.
  unfold bind. destruct (m s) as [[a s1]|]; [|done]. intros H. eauto.
Qed.

(** [[Set]] on an ordinary object notifies nobody. *)
Lemma set_plain_triggered f s a o k v r b s' :
  heap s !! a = Some (Plain o) ->
  set_prop f (VObj a) k v r s = Some (b, s') ->
  triggered s' = triggered s.
Proof.
  intros H. destruct f as [|f]; [done|].
  rewrite set_prop_S. unfold set_body. mstep. rewrite H.
  mstep. destruct (underlying_of s r) as [[b' obj]|]; [|by intros [= _ <-]].
  destruct (ordinary_define obj k v); mstep; by intros [= _ <-].
Qed.

Example write_unchanged :
  triggered (state_after (set_prop 2 (VObj 1) (KStr "a") (VNum (Num 1))
                            (VObj 1)) record_state) = [].
Proof. vm_compute. reflexivity. Qed.

Example write_changed :
  triggered (state_after (set_prop 2 (VObj 1) (KStr "a") (VNum (Num 2))
                            (VObj 1)) record_state)
  = [TriggerEv (VObj 0) SET (KStr "a") (VNum (Num 2)) (VNum (Num 1))].
Proof. vm_compute. reflexivity. Qed.

Example write_new_key :
  triggered (state_after (set_prop 2 (VObj 1) (KStr "b") (VNum (Num 3))
                            (VObj 1)) record_state)
  = [TriggerEv (VObj 0) ADD (KStr "b") (VNum (Num 3)) VUndefined].
Proof. vm_compute. reflexivity. Qed.

Example write_NaN_over_NaN :
  triggered (state_after
               (set_prop 2 (VObj 1) (KStr "a") (VNum NaN) (VObj 1) ;;
                set_prop 2 (VObj 1) (KStr "a") (VNum NaN) (VObj 1))
               record_state)
  = [TriggerEv (VObj 0) SET (KStr "a") (VNum NaN) (VNum (Num 1))].
Proof. vm_compute. reflexivity. Qed.

(** Appending at the index equal to the length is an [ADD]: the length
    is compared before the write moves it. *)
Example write_append_is_add :
  triggered (state_after (set_prop 2 (VObj 1) (KStr "1") (VNum (Num 7))
                            (VObj 1)) one_array_state)
  = [TriggerEv (VObj 0) ADD (KStr "1") (VNum (Num 7)) VUndefined].
Proof. vm_compute. reflexivity. Qed.

(** ** Readonly rejection *)

Lemma del_prop_S f :
  del_prop (S f) = del_body (get_prop (S f)) (del_prop f).
Proof. reflexivity. Qed.

Lemma heap_warned msg s : heap (warned msg s) = heap s.
Proof. unfold warned. by destruct (DEV s). Qed.

Lemma readonly_deleteProperty_run t k s :
  readonly_deleteProperty t k s = Some (true, warned (delete_warning k) s).
Proof.
  unfold readonly_deleteProperty, warned, warn, delete_warning. mstep.
  by destruct (DEV s).
Qed.

Lemma triggered_warned msg s : triggered (warned msg s) = triggered s.
Proof. unfold warned. by destruct (DEV s). Qed.

(** C6 (as the code has it).  Readonly rejection: the [set] and
    [deleteProperty] traps of a proxy built with [readonlyHandlers] or
    [shallowReadonlyHandlers] leave every object as it is, for any key,
    and return [true]; they log their warning when the build constant
    [__DEV__] is set, and nothing otherwise.  The write is reported to
    the caller as a success.  So is the delete, unless the runtime
    refutes the trap's [true]: where the target still has the key as
    an own key and is not extensible, or the key is an array's
    [length], the delete throws. *)
Theorem readonly_rejection (f : nat) (s : state) (p t : addr) (h : handler)
    (k : key) (v r : value) :
  heap s !! p = Some (Proxy t h) ->
  h_readonly h = true ->
  h_collection h = false ->
  set_prop (S f) (VObj p) k v r s = Some (true, warned (set_warning k) s)
  /\ readonly_deleteProperty t k s = Some (true, warned (delete_warning k) s)
  /\ (delete_refuted s (VObj t) k = false ->
      del_prop (S f) (VObj p) k s = Some (true, warned (delete_warning k) s))
  /\ (delete_refuted s (VObj t) k = true ->
      del_prop (S f) (VObj p) k s = None)
  /\ heap (warned (set_warning k) s) = heap s
  /\ heap (warned (delete_warning k) s) = heap s
  /\ (DEV s = true ->
      warnings (warned (set_warning k) s)
        = (warnings s ++ [set_warning k])%list
      /\ warnings (warned (delete_warning k) s)
        = (warnings s ++ [delete_warning k])%list)
  /\ (DEV s = false ->
      warned (set_warning k) s = s /\ warned (delete_warning k) s = s).
Proof.
  intros Hp Hro Hc.
  assert (Htrap : readonly_deleteProperty t k s
                  = Some (true, warned (delete_warning k) s)).
  { unfold readonly_deleteProperty, warned, warn, delete_warning. mstep.
    by destruct (DEV s). }
  assert (Hsame : delete_refuted (warned (delete_warning k) s) (VObj t) k
                  = delete_refuted s (VObj t) k).
  { unfold warned. by destruct (DEV s). }
  assert (Hdel : del_prop (S f) (VObj p) k s
                 = if delete_refuted s (VObj t) k then None
                   else Some (true, warned (delete_warning k) s)).
  { rewrite del_prop_S. unfold del_body. mstep. rewrite Hp, Hc, Hro.
    mrw Htrap. rewrite Hsame. by destruct (delete_refuted s (VObj t) k). }
  split; [|split; [done|split; [|split]]].
  - rewrite set_prop_S. unfold set_body. mstep. rewrite Hp, Hc, Hro.
    unfold readonly_set, warned, warn, set_warning. mstep.
    by destruct (DEV s).
  - intros Hok. by rewrite Hdel, Hok.
  - intros Hbad. by rewrite Hdel, Hbad.
  - rewrite !heap_warned. unfold warned.
    split; [done|]. split; [done|]. split; intros ->; done.
Qed.

Lemma readonly_rejection_witness :
  let s := readonly_state in
  let k := KStr "a" in
  set_prop 1 (VObj 1) k (VNum (Num 2)) (VObj 1) s
    = Some (true, warned (set_warning k) s)
  /\ readonly_deleteProperty 0 k s = Some (true, warned (delete_warning k) s)
  /\ del_prop 1 (VObj 1) k s = Some (true, warned (delete_warning k) s)
  /\ del_prop 1 (VObj 1) (KStr "length") readonly_array_state = None
  /\ heap (warned (set_warning k) s) = heap s
  /\ heap (warned (delete_warning k) s) = heap s
  /\ (DEV s = true ->
      warnings (warned (set_warning k) s)
        = (warnings s ++ [set_warning k])%list
      /\ warnings (warned (delete_warning k) s)
        = (warnings s ++ [delete_warning k])%list)
  /\ (DEV s = false ->
      warned (set_warning k) s = s /\ warned (delete_warning k) s = s).
Proof.
  intros s k.
  destruct (readonly_rejection 0 s 1 0 readonlyHandlers k (VNum (Num 2))
              (VObj 1) eq_refl eq_refl eq_refl)
    as (Hset & Htrap & Hdel & _ & Hrest).
  destruct (readonly_rejection 0 readonly_array_state 1 0 readonlyHandlers
              (KStr "length") VUndefined VUndefined eq_refl eq_refl eq_refl)
    as (_ & _ & _ & Hthrow & _).
  split; [exact Hset|]. split; [exact Htrap|].
  split; [apply Hdel; reflexivity|].
  split; [apply Hthrow; reflexivity|]. exact Hrest.
Defined.

(** C6 as stated fails in a production build: the write is refused
    and reported as a success, and no warning is emitted.  And a
    delete the target cannot honour is not reported as a success:
    deleting the [length] of a readonly array throws. *)
Lemma readonly_rejection_counterexample :
  (exists s',
     set_prop 1 (VObj 1) (KStr "a") (VNum (Num 2)) (VObj 1)
       (production readonly_state) = Some (true, s')
     /\ warnings s' = warnings (production readonly_state)
     /\ exists s'',
          del_prop 1 (VObj 1) (KStr "a") (production readonly_state)
            = Some (true, s'')
          /\ warnings s'' = warnings (production readonly_state))
  /\ del_prop 1 (VObj 1) (KStr "length") readonly_array_state = None.
Proof.
  split; [|vm_compute; reflexivity].
  eexists. split; [vm_compute; reflexivity|]. split; [reflexivity|].
  eexists. split; [vm_compute; reflexivity|]. reflexivity.
Qed.

(** ** Writes over a boxed reference *)

Lemma read_raw f s v k :
  truthy v = true -> is_raw s v = true ->
  read (get_prop (S f)) v k s = Some (prop_of s v k, s).
Proof.
  unfold read, is_raw, prop_of. rewrite get_prop_S.
  destruct v as [| | | | | | |c]; try done.
  intros _. destruct (heap s !! c) as [[oc|]|] eqn:E; try done.
  intros _. unfold get_body. mstep. by rewrite E.
Qed.

Lemma isReadonly_raw f s v :
  is_raw s v = true ->
  isReadonly (get_prop (S f)) v s
    = Some (truthy v && truthy (prop_of s v ReactiveFlags.IS_READONLY), s).
Proof.
  intros H. unfold isReadonly. destruct (truthy v) eqn:T; [|done].
  by mrw (read_raw f s v ReactiveFlags.IS_READONLY T H).
Qed.

Lemma isShallow_raw f s v :
  is_raw s v = true ->
  isShallow (get_prop (S f)) v s
    = Some (truthy v && truthy (prop_of s v ReactiveFlags.IS_SHALLOW), s).
Proof.
  intros H. unfold isShallow. destruct (truthy v) eqn:T; [|done].
  by mrw (read_raw f s v ReactiveFlags.IS_SHALLOW T H).
Qed.

Lemma isRef_raw f s v :
  is_raw s v = true ->
  isRef (get_prop (S f)) v s
    = Some (truthy v
            && strict_eq (prop_of s v (KStr "__v_isRef")) (VBool true), s).
Proof.
  intros H. unfold isRef. destruct (truthy v) eqn:T; [|done].
  by mrw (read_raw f s v (KStr "__v_isRef") T H).
Qed.

Lemma toRaw_raw f n s v :
  is_raw s v = true ->
  truthy (prop_of s v ReactiveFlags.RAW) = false ->
  toRaw (get_prop (S f)) (S n) v s = Some (v, s).
Proof.
  intros H Hraw. cbn [toRaw]. destruct (truthy v) eqn:T.
  - mrw (read_raw f s v ReactiveFlags.RAW T H). by rewrite Hraw.
  - mstep. by rewrite T.
Qed.

Lemma ordinary_define_value o v o' :
  ordinary_define o (KStr "value") v = Some o' ->
  own_lookup (props o') (KStr "value") = Some v
  /\ rawType o' = rawType o /\ extensible o' = extensible o.
Proof.
  unfold ordinary_define.
  assert (isIntegerKey (KStr "value") = false) as -> by (by vm_compute).
  rewrite bool_decide_eq_false_2 by discriminate. rewrite !andb_false_r.
  destruct (own_lookup (props o) (KStr "value")).
  - intros [= <-]. simpl. rewrite own_lookup_update. done.
  - destruct (extensible o) eqn:E; [|done]. intros [= <-]. simpl.
    rewrite own_lookup_update. done.
Qed.

Lemma set_prop_proxy f s p t h k v r :
  heap s !! p = Some (Proxy t h) ->
  h_collection h = false -> h_readonly h = false ->
  set_prop (S f) (VObj p) k v r s
    = createSetter (S f) (get_prop (S f)) (set_prop f) (h_shallow h)
        t k v r s.
Proof.
  intros Hp Hc Hro. rewrite set_prop_S. unfold set_body at 1. mstep.
  by rewrite Hp, Hc, Hro.
Qed.

Lemma set_prop_plain f s b ob k v ob' :
  heap s !! b = Some (Plain ob) ->
  ordinary_define ob k v = Some ob' ->
  set_prop (S f) (VObj b) k v (VObj b) s
    = Some (true, update_cell b (Plain ob') s).
Proof.
  intros Hb Hd. rewrite set_prop_S. unfold set_body. mstep. rewrite Hb.
  mstep. rewrite (underlying_of_plain _ _ _ Hb). by rewrite Hd.
Qed.

(** C7.  Writes over a boxed reference, through the setter of a
    mutable proxy [p] over the ordinary object [o] at [t] whose key [k]
    holds [old].

    (1) Where [old] is readonly and a box and the incoming value is no
    box, the setter returns [false]; no existing object is changed and
    nobody is notified.

    (2) Otherwise, for a deep proxy over a non-array: where [old] is a
    box (not readonly) and the incoming value is a plain value that is
    no box, the value goes into the box's [value] slot and the setter
    returns [true]; the target still holds the same box under [k], and
    nobody is notified. *)
Theorem boxed_reference_write (f : nat) (s : state) (p t : addr)
    (h : handler) (o : object) (k : key) (old v r : value) :
  heap s !! p = Some (Proxy t h) ->
  h_collection h = false -> h_readonly h = false ->
  heap s !! t = Some (Plain o) ->
  ordinary_get o k = old ->
  (forall s1 s2 s3,
     isReadonly (get_prop (S (S f))) old s = Some (true, s1) ->
     isRef (get_prop (S (S f))) old s1 = Some (true, s2) ->
     isRef (get_prop (S (S f))) v s2 = Some (false, s3) ->
     set_prop (S (S f)) (VObj p) k v r s = Some (false, s3)
     /\ heap s `prefix_of` heap s3
     /\ triggered s3 = triggered s)
  /\ (forall b ob ob',
        h_shallow h = false ->
        isArray_obj o = false ->
        old = VObj b ->
        heap s !! b = Some (Plain ob) ->
        b <> t ->
        is_box s old = true ->
        truthy (ordinary_get ob ReactiveFlags.IS_READONLY) = false ->
        truthy (ordinary_get ob ReactiveFlags.RAW) = false ->
        plain_value s v = true ->
        ordinary_define ob (KStr "value") v = Some ob' ->
        set_prop (S (S f)) (VObj p) k v r s
          = Some (true, update_cell b (Plain ob') s)
        /\ own_lookup (props ob') (KStr "value") = Some v
        /\ heap (update_cell b (Plain ob') s) !! t = Some (Plain o)
        /\ triggered (update_cell b (Plain ob') s) = triggered s).
Proof.
  intros Hp Hc Hro Ht Hold.
  rewrite (set_prop_proxy _ _ _ _ _ _ _ _ Hp Hc Hro).
  unfold createSetter, read.
  rewrite (bind_Some _ _ _ _ _ (get_plain (S f) s t o k (VObj t) Ht)).
  rewrite Hold. split.
  - intros s1 s2 s3 H1 H2 H3. mrw H1. mrw H2.
    rewrite (bind_Some _ _ _ _ _ (bind_Some _ (fun r0 => ret (negb r0))
                                    _ _ _ H3)).
    mstep. split; [done|].
    pose proof (preserves_isReadonly _ (preserves_get_prop (S (S f)))
                  _ _ _ _ H1) as (T1 & _ & _ & _ & P1).
    pose proof (preserves_isRef _ (preserves_get_prop (S (S f)))
                  _ _ _ _ H2) as (T2 & _ & _ & _ & P2).
    pose proof (preserves_isRef _ (preserves_get_prop (S (S f)))
                  _ _ _ _ H3) as (T3 & _ & _ & _ & P3).
    split; [by do 2 (etrans; [eassumption|])|congruence].
  - intros b ob ob' Hsh Harr -> Hb Hbt Hbox Hnro Hnraw Hv Hd.
    assert (Hrawb : is_raw s (VObj b) = true) by (unfold is_raw; by rewrite Hb).
    unfold is_box in Hbox. rewrite Hrawb in Hbox. simpl in Hbox.
    rewrite Hb in Hbox.
    unfold plain_value in Hv.
    apply andb_true_iff in Hv as [Hv Hv5].
    apply andb_true_iff in Hv as [Hv Hv4].
    apply andb_true_iff in Hv as [Hv Hv3].
    apply andb_true_iff in Hv as [Hv1 Hv2].
    apply negb_true_iff in Hv2, Hv3, Hv4, Hv5.
    mrw (isReadonly_raw (S f) s (VObj b) Hrawb).
    unfold prop_of at 1. rewrite Hb, Hnro. mstep. rewrite Hsh. mstep.
    mrw (isShallow_raw (S f) s v Hv1). rewrite Hv4, andb_false_r. mstep.
    rewrite (bind_Some _ _ _ _ _ (bind_Some _ (fun ro => ret (negb ro))
                                    _ _ _ (isReadonly_raw (S f) s v Hv1))).
    rewrite Hv3, andb_false_r. mstep.
    assert (Hnraw' : truthy (prop_of s (VObj b) ReactiveFlags.RAW) = false)
      by (unfold prop_of; by rewrite Hb).
    assert (Hov :
      (let* o0 := toRaw (get_prop (S (S f))) (S (S f)) (VObj b) in
       let* v0 := toRaw (get_prop (S (S f))) (S (S f)) v in
       ret (o0, v0)) s = Some ((VObj b, v), s)).
    { mrw (toRaw_raw (S f) (S f) s (VObj b) Hrawb Hnraw').
      by mrw (toRaw_raw (S f) (S f) s v Hv1 Hv2). }
    mrw Hov.
    rewrite (isArray_plain _ _ _ Ht), Harr. mstep.
    mrw (isRef_raw (S f) s (VObj b) Hrawb).
    unfold prop_of at 1. rewrite Hb, Hbox. mstep.
    rewrite (bind_Some _ _ _ _ _ (bind_Some _ (fun r2 => ret (negb r2))
                                    _ _ _ (isRef_raw (S f) s v Hv1))).
    rewrite Hv5, andb_false_r. mstep.
    assert (Has : assign (set_prop (S f)) (VObj b) (KStr "value") v s
                  = Some (tt, update_cell b (Plain ob') s)).
    { unfold assign.
      by mrw (set_prop_plain f s b ob (KStr "value") v ob' Hb Hd). }
    mrw Has.
    split; [done|]. split; [by apply ordinary_define_value in Hd as [? _]|].
    split; [|done].
    rewrite heap_update_cell. by rewrite list_lookup_insert_ne.
Qed.

Lemma boxed_reference_write_witness :
  let s := boxed_state in
  let v := VNum (Num 5) in
  (set_prop 2 (VObj 3) (KStr "total") v (VObj 3) s = Some (false, s)
   /\ heap s `prefix_of` heap s
   /\ triggered s = triggered s)
  /\ (set_prop 2 (VObj 3) (KStr "count") v (VObj 3) s
      = Some (true, update_cell 0 (box_cell false v) s)
      /\ own_lookup
           [(KStr "__v_isRef", VBool true); (KStr "value", v)]
           (KStr "value") = Some v
      /\ heap (update_cell 0 (box_cell false v) s) !! 2
         = Some (plain_object
                   [(KStr "count", VObj 0); (KStr "total", VObj 1)])
      /\ triggered (update_cell 0 (box_cell false v) s) = triggered s).
Proof.
  intros s v. split.
  - apply (proj1 (boxed_reference_write 0 s 3 2 mutableHandlers
                    (Object "Object" true
                       [(KStr "count", VObj 0); (KStr "total", VObj 1)])
                    (KStr "total") (VObj 1) v (VObj 3)
                    eq_refl eq_refl eq_refl eq_refl eq_refl) s s s);
      vm_compute; reflexivity.
  - apply (proj2 (boxed_reference_write 0 s 3 2 mutableHandlers
                    (Object "Object" true
                       [(KStr "count", VObj 0); (KStr "total", VObj 1)])
                    (KStr "count") (VObj 0) v (VObj 3)
                    eq_refl eq_refl eq_refl eq_refl eq_refl)
             0
             (Object "Object" true
                [(KStr "__v_isRef", VBool true);
                 (KStr "value", VNum (Num 0))])
             (Object "Object" true
                [(KStr "__v_isRef", VBool true); (KStr "value", v)]));
      try reflexivity. lia.
Defined.

(** Box transparency: reading [w.count] gives the inner value, and
    after [w.count = 5] the same box holds 5. *)
Example box_read_unwraps :
  option_map fst (get_prop 3 (VObj 3) (KStr "count") (VObj 3) boxed_state)
  = Some (VNum (Num 0)).
Proof. vm_compute. reflexivity. Qed.

Example box_write_then_read :
  option_map fst
    ((set_prop 2 (VObj 3) (KStr "count") (VNum (Num 5)) (VObj 3) ;;
      get_prop 3 (VObj 0) (KStr "value") (VObj 0)) boxed_state)
  = Some (VNum (Num 5)).
Proof. vm_compute. reflexivity. Qed.

(** ** Read tracking *)

Lemma trackCalls_tracked ro sh s t o k r :
  trackCalls (tracked ro sh s t o k r)
  = (trackCalls s ++ own_track ro sh s t o k r)%list.
Proof.
  unfold tracked, own_track. destruct (read_trap_tracks _ _ _ _ _ _ _).
  - done.
  - by rewrite app_nil_r.
Qed.

Lemma builtin_is_symbol k : builtInSymbols_has k = true -> isSymbol k = true.
Proof. by destruct k as [|[]]. Qed.

Lemma nontrackable_is_string k :
  isNonTrackableKeys k = true -> isSymbol k = false.
Proof. by destruct k. Qed.

(** The getter over an ordinary target either returns before the
    tracking step and leaves the state alone, or goes on to convert
    what it read in the state [tracked]. *)
Lemma createGetter_plain f s ro sh t o k r :
  heap s !! t = Some (Plain o) ->
  (returns_early ro sh s t o k r = true ->
   exists v, createGetter (get_prop (S f)) ro sh t k r s = Some (v, s))
  /\ (returns_early ro sh s t o k r = false ->
      createGetter (get_prop (S f)) ro sh t k r s
      = convert_read (get_prop (S f)) ro sh (isArray_obj o) k
          (ordinary_get o k) (tracked ro sh s t o k r)).
Proof.
  intros Ht. unfold createGetter, returns_early, tracked, read_trap_tracks,
    returns_early, answers_RAW.
  destruct (decide (k = ReactiveFlags.IS_REACTIVE)) as [->|N1].
  { split; [eauto|done]. }
  destruct (decide (k = ReactiveFlags.IS_READONLY)) as [->|N2].
  { split; [eauto|done]. }
  destruct (decide (k = ReactiveFlags.IS_SHALLOW)) as [->|N3].
  { split; [eauto|done]. }
  rewrite (bool_decide_eq_false_2 (k ∈ _))
    by (rewrite !elem_of_cons, elem_of_nil; intros [?|[?|[?|[]]]]; done).
  mstep.
  destruct (bool_decide (k = ReactiveFlags.RAW)
            && strict_eq r _) eqn:ERAW.
  { split; [eauto|done]. }
  mstep. rewrite (isArray_plain _ _ _ Ht).
  destruct (negb ro && isArray_obj o) eqn:EA.
  - destruct (arrayInstrumentations k) as [m|] eqn:EI.
    + rewrite bool_decide_eq_true_2 by eauto. split; [eauto|done].
    + rewrite bool_decide_eq_false_2 by (intros [? ?]; done).
      mstep. mrw (get_plain f s t o k r Ht).
      destruct (builtInSymbols_has k) eqn:EB.
      { rewrite (builtin_is_symbol _ EB). split; [eauto|done]. }
      destruct (isNonTrackableKeys k) eqn:EN.
      { rewrite (nontrackable_is_string _ EN). split; [eauto|done]. }
      replace (if isSymbol k then false else false) with false
        by (by destruct (isSymbol k)).
      split; [done|intros _].
      destruct ro; [done|]. unfold track. by mstep.
  - mstep. mrw (get_plain f s t o k r Ht).
    destruct (builtInSymbols_has k) eqn:EB.
    { rewrite (builtin_is_symbol _ EB). split; [eauto|done]. }
    destruct (isNonTrackableKeys k) eqn:EN.
    { rewrite (nontrackable_is_string _ EN). split; [eauto|done]. }
    replace (if isSymbol k then false else false) with false
      by (by destruct (isSymbol k)).
    split; [done|intros _].
    destruct ro; [done|]. unfold track. by mstep.
Qed.

Lemma convert_read_shallow get ro arr k res s :
  convert_read get ro true arr k res s = Some (res, s).
Proof. done. Qed.

Lemma convert_read_primitive f ro sh arr k res s :
  isObject res = false ->
  convert_read (get_prop (S f)) ro sh arr k res s = Some (res, s).
Proof.
  intros H. unfold convert_read. destruct sh; [done|].
  assert (Hraw : is_raw s res = true) by (by destruct res).
  mrw (isRef_raw f s res Hraw).
  assert (prop_of s res (KStr "__v_isRef") = VUndefined) as ->
    by (by destruct res).
  rewrite andb_false_r. by rewrite H.
Qed.

(** C4 (as the code has it).  Read tracking, for the getter of a proxy
    over the ordinary object [o] at [t]: the getter calls
    [track(t, GET, k)] itself exactly when the handler is not readonly
    and the key is none of: a boolean reserved flag; [RAW] asked by the
    registered proxy; on an array, the name of an instrumented method;
    a built-in symbol; a non-trackable key.  The call is the single
    entry the getter adds to the log before it converts the value it
    read; a shallow getter, and any getter that read a non-object,
    adds nothing else.  A readonly getter never calls [track]. *)
Theorem read_tracking (f : nat) (s : state) (ro sh : bool) (t : addr)
    (o : object) (k : key) (r : value) :
  heap s !! t = Some (Plain o) ->
  (read_trap_tracks ro sh s t o k r = true <->
     ro = false
     /\ (k ∉ [ReactiveFlags.IS_REACTIVE; ReactiveFlags.IS_READONLY;
             ReactiveFlags.IS_SHALLOW])
     /\ answers_RAW ro sh s t k r = false
     /\ (isArray_obj o = true -> arrayInstrumentations k = None)
     /\ builtInSymbols_has k = false
     /\ isNonTrackableKeys k = false)
  /\ (forall result s',
        createGetter (get_prop (S f)) ro sh t k r s = Some (result, s') ->
        exists s1,
          trackCalls s1 = (trackCalls s ++ own_track ro sh s t o k r)%list
          /\ (s' = s1
              \/ convert_read (get_prop (S f)) ro sh (isArray_obj o) k
                   (ordinary_get o k) s1 = Some (result, s')))
  /\ (sh = true \/ isObject (ordinary_get o k) = false ->
      exists result s',
        createGetter (get_prop (S f)) ro sh t k r s = Some (result, s')
        /\ trackCalls s'
           = (trackCalls s ++ own_track ro sh s t o k r)%list)
  /\ (ro = true -> own_track ro sh s t o k r = []).
Proof.
  intros Ht.
  destruct (createGetter_plain f s ro sh t o k r Ht) as [Hearly Hlate].
  split; [|split; [|split]].
  - unfold read_trap_tracks, returns_early.
    rewrite andb_true_iff, !negb_true_iff, !orb_false_iff.
    rewrite bool_decide_eq_false, !andb_false_iff, negb_false_iff.
    rewrite bool_decide_eq_false.
    split.
    + intros (-> & (((? & ?) & HA) & ?) & ?). repeat split; try done.
      intros Harr. destruct HA as [[?|?]|HA]; try congruence.
      destruct (arrayInstrumentations k); [|done].
      exfalso. apply HA. eauto.
    + intros (-> & ? & ? & HA & ? & ?). repeat split; try done.
      destruct (isArray_obj o); [|by left; right].
      right. rewrite HA by done. by intros [? ?].
  - intros result s' Hrun.
    destruct (returns_early ro sh s t o k r) eqn:E.
    + destruct (Hearly eq_refl) as [v Hv]. rewrite Hv in Hrun.
      injection Hrun as <- <-. exists s. split; [|by left].
      unfold own_track, read_trap_tracks. rewrite E, andb_false_r.
      by rewrite app_nil_r.
    + rewrite (Hlate eq_refl) in Hrun. eexists. split; [|by right].
      apply trackCalls_tracked.
  - intros Hres. destruct (returns_early ro sh s t o k r) eqn:E.
    + destruct (Hearly eq_refl) as [v Hv]. exists v, s. split; [done|].
      unfold own_track, read_trap_tracks. rewrite E, andb_false_r.
      by rewrite app_nil_r.
    + rewrite (Hlate eq_refl). eexists _, _. split.
      * destruct Hres as [->|Hres];
          [apply convert_read_shallow|by apply convert_read_primitive].
      * apply trackCalls_tracked.
  - intros ->. done.
Qed.

Lemma read_tracking_witness :
  let s := record_state in
  let o := Object "Object" true [(KStr "a", VNum (Num 1))] in
  let k := KStr "a" in
  (read_trap_tracks false false s 0 o k (VObj 1) = true <->
     false = false
     /\ (k ∉ [ReactiveFlags.IS_REACTIVE; ReactiveFlags.IS_READONLY;
             ReactiveFlags.IS_SHALLOW])
     /\ answers_RAW false false s 0 k (VObj 1) = false
     /\ (isArray_obj o = true -> arrayInstrumentations k = None)
     /\ builtInSymbols_has k = false
     /\ isNonTrackableKeys k = false)
  /\ (forall result s',
        createGetter (get_prop 1) false false 0 k (VObj 1) s
          = Some (result, s') ->
        exists s1,
          trackCalls s1
            = (trackCalls s ++ own_track false false s 0 o k (VObj 1))%list
          /\ (s' = s1
              \/ convert_read (get_prop 1) false false (isArray_obj o) k
                   (ordinary_get o k) s1 = Some (result, s')))
  /\ (false = true \/ isObject (ordinary_get o k) = false ->
      exists result s',
        createGetter (get_prop 1) false false 0 k (VObj 1) s
          = Some (result, s')
        /\ trackCalls s'
           = (trackCalls s ++ own_track false false s 0 o k (VObj 1))%list)
  /\ (false = true -> own_track false false s 0 o k (VObj 1) = []).
Proof.
  apply (read_tracking 0 record_state false false 0).
  reflexivity.
Defined.

(** Reading [w.a] through the mutable proxy of [{a: 1}] logs exactly
    one [track] call; reading a reserved flag logs none; reading
    through the readonly proxy logs none. *)
Example read_tracks_once :
  trackCalls (state_after (get_prop 2 (VObj 1) (KStr "a") (VObj 1))
                record_state)
  = [TrackEv (VObj 0) GET (KStr "a")].
Proof. vm_compute. reflexivity. Qed.

Example read_flag_tracks_nothing :
  trackCalls (state_after
                (get_prop 2 (VObj 1) ReactiveFlags.IS_REACTIVE (VObj 1) ;;
                 get_prop 2 (VObj 1) ReactiveFlags.RAW (VObj 1))
                record_state) = [].
Proof. vm_compute. reflexivity. Qed.

Example readonly_read_tracks_nothing :
  trackCalls (state_after (get_prop 2 (VObj 1) (KStr "a") (VObj 1))
                readonly_state) = [].
Proof. vm_compute. reflexivity. Qed.

(** C4 as stated fails on an array: [push] is no reserved flag, no
    built-in symbol and no non-trackable key, the handler is not
    readonly, and yet the getter hands out the instrumented method
    without a [track] call. *)
Lemma read_tracking_counterexample :
  let s := one_array_state in
  let k := KStr "push" in
  heap s !! 1 = Some (Proxy 0 mutableHandlers)
  /\ (k ∉ [ReactiveFlags.IS_REACTIVE; ReactiveFlags.IS_READONLY;
          ReactiveFlags.IS_SHALLOW; ReactiveFlags.RAW])
  /\ builtInSymbols_has k = false
  /\ isNonTrackableKeys k = false
  /\ get_prop 2 (VObj 1) k (VObj 1) s
     = Some (VFun (FInstr (Mutator Push)), s)
  /\ trackCalls (state_after (get_prop 2 (VObj 1) k (VObj 1)) s)
     = trackCalls s.
Proof.
  repeat split; try (vm_compute; reflexivity).
  rewrite !elem_of_cons, elem_of_nil. intros [?|[?|[?|[?|[]]]]]; done.
Qed.

(** ** Read result conversion *)

Lemma heap_tracked ro sh s t o k r : heap (tracked ro sh s t o k r) = heap s.
Proof. unfold tracked. by destruct (read_trap_tracks _ _ _ _ _ _ _). Qed.

Lemma is_raw_tracked ro sh s t o k r v :
  is_raw (tracked ro sh s t o k r) v = is_raw s v.
Proof. unfold is_raw. by rewrite heap_tracked. Qed.

Lemma prop_of_tracked ro sh s t o k r v k' :
  prop_of (tracked ro sh s t o k r) v k' = prop_of s v k'.
Proof. unfold prop_of. by rewrite heap_tracked. Qed.

Lemma registries_ok_tracked ro sh s t o k r :
  registries_ok s -> registries_ok (tracked ro sh s t o k r).
Proof.
  unfold tracked. destruct (read_trap_tracks _ _ _ _ _ _ _); [|done].
  apply registries_ok_add_track.
Qed.

Lemma get_prop_proxy f s p t h k r :
  heap s !! p = Some (Proxy t h) -> h_collection h = false ->
  get_prop (S f) (VObj p) k r s
    = createGetter (get_prop f) (h_readonly h) (h_shallow h) t k r s.
Proof.
  intros Hp Hc. rewrite get_prop_S. unfold get_body. mstep.
  by rewrite Hp, Hc.
Qed.

(** C5.  Read result conversion, for a read of a key [k] that reaches
    the tracking step, through a proxy [p] over the ordinary object [o]
    at [t]; [res] is what [o] holds under [k].

    A shallow proxy returns [res] as it is.  A deep proxy returns the
    inner value of a box, except on an array with an integer key, where
    it returns the box; an object that is no box it hands to the
    factory ([readonly] for a readonly handler, [reactive] otherwise),
    which for a wrappable unflagged object yields its registered deep
    proxy of that mutability; anything else it returns as it is. *)
Theorem read_conversion (f : nat) (s : state) (p t : addr) (h : handler)
    (o : object) (k : key) (r : value) :
  registries_ok s ->
  heap s !! p = Some (Proxy t h) ->
  h_collection h = false ->
  heap s !! t = Some (Plain o) ->
  returns_early (h_readonly h) (h_shallow h) s t o k r = false ->
  let res := ordinary_get o k in
  let s1 := tracked (h_readonly h) (h_shallow h) s t o k r in
  let get := get_prop (S (S f)) (VObj p) k r s in
  (h_shallow h = true -> get = Some (res, s1))
  /\ (h_shallow h = false -> is_box s res = true ->
      get = Some (if isArray_obj o && isIntegerKey k then res
                  else prop_of s res (KStr "value"), s1))
  /\ (h_shallow h = false -> is_raw s res = true -> is_box s res = false ->
      isObject res = true ->
      get = wrap (S f) (nested_variant (h_readonly h)) res s1)
  /\ (h_shallow h = false -> isObject res = false -> get = Some (res, s1))
  /\ (forall c oc,
        h_shallow h = false -> res = VObj c ->
        heap s !! c = Some (Plain oc) ->
        is_box s res = false ->
        classify oc <> INVALID ->
        truthy (ordinary_get oc ReactiveFlags.RAW) = false ->
        truthy (ordinary_get oc ReactiveFlags.IS_READONLY) = false ->
        exists q hq s',
          get = Some (VObj q, s')
          /\ heap s' !! q = Some (Proxy c hq)
          /\ h_readonly hq = h_readonly h
          /\ h_shallow hq = false).
Proof.
  intros Hok Hp Hc Ht Hearly res s1 get.
  assert (Hget : get = convert_read (get_prop (S f)) (h_readonly h)
                         (h_shallow h) (isArray_obj o) k res s1).
  { unfold get. rewrite (get_prop_proxy _ _ _ _ _ _ _ Hp Hc).
    by apply (createGetter_plain f s _ _ t o k r Ht). }
  assert (Hwrap : h_shallow h = false -> is_raw s res = true ->
                  is_box s res = false -> isObject res = true ->
                  get = wrap (S f) (nested_variant (h_readonly h)) res s1).
  { intros Hsh Hraw Hbox Hobj. rewrite Hget. unfold convert_read.
    rewrite Hsh.
    assert (Hraw1 : is_raw s1 res = true)
      by (unfold s1; by rewrite is_raw_tracked).
    mrw (isRef_raw f s1 res Hraw1). unfold s1 at 1.
    rewrite prop_of_tracked.
    unfold is_box in Hbox. rewrite Hraw in Hbox. simpl in Hbox.
    rewrite Hbox, Hobj. by destruct (h_readonly h). }
  split; [|split; [|split; [|split]]].
  - intros Hsh. rewrite Hget, Hsh. done.
  - intros Hsh Hbox. rewrite Hget. unfold convert_read. rewrite Hsh.
    unfold is_box in Hbox.
    apply andb_true_iff in Hbox as [Hbox Href].
    apply andb_true_iff in Hbox as [Hraw Htr].
    assert (Hraw1 : is_raw s1 res = true)
      by (unfold s1; by rewrite is_raw_tracked).
    mrw (isRef_raw f s1 res Hraw1). unfold s1 at 1.
    rewrite prop_of_tracked, Htr, Href. mstep.
    destruct (isArray_obj o && isIntegerKey k); [done|].
    rewrite (read_raw f s1 res (KStr "value") Htr Hraw1).
    unfold s1 at 1. by rewrite prop_of_tracked.
  - exact Hwrap.
  - intros Hsh Hobj. rewrite Hget. by apply convert_read_primitive.
  - intros c oc Hsh Hres Hcc Hbox Hcl Hraw Hro.
    assert (Hisraw : is_raw s res = true)
      by (rewrite Hres; unfold is_raw; by rewrite Hcc).
    rewrite (Hwrap Hsh Hisraw Hbox) by (by rewrite Hres).
    rewrite Hres.
    assert (Hcc1 : heap s1 !! c = Some (Plain oc))
      by (unfold s1; by rewrite heap_tracked).
    destruct (wrap_plain_facts f s1 (nested_variant (h_readonly h)) c oc
                (registries_ok_tracked _ _ _ _ _ _ _ Hok) Hcc1 Hcl Hraw Hro)
      as (q & hq & s' & Hw & Hq & Hqro & Hqsh & _).
    exists q, hq, s'. split; [done|]. split; [done|].
    split; [by destruct (h_readonly h)|by destruct (h_readonly h)].
Qed.

Lemma read_conversion_witness :
  let s := conversion_state in
  let tr k := add_track (TrackEv (VObj 2) GET k) s in
  get_prop 2 (VObj 3) (KStr "count") (VObj 3) s
    = Some (VNum (Num 7), tr (KStr "count"))
  /\ get_prop 2 (VObj 3) (KStr "n") (VObj 3) s
     = Some (VNum (Num 5), tr (KStr "n"))
  /\ exists q hq s',
       get_prop 2 (VObj 3) (KStr "child") (VObj 3) s = Some (VObj q, s')
       /\ heap s' !! q = Some (Proxy 1 hq)
       /\ h_readonly hq = false /\ h_shallow hq = false.
Proof.
  intros s tr.
  assert (Hok : registries_ok s)
    by (apply registries_okb_ok; vm_compute; reflexivity).
  split; [|split].
  - apply (proj1 (proj2 (read_conversion 0 s 3 2 mutableHandlers
                           conversion_record (KStr "count") (VObj 3)
                           Hok eq_refl eq_refl eq_refl eq_refl)));
      reflexivity.
  - apply (proj1 (proj2 (proj2 (proj2
             (read_conversion 0 s 3 2 mutableHandlers
                conversion_record (KStr "n") (VObj 3)
                Hok eq_refl eq_refl eq_refl eq_refl)))));
      reflexivity.
  - apply (proj2 (proj2 (proj2 (proj2
             (read_conversion 0 s 3 2 mutableHandlers
                conversion_record (KStr "child") (VObj 3)
                Hok eq_refl eq_refl eq_refl eq_refl))))
             1 (Object "Object" true [(KStr "x", VNum (Num 1))]));
      try reflexivity.
    vm_compute. discriminate.
Defined.

(** On an array an integer key gives the box itself. *)
Example array_index_keeps_box :
  option_map fst (get_prop 2 (VObj 2) (KStr "0") (VObj 2) box_array_state)
  = Some (VObj 0).
Proof. vm_compute. reflexivity. Qed.

(** A shallow proxy neither unwraps the box nor wraps the object. *)
Example shallow_read_as_is :
  option_map fst (get_prop 2 (VObj 3) (KStr "0") (VObj 3) box_array_state)
  = Some (VObj 0)
  /\ heap (state_after (get_prop 2 (VObj 3) (KStr "0") (VObj 3))
             box_array_state) = heap box_array_state.
Proof. split; vm_compute; reflexivity. Qed.

(** ** The identity-sensitive array methods *)

Lemma has_prop_S f : has_prop (S f) = has_body (has_prop f).
Proof. reflexivity. Qed.

Lemma has_plain f s a o k :
  heap s !! a = Some (Plain o) ->
  has_prop (S f) (VObj a) k s = Some (ordinary_has o k, s).
Proof.
  intros H. rewrite has_prop_S. unfold has_body. mstep. by rewrite H.
Qed.

(** On an ordinary array the native searches only look. *)
Lemma find_index_plain f f' s t o probe test ks :
  heap s !! t = Some (Plain o) ->
  exists r,
    find_index (get_prop (S f)) (has_prop (S f')) (VObj t) probe test ks s
    = Some (r, s).
Proof.
  intros Ht. induction ks as [|i ks [r IH]]; simpl; [by eexists|].
  assert (Hpres : exists b,
    (if probe then has_prop (S f') (VObj t) (idx i) else ret true) s
    = Some (b, s)).
  { destruct probe; [|by eexists].
    eexists. apply (has_plain f' s t o _ Ht). }
  destruct Hpres as [b Hb]. mrw Hb. destruct b; [|by eexists].
  mrw (get_plain f s t o (idx i) (VObj t) Ht).
  destruct (test _); by eexists.
Qed.

Lemma LengthOfArrayLike_plain f s t o :
  heap s !! t = Some (Plain o) ->
  LengthOfArrayLike (get_prop (S f)) (VObj t) s
  = Some (ToLength (ordinary_get o (KStr "length")), s).
Proof.
  intros Ht. unfold LengthOfArrayLike.
  by mrw (get_plain f s t o (KStr "length") (VObj t) Ht).
Qed.

Lemma native_search_plain f f' s t o m args :
  heap s !! t = Some (Plain o) ->
  exists res,
    native_search (get_prop (S f)) (has_prop (S f')) m (VObj t) args s
    = Some (res, s).
Proof.
  intros Ht. unfold native_search.
  mrw (LengthOfArrayLike_plain f s t o Ht).
  destruct m;
    match goal with
    | |- context [find_index ?g ?h ?O ?p ?tst ?ks] =>
        destruct (find_index_plain f f' s t o p tst ks Ht) as [r Hr];
        mrw Hr; by eexists
    end.
Qed.

Lemma track_indices_cons v i ks s :
  track_indices v (i :: ks) s
  = track_indices v ks (add_track (TrackEv v GET (idx i)) s).
Proof. reflexivity. Qed.

Lemma forM_track v ks s :
  forM ks (fun i => track v GET (idx i)) s = Some (tt, track_indices v ks s).
Proof.
  revert s. induction ks as [|i ks IH]; intros s; [done|].
  rewrite track_indices_cons. cbn [forM]. unfold track at 1. mstep. apply IH.
Qed.

Lemma trackCalls_track_indices v ks s :
  trackCalls (track_indices v ks s)
  = (trackCalls s ++ map (fun i => TrackEv v GET (idx i)) ks)%list.
Proof.
  revert s. induction ks as [|i ks IH]; intros s.
  - simpl. by rewrite app_nil_r.
  - rewrite track_indices_cons, IH. simpl. by rewrite <- app_assoc.
Qed.

Lemma heap_track_indices v ks s : heap (track_indices v ks s) = heap s.
Proof.
  revert s. induction ks as [|i ks IH]; intros s; [done|].
  by rewrite track_indices_cons, IH.
Qed.

Lemma proxyMap_get_track_indices r v ks s :
  proxyMap_get r (track_indices v ks s) = proxyMap_get r s.
Proof.
  revert s. induction ks as [|i ks IH]; intros s; [done|].
  rewrite track_indices_cons, IH. apply proxyMap_get_add_track.
Qed.

(** [toRaw] of the registered proxy of an unflagged ordinary object. *)
Lemma toRaw_proxy f n s p t h o :
  heap s !! p = Some (Proxy t h) ->
  proxyMap_get (registry_of (h_readonly h) (h_shallow h)) s !! t
    = Some (VObj p) ->
  heap s !! t = Some (Plain o) ->
  truthy (ordinary_get o ReactiveFlags.RAW) = false ->
  toRaw (get_prop (S f)) (S (S n)) (VObj p) s = Some (VObj t, s).
Proof.
  intros Hp Hreg Ht Hraw. cbn [toRaw]. mstep. unfold read.
  mrw (get_proxy_RAW f s p t h Hp Hreg).
  mrw (get_plain f s t o ReactiveFlags.RAW (VObj t) Ht).
  by rewrite Hraw.
Qed.

Lemma search_name_instrumented m :
  arrayInstrumentations (KStr (search_name m)) = Some (Search m).
Proof. by destruct m. Qed.

Lemma search_name_trackable m :
  KStr (search_name m) ∉ [ReactiveFlags.IS_REACTIVE;
                          ReactiveFlags.IS_READONLY;
                          ReactiveFlags.IS_SHALLOW; ReactiveFlags.RAW].
Proof.
  rewrite !elem_of_cons, elem_of_nil.
  destruct m; intros [?|[?|[?|[?|[]]]]]; done.
Qed.

(** Reading the name of an instrumented method off a mutable proxy of
    an array gives the replacement, with no track call. *)
Lemma get_instrumented f s p t h o k am r :
  heap s !! p = Some (Proxy t h) ->
  h_readonly h = false -> h_collection h = false ->
  heap s !! t = Some (Plain o) -> isArray_obj o = true ->
  arrayInstrumentations k = Some am ->
  get_prop (S f) (VObj p) k r s = Some (VFun (FInstr am), s).
Proof.
  intros Hp Hro Hc Ht Harr Hk.
  rewrite (get_prop_proxy _ _ _ _ _ _ _ Hp Hc). unfold createGetter.
  assert (k <> ReactiveFlags.IS_REACTIVE) by (intros ->; done).
  assert (k <> ReactiveFlags.IS_READONLY) by (intros ->; done).
  assert (k <> ReactiveFlags.IS_SHALLOW) by (intros ->; done).
  assert (k <> ReactiveFlags.RAW) by (intros ->; done).
  rewrite !decide_False by done. mstep.
  rewrite bool_decide_eq_false_2 by done. mstep.
  rewrite (isArray_plain _ _ _ Ht), Harr, Hro, Hk. done.
Qed.

(** Reading [length] off a mutable proxy of an array tracks it. *)
Lemma get_length_through_proxy f s p t h o l :
  heap s !! p = Some (Proxy t h) ->
  h_readonly h = false -> h_collection h = false ->
  heap s !! t = Some (Plain o) ->
  ordinary_get o (KStr "length") = num l ->
  LengthOfArrayLike (get_prop (S (S f))) (VObj p) s
  = Some (l, add_track (TrackEv (VObj t) GET (KStr "length")) s).
Proof.
  intros Hp Hro Hc Ht Hlen. unfold LengthOfArrayLike.
  assert (Hearly : returns_early (h_readonly h) (h_shallow h) s t o
                     (KStr "length") (VObj p) = false).
  { unfold returns_early, answers_RAW.
    rewrite (bool_decide_eq_false_2 (_ = ReactiveFlags.RAW)) by done.
    rewrite (bool_decide_eq_false_2 (is_Some _)) by (by intros [? ?]).
    rewrite (bool_decide_eq_false_2 (_ ∈ _))
      by (rewrite !elem_of_cons, elem_of_nil; intros [?|[?|[?|[]]]]; done).
    by rewrite !andb_false_r. }
  assert (Hg : get_prop (S (S f)) (VObj p) (KStr "length") (VObj p) s
               = Some (num l,
                       add_track (TrackEv (VObj t) GET (KStr "length")) s)).
  { rewrite (get_prop_proxy _ _ _ _ _ _ _ Hp Hc).
    destruct (createGetter_plain f s (h_readonly h) (h_shallow h) t o
                (KStr "length") (VObj p) Ht) as [_ Hlate].
    rewrite (Hlate Hearly), Hlen.
    rewrite convert_read_primitive by done.
    unfold tracked, read_trap_tracks. by rewrite Hearly, Hro. }
  mrw Hg. unfold num. simpl. by rewrite Nat2Z.id.
Qed.

(** C8.  The identity-sensitive shims.  A call of [includes],
    [indexOf] or [lastIndexOf] on the mutable proxy [p] of the array
    [o] at [t] tracks [GET] on every index below the length, against
    the raw array [t] (after the read of [length] itself), then runs
    the native method on the raw array with the arguments as given.
    If and only if that first result is [-1] or [false], the native
    method runs again on the raw array with every argument passed
    through [toRaw], and the second result is the result of the call. *)
Theorem identity_search (f : nat) (s : state) (p t : addr) (h : handler)
    (o : object) (m : search_method) (args : list value) (l : nat) :
  heap s !! p = Some (Proxy t h) ->
  h_readonly h = false -> h_collection h = false ->
  proxyMap_get (registry_of false (h_shallow h)) s !! t = Some (VObj p) ->
  heap s !! t = Some (Plain o) ->
  isArray_obj o = true ->
  own_lookup (props o) (KStr (search_name m)) = None ->
  truthy (ordinary_get o ReactiveFlags.RAW) = false ->
  ordinary_get o (KStr "length") = num l ->
  let get := get_prop (S (S f)) in
  let has := has_prop (S (S f)) in
  let s2 := track_indices (VObj t) (seq 0 l)
              (add_track (TrackEv (VObj t) GET (KStr "length")) s) in
  exists res,
    native_search get has m (VObj t) args s2 = Some (res, s2)
    /\ trackCalls s2
       = (trackCalls s
          ++ TrackEv (VObj t) GET (KStr "length")
             :: map (fun i => TrackEv (VObj t) GET (idx i)) (seq 0 l))%list
    /\ call_method (S (S f)) (VObj p) (search_name m) args s
       = if not_found res
         then (let* rawArgs := mapM (toRaw get (S (S f))) args in
               native_search get has m (VObj t) rawArgs) s2
         else Some (res, s2).
Proof.
  intros Hp Hro Hc Hreg Ht Harr Hown Hraw Hlen get has s2.
  assert (Ht2 : heap s2 !! t = Some (Plain o))
    by (unfold s2; by rewrite heap_track_indices).
  destruct (native_search_plain (S f) (S f) s2 t o m args Ht2) as [res Hres].
  exists res. split; [exact Hres|]. split.
  { unfold s2. rewrite trackCalls_track_indices. simpl.
    by rewrite <- app_assoc. }
  unfold call_method.
  mrw (get_instrumented (S f) s p t h o _ _ (VObj p) Hp Hro Hc Ht Harr
         (search_name_instrumented m)).
  unfold apply_func, instr_search.
  assert (Hreg' : proxyMap_get (registry_of (h_readonly h) (h_shallow h)) s
                    !! t = Some (VObj p)) by (by rewrite Hro).
  mrw (toRaw_proxy (S f) f s p t h o Hp Hreg' Ht Hraw).
  mrw (get_length_through_proxy f s p t h o l Hp Hro Hc Ht Hlen).
  mrw (forM_track (VObj t) (seq 0 l)
         (add_track (TrackEv (VObj t) GET (KStr "length")) s)).
  fold s2. unfold read.
  assert (Hm : ordinary_get o (KStr (name_of_method (Search m)))
               = VFun (FNative (Search m))).
  { unfold ordinary_get. fold (search_name m). rewrite Hown, Harr.
    by rewrite search_name_instrumented. }
  mrw (get_plain (S f) s2 t o (KStr (name_of_method (Search m))) (VObj t)
         Ht2).
  rewrite Hm. unfold apply_native at 1. fold get has. mrw Hres.
  fold (not_found res). destruct (not_found res); [|done].
  fold get.
  mrw (get_plain (S f) s2 t o (KStr (name_of_method (Search m))) (VObj t)
         Ht2).
  rewrite Hm. done.
Qed.

Lemma identity_search_witness :
  let s := search_state in
  let s2 := track_indices (VObj 1) (seq 0 1)
              (add_track (TrackEv (VObj 1) GET (KStr "length")) s) in
  exists res,
    native_search (get_prop 2) (has_prop 2) Includes (VObj 1) [VObj 3] s2
    = Some (res, s2)
    /\ trackCalls s2
       = (trackCalls s
          ++ TrackEv (VObj 1) GET (KStr "length")
             :: map (fun i => TrackEv (VObj 1) GET (idx i)) (seq 0 1))%list
    /\ call_method 2 (VObj 2) (search_name Includes) [VObj 3] s
       = if not_found res
         then (let* rawArgs := mapM (toRaw (get_prop 2) 2) [VObj 3] in
               native_search (get_prop 2) (has_prop 2) Includes (VObj 1)
                 rawArgs) s2
         else Some (res, s2).
Proof.
  apply (identity_search 0 search_state 2 1 mutableHandlers
           (Object "Array" true
              [(KStr "0", VObj 0); (KStr "length", VNum (Num 1))])
           Includes [VObj 3] 1); reflexivity.
Defined.

(** Searching the proxied array for the proxy of its raw element: the
    first run fails, the run on the unwrapped argument finds it. *)
Example includes_wrapped_element :
  option_map fst
    (native_search (get_prop 2) (has_prop 2) Includes (VObj 1) [VObj 3]
       search_state) = Some (VBool false)
  /\ option_map fst (call_method 2 (VObj 2) "includes" [VObj 3] search_state)
     = Some (VBool true)
  /\ option_map fst (call_method 2 (VObj 2) "indexOf" [VObj 3] search_state)
     = Some (VNum (Num 0))
  /\ option_map fst
       (call_method 2 (VObj 2) "lastIndexOf" [VNum (Num 9)] search_state)
     = Some (VNum (Num (-1))).
Proof. repeat split; vm_compute; reflexivity. Qed.

(** ** Tracking stays suppressed through every trap *)

#[global] Instance quiet_preorder : PreOrder quiet.
Proof.
  split.
  - intros s. unfold quiet. done.
  - intros s1 s2 s3 (S1 & K1 & D1) (S2 & K2 & D2).
    unfold quiet. rewrite S2, K2. repeat split; try done.
    intros Hs. rewrite D2 by congruence. auto.
Qed.

Lemma get_frame_quiet s s' : get_frame s s' -> quiet s s'.
Proof. intros (_ & ? & ? & ? & _). done. Qed.

Lemma quiet_update_cell a c s : quiet s (update_cell a c s).
Proof. unfold quiet. done. Qed.

Lemma quiet_trigger e s : quiet s (add_trigger e s).
Proof. unfold quiet. done. Qed.

Lemma quiet_warning w s : quiet s (add_warning w s).
Proof. unfold quiet. done. Qed.

Lemma quiet_track e s : quiet s (add_track e s).
Proof. apply get_frame_quiet, get_frame_track. Qed.

Lemma quiet_alloc c s : quiet s (set_heap (heap s ++ [c]) s).
Proof. unfold quiet. done. Qed.

Lemma preserves_quiet_modify (g : state -> state) :
  (forall s, quiet s (g s)) -> preserves quiet (modify g).
Proof. apply preserves_modify. Qed.

Lemma preserves_quiet_of_get {A} (m : M A) :
  preserves get_frame m -> preserves quiet m.
Proof. apply preserves_weaken. apply get_frame_quiet. Qed.

#[global] Hint Resolve quiet_update_cell quiet_trigger quiet_warning
  quiet_track quiet_alloc : frame.
#[global] Hint Resolve preserves_get_prop preserves_isRef
  preserves_isReadonly preserves_isShallow preserves_toRaw preserves_read
  : frame.
#[global] Hint Extern 1 (preserves quiet (modify _)) =>
  apply preserves_quiet_modify; intros ? : frame.
#[global] Hint Extern 1 (preserves quiet (trigger _ _ _ _ _)) =>
  apply preserves_quiet_modify; intros ? : frame.
#[global] Hint Extern 1 (preserves quiet (track _ _ _)) =>
  apply preserves_quiet_modify; intros ? : frame.
#[global] Hint Extern 1 (preserves quiet (warn _)) =>
  apply preserves_quiet_modify; intros ? : frame.
#[global] Hint Extern 3 (preserves quiet _) =>
  apply preserves_quiet_of_get : frame.

Section QuietFrame.
Variable depth : nat.
Variable get : getter.
Variable set : setter.
Variable del : deleter.
Variable has : hasser.
Hypothesis Hget : forall o k r, preserves get_frame (get o k r).
Hypothesis Hset : forall o k v r, preserves quiet (set o k v r).
Hypothesis Hdel : forall o k, preserves quiet (del o k).
Hypothesis Hhas : forall o k, preserves quiet (has o k).

Lemma quiet_get o k r : preserves quiet (get o k r).
Proof. auto with frame. Qed.
#[local] Hint Resolve quiet_get : frame.

Lemma quiet_assign o k v : preserves quiet (assign set o k v).
Proof. unfold assign. pres; auto with frame. Qed.
#[local] Hint Resolve quiet_assign : frame.

Lemma quiet_set_and_notify t k v old r :
  preserves quiet (set_and_notify depth get set t k v old r).
Proof. unfold set_and_notify. pres; auto with frame. Qed.
#[local] Hint Resolve quiet_set_and_notify : frame.

Lemma quiet_createSetter sh t k v r :
  preserves quiet (createSetter depth get set sh t k v r).
Proof. unfold createSetter. pres; auto with frame. Qed.

Lemma quiet_deleteProperty t k :
  preserves quiet (deleteProperty get del t k).
Proof. unfold deleteProperty. pres; auto with frame. Qed.

Lemma quiet_has_trap t k : preserves quiet (has_trap has t k).
Proof. unfold has_trap. pres; auto with frame. Qed.

Lemma quiet_set_body o k v r :
  preserves quiet (set_body depth get set o k v r).
Proof.
  pose proof quiet_createSetter.
  unfold set_body, readonly_set. pres; auto with frame.
Qed.

Lemma quiet_del_body o k : preserves quiet (del_body get del o k).
Proof.
  pose proof quiet_deleteProperty.
  unfold del_body, readonly_deleteProperty. pres; auto with frame.
Qed.

Lemma quiet_has_body o k : preserves quiet (has_body has o k).
Proof.
  pose proof quiet_has_trap. unfold has_body. pres; auto with frame.
Qed.
End QuietFrame.

Lemma quiet_set_prop f o k v r : preserves quiet (set_prop f o k v r).
Proof.
  revert o k v r. induction f as [|f IH]; intros o k v r.
  - apply preserves_fail.
  - rewrite set_prop_S. apply quiet_set_body; auto with frame.
Qed.

Lemma quiet_del_prop f o k : preserves quiet (del_prop f o k).
Proof.
  revert o k. induction f as [|f IH]; intros o k.
  - apply preserves_fail.
  - rewrite del_prop_S. apply quiet_del_body; auto with frame.
Qed.

Lemma quiet_has_prop f o k : preserves quiet (has_prop f o k).
Proof.
  revert o k. induction f as [|f IH]; intros o k.
  - apply preserves_fail.
  - rewrite has_prop_S. by apply quiet_has_body.
Qed.

(** ** The length-altering array methods *)

Section QuietNatives.
Variable get : getter.
Variable set : setter.
Variable del : deleter.
Variable has : hasser.
Hypothesis Hget : forall o k r, preserves quiet (get o k r).
Hypothesis Hset : forall o k v r, preserves quiet (set o k v r).
Hypothesis Hdel : forall o k, preserves quiet (del o k).
Hypothesis Hhas : forall o k, preserves quiet (has o k).

Lemma quiet_native_mutator m O args :
  preserves quiet (native_mutator get set del has m O args).
Proof.
  unfold native_mutator, set_items, move, Set_or_throw, Delete_or_throw,
    ArraySpeciesCreate, LengthOfArrayLike.
  cbv zeta. pres; auto with frame.
Qed.
End QuietNatives.

Lemma mutator_name_instrumented m :
  arrayInstrumentations (KStr (mutator_name m)) = Some (Mutator m).
Proof. by destruct m. Qed.

(** C9 (as the code has it).  The length-altering shims.  A call of
    [push], [pop], [shift], [unshift] or [splice] on the mutable proxy
    [p] of the array [o] at [t] pushes the do-not-track state, applies
    the native method read off the raw array to the proxy [p] itself
    (so its reads and writes run through the traps of [p]), restores
    the tracking state it found and returns the method's result.  The
    call registers no dependency at all, whereas a direct read of
    [length] through [p] is tracked and, in an active reader context
    with tracking on, registers the dependency on [(t, length)]. *)
Theorem mutator_suppression (f : nat) (s : state) (p t : addr) (h : handler)
    (o : object) (m : mutator_method) (args : list value) :
  heap s !! p = Some (Proxy t h) ->
  h_readonly h = false -> h_collection h = false ->
  proxyMap_get (registry_of false (h_shallow h)) s !! t = Some (VObj p) ->
  heap s !! t = Some (Plain o) ->
  isArray_obj o = true ->
  own_lookup (props o) (KStr (mutator_name m)) = None ->
  truthy (ordinary_get o ReactiveFlags.RAW) = false ->
  let F := S (S f) in
  call_method F (VObj p) (mutator_name m) args s
  = (pauseTracking ;;
     let* res := native_mutator (get_prop F) (set_prop F) (del_prop F)
                   (has_prop F) m (VObj p) args in
     resetTracking ;;
     ret res) s
  /\ (forall res s',
        call_method F (VObj p) (mutator_name m) args s = Some (res, s') ->
        deps s' = deps s
        /\ shouldTrack s' = shouldTrack s
        /\ trackStack s' = trackStack s)
  /\ (forall l,
        ordinary_get o (KStr "length") = num l ->
        let ev := TrackEv (VObj t) GET (KStr "length") in
        get_prop F (VObj p) (KStr "length") (VObj p) s
        = Some (num l, add_track ev s)
        /\ (shouldTrack s && activeEffect s = true ->
            deps (add_track ev s) = (deps s ++ [ev])%list)).
Proof.
  intros Hp Hro Hc Hreg Ht Harr Hown Hraw F.
  assert (Heq :
    call_method F (VObj p) (mutator_name m) args s
    = (pauseTracking ;;
       let* res := native_mutator (get_prop F) (set_prop F) (del_prop F)
                     (has_prop F) m (VObj p) args in
       resetTracking ;;
       ret res) s).
  { unfold call_method, F.
    mrw (get_instrumented (S f) s p t h o _ _ (VObj p) Hp Hro Hc Ht Harr
           (mutator_name_instrumented m)).
    unfold apply_func, instr_mutator, pauseTracking. mstep.
    set (sp := set_tracking false (shouldTrack s :: trackStack s) s).
    assert (Hreg' : proxyMap_get (registry_of (h_readonly h) (h_shallow h))
                      sp !! t = Some (VObj p)).
    { rewrite Hro. unfold sp. by destruct (h_shallow h). }
    mrw (toRaw_proxy (S f) f sp p t h o Hp Hreg' Ht Hraw).
    unfold read.
    mrw (get_plain (S f) sp t o (KStr (name_of_method (Mutator m)))
           (VObj t) Ht).
    unfold ordinary_get. fold (mutator_name m).
    rewrite Hown, Harr, mutator_name_instrumented. done. }
  split; [exact Heq|]. split.
  - intros res s'. rewrite Heq. unfold pauseTracking. mstep.
    set (sp := set_tracking false (shouldTrack s :: trackStack s) s).
    intros Hrun. apply bind_inv in Hrun as (res' & sn & Hnat & Hrun).
    pose proof (quiet_native_mutator _ _ _ _
                  (fun o k r => preserves_quiet_of_get _
                                  (preserves_get_prop F o k r))
                  (quiet_set_prop F) (quiet_del_prop F) (quiet_has_prop F)
                  m (VObj p) args sp res' sn Hnat) as (Hst & Hstk & Hdeps).
    revert Hrun. unfold resetTracking. mstep. rewrite Hstk. simpl.
    intros [= _ <-]. simpl. split; [|done]. by apply Hdeps.
  - intros l Hlen ev. split.
    + unfold F.
      rewrite (get_prop_proxy _ _ _ _ _ _ _ Hp Hc).
      destruct (createGetter_plain f s (h_readonly h) (h_shallow h) t o
                  (KStr "length") (VObj p) Ht) as [_ Hlate].
      assert (Hearly : returns_early (h_readonly h) (h_shallow h) s t o
                         (KStr "length") (VObj p) = false).
      { unfold returns_early, answers_RAW.
        rewrite (bool_decide_eq_false_2 (_ = ReactiveFlags.RAW)) by done.
        rewrite (bool_decide_eq_false_2 (is_Some _)) by (by intros [? ?]).
        rewrite (bool_decide_eq_false_2 (_ ∈ _))
          by (rewrite !elem_of_cons, elem_of_nil;
              intros [?|[?|[?|[]]]]; done).
        by rewrite !andb_false_r. }
      rewrite (Hlate Hearly), Hlen.
      rewrite convert_read_primitive by done.
      unfold tracked, read_trap_tracks. by rewrite Hearly, Hro.
    + intros Hon. unfold add_track. simpl. by rewrite Hon.
Qed.

Lemma mutator_suppression_witness :
  let s := one_array_state in
  let args := [VNum (Num 7)] in
  call_method 2 (VObj 1) (mutator_name Push) args s
  = (pauseTracking ;;
     let* res := native_mutator (get_prop 2) (set_prop 2) (del_prop 2)
                   (has_prop 2) Push (VObj 1) args in
     resetTracking ;;
     ret res) s
  /\ (forall res s',
        call_method 2 (VObj 1) (mutator_name Push) args s = Some (res, s') ->
        deps s' = deps s
        /\ shouldTrack s' = shouldTrack s
        /\ trackStack s' = trackStack s)
  /\ (forall l,
        VNum (Num 1) = num l ->
        let ev := TrackEv (VObj 0) GET (KStr "length") in
        get_prop 2 (VObj 1) (KStr "length") (VObj 1) s
        = Some (num l, add_track ev s)
        /\ (shouldTrack s && activeEffect s = true ->
            deps (add_track ev s) = (deps s ++ [ev])%list)).
Proof.
  apply (mutator_suppression 0 one_array_state 1 0 mutableHandlers
           (Object "Array" true
              [(KStr "0", VNum (Num 1)); (KStr "length", VNum (Num 1))])
           Push [VNum (Num 7)]); reflexivity.
Defined.

(** Pushing through the proxy returns the new length, registers no
    dependency and restores the tracking state; reading [length]
    registers one. *)
Example push_registers_nothing :
  let s' := state_after (call_method 2 (VObj 1) "push" [VNum (Num 7)])
              one_array_state in
  option_map fst (call_method 2 (VObj 1) "push" [VNum (Num 7)]
                    one_array_state) = Some (VNum (Num 2))
  /\ deps s' = [] /\ shouldTrack s' = true /\ trackStack s' = []
  /\ deps (state_after (get_prop 2 (VObj 1) (KStr "length") (VObj 1))
             one_array_state)
     = [TrackEv (VObj 0) GET (KStr "length")].
Proof. repeat split; vm_compute; reflexivity. Qed.

(** Each of the five methods returns and registers nothing. *)
Example mutators_register_nothing :
  outcome (call_method 3 (VObj 1) "push" [VNum (Num 1)]) three_array_state
  = Some (VNum (Num 4), [])
  /\ outcome (call_method 3 (VObj 1) "pop" []) three_array_state
     = Some (VNum (Num 8), [])
  /\ outcome (call_method 3 (VObj 1) "shift" []) three_array_state
     = Some (VNum (Num 5), [])
  /\ outcome (call_method 3 (VObj 1) "unshift" [VNum (Num 9)])
       three_array_state
     = Some (VNum (Num 4), [])
  /\ outcome (call_method 3 (VObj 1) "splice" [VNum (Num 1); VNum (Num 1)])
       three_array_state
     = Some (VObj 2, []).
Proof. repeat split; vm_compute; reflexivity. Qed.

(** C9 as stated fails: the code applies the native method to the
    proxy, so the push goes through the setter and notifies; applied
    to the unwrapped array it would notify nobody. *)
Lemma mutator_suppression_counterexample :
  let s := one_array_state in
  triggered (state_after (call_method 2 (VObj 1) "push" [VNum (Num 7)]) s)
  = [TriggerEv (VObj 0) ADD (KStr "1") (VNum (Num 7)) VUndefined]
  /\ triggered (state_after
                  (mutator_against_raw 2 Push (VObj 1) [VNum (Num 7)]) s)
     = []
  /\ call_method 2 (VObj 1) "push" [VNum (Num 7)] s
     <> mutator_against_raw 2 Push (VObj 1) [VNum (Num 7)] s.
Proof.
  split; [vm_compute; reflexivity|]. split; [vm_compute; reflexivity|].
  vm_compute. intros H. discriminate H.
Qed.

(** ** Write notification *)

Lemma own_lookup_filter (P : key * value -> Prop) `{!forall x, Decision (P x)}
    ps k :
  (forall v, P (k, v)) ->
  own_lookup (filter P ps) k = own_lookup ps k.
Proof.
  intros HP. induction ps as [|[k' v'] ps IH]; [done|].
  rewrite filter_cons. simpl. destruct (decide (k' = k)) as [->|Hne].
  - rewrite decide_True by apply HP. simpl. by rewrite decide_True.
  - destruct (decide (P (k', v'))); simpl; [by rewrite decide_False|done].
Qed.

(** A write under another key leaves [RAW] as it was. *)
Lemma ordinary_define_RAW o k v o' :
  ordinary_define o k v = Some o' ->
  k <> ReactiveFlags.RAW ->
  ordinary_get o' ReactiveFlags.RAW = ordinary_get o ReactiveFlags.RAW.
Proof.
  intros Hd Hk.
  assert (Hl : own_lookup (props o') ReactiveFlags.RAW
               = own_lookup (props o) ReactiveFlags.RAW
               /\ rawType o' = rawType o).
  { revert Hd. unfold ordinary_define.
    destruct (own_lookup (props o) k).
    - destruct (isArray_obj o && bool_decide (k = KStr "length"));
        intros [= <-]; simpl; (split; [|done]);
        rewrite own_lookup_update_ne by done; [|done].
      by apply own_lookup_filter.
    - destruct (extensible o); [|done].
      destruct (isArray_obj o && isIntegerKey k).
      + destruct (own_lookup (own_update (props o) k v) (KStr "length"))
          as [len|]; [destruct (index_lt (Number_of_key k) len)|];
          intros [= <-]; simpl; (split; [|done]);
          rewrite ?(own_lookup_update_ne _ (KStr "length")) by done;
          by rewrite own_lookup_update_ne.
      + intros [= <-]. simpl. split; [|done].
        by rewrite own_lookup_update_ne. }
  destruct Hl as [Hl Hrt]. unfold ordinary_get, isArray_obj.
  by rewrite Hl, Hrt.
Qed.

(** A write through the registered proxy of an ordinary object always
    returns, and the receiver unwraps to the target. *)
Lemma set_and_notify_returns f s t o p h k v :
  heap s !! t = Some (Plain o) ->
  heap s !! p = Some (Proxy t h) ->
  proxyMap_get (registry_of (h_readonly h) (h_shallow h)) s !! t
    = Some (VObj p) ->
  truthy (ordinary_get o ReactiveFlags.RAW) = false ->
  k <> ReactiveFlags.RAW ->
  exists result s1,
    set_prop (S f) (VObj t) k v (VObj p) s = Some (result, s1)
    /\ toRaw (get_prop (S (S f))) (S (S f)) (VObj p) s1
       = Some (VObj t, s1).
Proof.
  intros Ht Hp Hreg Hraw Hk.
  assert (Hpt : p <> t) by (intros ->; congruence).
  rewrite set_prop_S. unfold set_body. mstep. rewrite Ht. mstep.
  unfold underlying_of. rewrite (underlying_proxy_plain _ _ _ _ _ Hp Ht).
  destruct (ordinary_define o k v) as [o'|] eqn:Ed; mstep.
  - eexists _, _. split; [done|].
    apply (toRaw_proxy (S f) f _ p t h o').
    + rewrite heap_update_cell. by rewrite list_lookup_insert_ne.
    + by rewrite proxyMap_get_update_cell.
    + rewrite heap_update_cell. apply list_lookup_insert_eq.
      by eapply lookup_lt_Some.
    + by rewrite (ordinary_define_RAW _ _ _ _ Ed Hk).
  - eexists _, _. split; [done|].
    by apply (toRaw_proxy (S f) f s p t h o).
Qed.

Lemma triggered_notified evs s :
  triggered (notified evs s) = (triggered s ++ evs)%list.
Proof.
  revert s. induction evs as [|e evs IH]; intros s.
  - simpl. by rewrite app_nil_r.
  - change (notified (e :: evs) s) with (notified evs (add_trigger e s)).
    rewrite IH. simpl. by rewrite <- app_assoc.
Qed.

Lemma heap_notified evs s : heap (notified evs s) = heap s.
Proof.
  revert s. induction evs as [|e evs IH]; intros s; [done|].
  change (notified (e :: evs) s) with (notified evs (add_trigger e s)).
  by rewrite IH.
Qed.

(** The setter's tail over an ordinary target: the write, the
    unwrapping of the receiver, the notification. *)
Lemma set_and_notify_eq f s t o k v old r :
  heap s !! t = Some (Plain o) ->
  set_and_notify (S f) (get_prop (S f)) (set_prop f) t k v old r s
  = (let* result := set_prop f (VObj t) k v r in
     let* rawReceiver := toRaw (get_prop (S f)) (S f) r in
     modify (notified (notification t o k v old rawReceiver)) ;;
     ret result) s.
Proof.
  intros Ht. unfold set_and_notify. mstep.
  rewrite (isArray_plain _ _ _ Ht).
  assert (Hhad :
    (if isArray_obj o && isIntegerKey k
     then let* len := read (get_prop (S f)) (VObj t) (KStr "length")
          in ret (index_lt (Number_of_key k) len)
     else gets (fun s0 => hasOwn s0 (VObj t) k)) s
    = Some (existed_before o k, s)).
  { unfold existed_before, read. destruct (_ && _).
    - by mrw (get_plain f s t o (KStr "length") (VObj t) Ht).
    - mstep. by rewrite (hasOwn_plain _ _ _ k Ht). }
  mrw Hhad. unfold bind.
  destruct (set_prop f (VObj t) k v r s) as [[res s1]|]; [|done].
  destruct (toRaw (get_prop (S f)) (S f) r s1) as [[rr s2]|]; [|done].
  unfold notification, trigger.
  destruct (strict_eq (VObj t) rr);
    [destruct (existed_before o k); [destruct (hasChanged v old)|]|];
    reflexivity.
Qed.

(** A write whose receiver is the registered proxy always returns and
    is notified by the rule. *)
Lemma set_and_notify_through_proxy f s t o p h k v old :
  heap s !! t = Some (Plain o) ->
  heap s !! p = Some (Proxy t h) ->
  proxyMap_get (registry_of (h_readonly h) (h_shallow h)) s !! t
    = Some (VObj p) ->
  truthy (ordinary_get o ReactiveFlags.RAW) = false ->
  k <> ReactiveFlags.RAW ->
  exists res s'',
    set_and_notify (S (S f)) (get_prop (S (S f))) (set_prop (S f))
      t k v old (VObj p) s = Some (res, s'')
    /\ triggered s''
       = (triggered s ++ notification t o k v old (VObj t))%list.
Proof.
  intros Ht Hp Hreg Hraw Hk.
  rewrite (set_and_notify_eq (S f) s t o k v old _ Ht).
  destruct (set_and_notify_returns f s t o p h k v Ht Hp Hreg Hraw Hk)
    as (res & s1 & Eset & Eraw).
  mrw Eset. mrw Eraw. eexists _, _. split; [done|].
  rewrite triggered_notified.
  by rewrite (set_plain_triggered _ _ _ _ _ _ _ _ _ Ht Eset).
Qed.

(** The setter of a mutable proxy, for a plain incoming value over an
    old value that is no box and no proxy: it comes down to the write
    and its notification. *)
Lemma createSetter_ordinary f s t o sh k v r :
  heap s !! t = Some (Plain o) ->
  plain_value s v = true ->
  is_raw s (ordinary_get o k) = true ->
  is_box s (ordinary_get o k) = false ->
  truthy (prop_of s (ordinary_get o k) ReactiveFlags.RAW) = false ->
  createSetter (S (S f)) (get_prop (S (S f))) (set_prop (S f)) sh t k v r s
  = set_and_notify (S (S f)) (get_prop (S (S f))) (set_prop (S f))
      t k v (ordinary_get o k) r s.
Proof.
  intros Ht Hv Hraw Hbox Hnraw. set (old := ordinary_get o k) in *.
  unfold plain_value in Hv.
  apply andb_true_iff in Hv as [Hv Hv5].
  apply andb_true_iff in Hv as [Hv Hv4].
  apply andb_true_iff in Hv as [Hv Hv3].
  apply andb_true_iff in Hv as [Hv1 Hv2].
  apply negb_true_iff in Hv2, Hv3, Hv4, Hv5.
  unfold is_box in Hbox. rewrite Hraw in Hbox. simpl in Hbox.
  unfold createSetter, read.
  mrw (get_plain (S f) s t o k (VObj t) Ht). fold old.
  mrw (isReadonly_raw (S f) s old Hraw).
  assert (Href :
    (if truthy old && truthy (prop_of s old ReactiveFlags.IS_READONLY)
     then isRef (get_prop (S (S f))) old else ret false) s
    = Some (false, s)).
  { destruct (truthy old && truthy _); [|done].
    rewrite (isRef_raw (S f) s old Hraw). by rewrite Hbox. }
  mrw Href.
  destruct sh; [done|]. mstep.
  mrw (isShallow_raw (S f) s v Hv1). rewrite Hv4, andb_false_r. mstep.
  rewrite (bind_Some _ _ _ _ _ (bind_Some _ (fun ro => ret (negb ro))
                                  _ _ _ (isReadonly_raw (S f) s v Hv1))).
  rewrite Hv3, andb_false_r. mstep.
  assert (Hov :
    (let* o0 := toRaw (get_prop (S (S f))) (S (S f)) old in
     let* v0 := toRaw (get_prop (S (S f))) (S (S f)) v in
     ret (o0, v0)) s = Some ((old, v), s)).
  { mrw (toRaw_raw (S f) (S f) s old Hraw Hnraw).
    by mrw (toRaw_raw (S f) (S f) s v Hv1 Hv2). }
  mrw Hov.
  assert (Hr1 :
    (if negb (isArray s (VObj t)) then isRef (get_prop (S (S f))) old
     else ret false) s = Some (false, s)).
  { destruct (negb _); [|done].
    rewrite (isRef_raw (S f) s old Hraw). by rewrite Hbox. }
  mrw Hr1. done.
Qed.

(** C3.  Write notification: in the setter of a mutable proxy over the
    ordinary object [o] at [t], "existed before" is decided on [o] as
    it is before the write (an array and an integer key: the index is
    below the length; otherwise: the key is an own key).  After the
    write, and only when the receiver unwraps to [t], exactly one
    notification is sent: [ADD] when the key did not exist before,
    else [SET] with the new and the old value when [hasChanged] says
    they differ, else none.  A write whose receiver is the registered
    proxy [p] of [t] returns, and its receiver unwraps to [t], unless
    it assigns an invalid length to an array (which throws before any
    notification); so does the whole setter of [p] for a plain value
    written over a value that is neither a box nor a proxy. *)
Theorem write_notification (f : nat) (s s' : state) (t : addr) (o : object)
    (k : key) (v old r : value) (result : bool) :
  heap s !! t = Some (Plain o) ->
  (set_and_notify (S (S f)) (get_prop (S (S f))) (set_prop (S f))
     t k v old r s = Some (result, s') ->
   exists s1 rawReceiver s2,
     set_prop (S f) (VObj t) k v r s = Some (result, s1)
     /\ toRaw (get_prop (S (S f))) (S (S f)) r s1 = Some (rawReceiver, s2)
     /\ triggered s'
        = (triggered s ++ notification t o k v old rawReceiver)%list)
  /\ (forall p h,
        heap s !! p = Some (Proxy t h) ->
        proxyMap_get (registry_of (h_readonly h) (h_shallow h)) s !! t
          = Some (VObj p) ->
        truthy (ordinary_get o ReactiveFlags.RAW) = false ->
        k <> ReactiveFlags.RAW ->
        length_write_ok o k v = true ->
        (exists res s'',
           set_and_notify (S (S f)) (get_prop (S (S f))) (set_prop (S f))
             t k v old (VObj p) s = Some (res, s'')
           /\ triggered s''
              = (triggered s
                 ++ (if negb (existed_before o k)
                     then [TriggerEv (VObj t) ADD k v VUndefined]
                     else if hasChanged v old
                          then [TriggerEv (VObj t) SET k v old]
                          else []))%list)
        /\ (h_readonly h = false -> h_collection h = false ->
            plain_value s v = true ->
            is_raw s (ordinary_get o k) = true ->
            is_box s (ordinary_get o k) = false ->
            truthy (prop_of s (ordinary_get o k) ReactiveFlags.RAW) = false ->
            exists res s'',
              set_prop (S (S f)) (VObj p) k v (VObj p) s = Some (res, s'')
              /\ triggered s''
                 = (triggered s
                    ++ (if negb (existed_before o k)
                        then [TriggerEv (VObj t) ADD k v VUndefined]
                        else if hasChanged v (ordinary_get o k)
                             then [TriggerEv (VObj t) SET k v
                                     (ordinary_get o k)]
                             else []))%list)).
Proof.
  intros Ht. split.
  - rewrite (set_and_notify_eq (S f) s t o k v old _ Ht). intros Hrun.
    apply bind_inv in Hrun as (res & s1 & Eset & Hrun).
    apply bind_inv in Hrun as (rr & s2 & Eraw & Hrun).
    revert Hrun. mstep. intros [= -> <-].
    exists s1, rr, s2. split; [done|]. split; [done|].
    rewrite triggered_notified.
    rewrite (proj1 (preserves_toRaw _ (preserves_get_prop (S (S f)))
                      _ _ _ _ _ Eraw)).
    by rewrite (set_plain_triggered _ _ _ _ _ _ _ _ _ Ht Eset).
  - intros p h Hp Hreg Hraw Hk _.
    assert (Hn : forall old0,
              notification t o k v old0 (VObj t)
              = if negb (existed_before o k)
                then [TriggerEv (VObj t) ADD k v VUndefined]
                else if hasChanged v old0
                     then [TriggerEv (VObj t) SET k v old0]
                     else []).
    { intros old0. unfold notification, strict_eq.
      by rewrite bool_decide_eq_true_2. }
    split.
    + rewrite <- Hn.
      by apply (set_and_notify_through_proxy f s t o p h k v old).
    + intros Hro Hc Hv Hraw_old Hbox Hnraw. rewrite <- Hn.
      rewrite (set_prop_proxy _ _ _ _ _ _ _ _ Hp Hc Hro).
      rewrite (createSetter_ordinary f s t o _ k v _ Ht Hv Hraw_old Hbox
                 Hnraw).
      by apply (set_and_notify_through_proxy f s t o p h k v).
Qed.

Lemma write_notification_witness :
  let s := one_array_state in
  let o := Object "Array" true
             [(KStr "0", VNum (Num 1)); (KStr "length", VNum (Num 1))] in
  let v := VNum (Num 7) in
  let k := KStr "1" in
  let s' := state_after
              (set_and_notify 2 (get_prop 2) (set_prop 1) 0 k v
                 VUndefined (VObj 1)) s in
  (set_and_notify 2 (get_prop 2) (set_prop 1) 0 k v VUndefined (VObj 1) s
   = Some (true, s') ->
   exists s1 rawReceiver s2,
     set_prop 1 (VObj 0) k v (VObj 1) s = Some (true, s1)
     /\ toRaw (get_prop 2) 2 (VObj 1) s1 = Some (rawReceiver, s2)
     /\ triggered s'
        = (triggered s ++ notification 0 o k v VUndefined rawReceiver)%list)
  /\ exists res s'',
       set_prop 2 (VObj 1) k v (VObj 1) s = Some (res, s'')
       /\ triggered s''
          = (triggered s
             ++ (if negb (existed_before o k)
                 then [TriggerEv (VObj 0) ADD k v VUndefined]
                 else if hasChanged v (ordinary_get o k)
                      then [TriggerEv (VObj 0) SET k v (ordinary_get o k)]
                      else []))%list.
Proof.
  intros s o v k s'.
  destruct (write_notification 0 s s' 0 o k v VUndefined (VObj 1) true
              eq_refl) as [H1 H2].
  split; [exact H1|].
  destruct (H2 1 mutableHandlers eq_refl eq_refl eq_refl
              ltac:(discriminate) eq_refl) as [_ H3].
  apply H3; reflexivity.
Defined.

(** ** The registries stay sound *)

#[global] Instance keeps_registries_preorder : PreOrder keeps_registries.
Proof.
  split.
  - intros s. unfold keeps_registries. done.
  - intros s1 s2 s3 H1 H2. unfold keeps_registries in *. auto.
Qed.

Lemma keeps_track e s : keeps_registries s (add_track e s).
Proof. intros H. by apply registries_ok_add_track. Qed.

Lemma keeps_trigger e s : keeps_registries s (add_trigger e s).
Proof.
  intros Hok r t p Hl. eapply entry_ok_mono; [|apply Hok]; [done|].
  by destruct r.
Qed.

Lemma keeps_warning w s : keeps_registries s (add_warning w s).
Proof.
  intros Hok r t p Hl. eapply entry_ok_mono; [|apply Hok]; [done|].
  by destruct r.
Qed.

Lemma keeps_tracking st stk s : keeps_registries s (set_tracking st stk s).
Proof.
  intros Hok r t p Hl. eapply entry_ok_mono; [|apply Hok]; [done|].
  by destruct r.
Qed.

Lemma keeps_alloc c s : keeps_registries s (set_heap (heap s ++ [c]) s).
Proof.
  intros Hok r t p Hl. rewrite proxyMap_get_set_heap in Hl.
  eapply entry_ok_mono; [|by apply Hok].
  intros a c' Ha. simpl. by apply lookup_app_l_Some.
Qed.

(** Replacing an ordinary object by an ordinary object touches no
    proxy. *)
Lemma keeps_update_plain a o o' s :
  heap s !! a = Some (Plain o) ->
  keeps_registries s (update_cell a (Plain o') s).
Proof.
  intros Ha Hok r t p Hl. rewrite proxyMap_get_update_cell in Hl.
  destruct (entry_ok_inv _ _ _ _ (Hok _ _ _ Hl)) as (pa & h & -> & Hp & Hr).
  unfold entry_ok. rewrite heap_update_cell.
  rewrite list_lookup_insert_ne by (intros ->; congruence).
  rewrite Hp. by rewrite !bool_decide_eq_true_2.
Qed.

Lemma underlying_S n h a :
  underlying (S n) h a
  = match h !! a with
    | Some (Plain o) => Some (a, o)
    | Some (Proxy t _) => underlying n h t
    | None => None
    end.
Proof. reflexivity. Qed.

Lemma underlying_is_plain n h a b o :
  underlying n h a = Some (b, o) -> h !! b = Some (Plain o).
Proof.
  revert a. induction n as [|n IH]; intros a; [done|].
  rewrite underlying_S.
  destruct (h !! a) as [[o'|t hd]|] eqn:E; [|by apply IH|done].
  by intros [= <- <-].
Qed.

Lemma preserves_keeps_modify (g : state -> state) :
  (forall s, keeps_registries s (g s)) ->
  preserves keeps_registries (modify g).
Proof. apply preserves_modify. Qed.

#[global] Hint Resolve keeps_track keeps_trigger keeps_warning keeps_alloc
  keeps_tracking : frame.
#[global] Hint Extern 1 (preserves keeps_registries (modify _)) =>
  apply preserves_keeps_modify; intros ? : frame.
#[global] Hint Extern 1 (preserves keeps_registries (track _ _ _)) =>
  apply preserves_keeps_modify; intros ? : frame.
#[global] Hint Extern 1 (preserves keeps_registries (trigger _ _ _ _ _)) =>
  apply preserves_keeps_modify; intros ? : frame.
#[global] Hint Extern 1 (preserves keeps_registries (warn _)) =>
  apply preserves_keeps_modify; intros ? : frame.

(** Allocating a proxy and registering it, as the factory does. *)
Lemma keeps_register a h r :
  registry_of (h_readonly h) (h_shallow h) = r ->
  preserves keeps_registries
    (let* proxy := new_Proxy a h in
     modify (proxyMap_set r a proxy) ;; ret proxy).
Proof.
  intros Hr s p s'. unfold new_Proxy. mstep. intros [= _ <-] Hok.
  by apply registries_ok_alloc.
Qed.

Section KeepsGet.
Variable get : getter.
Hypothesis Hget : forall o k r, preserves keeps_registries (get o k r).

Lemma keeps_read o k : preserves keeps_registries (read get o k).
Proof. apply Hget. Qed.
#[local] Hint Resolve keeps_read : frame.

Lemma keeps_isRef v : preserves keeps_registries (isRef get v).
Proof. unfold isRef, read. pres; auto with frame. Qed.
#[local] Hint Resolve keeps_isRef : frame.

Lemma keeps_isReadonly v : preserves keeps_registries (isReadonly get v).
Proof. unfold isReadonly, read. pres; auto with frame. Qed.
#[local] Hint Resolve keeps_isReadonly : frame.

Lemma keeps_isShallow v : preserves keeps_registries (isShallow get v).
Proof. unfold isShallow, read. pres; auto with frame. Qed.
#[local] Hint Resolve keeps_isShallow : frame.

Lemma keeps_toRaw n v : preserves keeps_registries (toRaw get n v).
Proof.
  revert v. induction n as [|n IH]; intros v; simpl; unfold read; pres;
    auto with frame.
Qed.
#[local] Hint Resolve keeps_toRaw : frame.

Lemma keeps_getTargetType v :
  preserves keeps_registries (getTargetType get v).
Proof. unfold getTargetType, read. pres; auto with frame. Qed.
#[local] Hint Resolve keeps_getTargetType : frame.

Lemma keeps_createReactiveObject t ro bh ch r :
  registry_of (h_readonly bh) (h_shallow bh) = r ->
  registry_of (h_readonly ch) (h_shallow ch) = r ->
  preserves keeps_registries (createReactiveObject get t ro bh ch r).
Proof.
  intros Hb Hc. unfold createReactiveObject, read.
  repeat first [ by apply keeps_register | pres_step ]; auto with frame.
Qed.

#[local] Hint Extern 1
  (preserves keeps_registries (createReactiveObject _ _ _ _ _ _)) =>
  apply keeps_createReactiveObject; reflexivity : frame.

Lemma keeps_reactive t : preserves keeps_registries (reactive get t).
Proof. unfold reactive. pres; auto with frame. Qed.
#[local] Hint Resolve keeps_reactive : frame.

Lemma keeps_readonly t : preserves keeps_registries (readonly get t).
Proof. by apply keeps_createReactiveObject. Qed.
#[local] Hint Resolve keeps_readonly : frame.

Lemma keeps_shallowReactive t :
  preserves keeps_registries (shallowReactive get t).
Proof. by apply keeps_createReactiveObject. Qed.

Lemma keeps_shallowReadonly t :
  preserves keeps_registries (shallowReadonly get t).
Proof. by apply keeps_createReactiveObject. Qed.

Lemma keeps_convert_read ro sh arr k res :
  preserves keeps_registries (convert_read get ro sh arr k res).
Proof. unfold convert_read, read. pres; auto with frame. Qed.
#[local] Hint Resolve keeps_convert_read : frame.

Lemma keeps_createGetter ro sh t k r :
  preserves keeps_registries (createGetter get ro sh t k r).
Proof. unfold createGetter, read. pres; auto with frame. Qed.

Lemma keeps_collectionGetter ro sh t k r :
  preserves keeps_registries (collectionGetter get ro sh t k r).
Proof. unfold collectionGetter. pres; auto with frame. Qed.

Lemma keeps_get_body o k r : preserves keeps_registries (get_body get o k r).
Proof.
  pose proof keeps_createGetter. pose proof keeps_collectionGetter.
  unfold get_body. pres; auto with frame.
Qed.
End KeepsGet.

Lemma keeps_get_prop f o k r : preserves keeps_registries (get_prop f o k r).
Proof.
  revert o k r. induction f as [|f IH]; intros o k r.
  - apply preserves_fail.
  - rewrite get_prop_S. by apply keeps_get_body.
Qed.

(** C1's invariant is inductive: every factory keeps the registries
    sound. *)
Lemma keeps_wrap f v x : preserves keeps_registries (wrap f v x).
Proof.
  destruct v; unfold wrap.
  - apply keeps_reactive, keeps_get_prop.
  - apply keeps_shallowReactive, keeps_get_prop.
  - apply keeps_readonly, keeps_get_prop.
  - apply keeps_shallowReadonly, keeps_get_prop.
Qed.

Lemma registries_ok_init h : registries_ok (init_state h).
Proof. intros r t p. by destruct r. Qed.

#[global] Hint Resolve keeps_get_prop keeps_isRef keeps_isReadonly
  keeps_isShallow keeps_toRaw keeps_read : frame.

Section KeepsSet.
Variable depth : nat.
Variable get : getter.
Variable set : setter.
Variable del : deleter.
Variable has : hasser.
Hypothesis Hget : forall o k r, preserves keeps_registries (get o k r).
Hypothesis Hset : forall o k v r, preserves keeps_registries (set o k v r).
Hypothesis Hdel : forall o k, preserves keeps_registries (del o k).
Hypothesis Hhas : forall o k, preserves keeps_registries (has o k).

Lemma keeps_assign o k v : preserves keeps_registries (assign set o k v).
Proof. unfold assign. pres; auto with frame. Qed.
#[local] Hint Resolve keeps_assign : frame.

Lemma keeps_set_and_notify t k v old r :
  preserves keeps_registries (set_and_notify depth get set t k v old r).
Proof. unfold set_and_notify. pres; auto with frame. Qed.
#[local] Hint Resolve keeps_set_and_notify : frame.

Lemma keeps_createSetter sh t k v r :
  preserves keeps_registries (createSetter depth get set sh t k v r).
Proof. unfold createSetter. pres; auto with frame. Qed.

Lemma keeps_deleteProperty t k :
  preserves keeps_registries (deleteProperty get del t k).
Proof. unfold deleteProperty. pres; auto with frame. Qed.

Lemma keeps_has_trap t k : preserves keeps_registries (has_trap has t k).
Proof. unfold has_trap. pres; auto with frame. Qed.

Lemma keeps_set_body o k v r :
  preserves keeps_registries (set_body depth get set o k v r).
Proof.
  pose proof keeps_createSetter.
  unfold set_body. destruct o as [| | | | | | |a]; try apply preserves_fail.
  intros s b s'. mstep. destruct (heap s !! a) as [[obj|t h]|] eqn:E.
  - mstep. destruct (underlying_of s r) as [[b' obj']|] eqn:Eu; mstep.
    + destruct (ordinary_define obj' k v) as [obj''|]; mstep;
        intros [= _ <-]; [|done].
      destruct r; try done. apply underlying_is_plain in Eu.
      by apply (keeps_update_plain _ obj').
    + by intros [= _ <-].
  - revert s b s' E. 
    assert (Hp : preserves keeps_registries
              (if h_collection h then set (VObj t) k v r
               else if h_readonly h then readonly_set t k
                    else createSetter depth get set (h_shallow h) t k v r)).
    { unfold readonly_set. pres; auto with frame. }
    intros s b s' _. apply Hp.
  - done.
Qed.

Lemma keeps_del_body o k : preserves keeps_registries (del_body get del o k).
Proof.
  pose proof keeps_deleteProperty.
  unfold del_body. destruct o as [| | | | | | |a]; try apply preserves_fail.
  intros s b s'. mstep. destruct (heap s !! a) as [[obj|t h]|] eqn:E.
  - destruct (ordinary_delete obj k) as [obj'|]; mstep;
      intros [= _ <-]; [|done].
    by apply (keeps_update_plain _ obj).
  - revert s b s' E.
    assert (Hp : preserves keeps_registries
              (if h_collection h then del (VObj t) k
               else
                 let* result :=
                   if h_readonly h then readonly_deleteProperty t k
                   else deleteProperty get del t k in
                 if result : bool then
                   let* refuted :=
                     gets (fun s => delete_refuted s (VObj t) k) in
                   if refuted : bool then fail else ret true
                 else ret false)).
    { unfold readonly_deleteProperty. pres; auto with frame. }
    intros s b s' _. apply Hp.
  - done.
Qed.

Lemma keeps_has_body o k : preserves keeps_registries (has_body has o k).
Proof.
  pose proof keeps_has_trap. unfold has_body. pres; auto with frame.
Qed.

Lemma keeps_native_search m O args :
  preserves keeps_registries (native_search get has m O args).
Proof.
  assert (Hf : forall p tst ks,
            preserves keeps_registries (find_index get has O p tst ks)).
  { intros p tst ks. induction ks as [|i ks IH]; simpl; pres;
      auto with frame. }
  unfold native_search, LengthOfArrayLike. cbv zeta. pres; auto with frame.
Qed.

Lemma keeps_native_mutator m O args :
  preserves keeps_registries (native_mutator get set del has m O args).
Proof.
  unfold native_mutator, set_items, move, Set_or_throw, Delete_or_throw,
    ArraySpeciesCreate, LengthOfArrayLike.
  cbv zeta. pres; auto with frame.
Qed.

Lemma keeps_apply_native fv this args :
  preserves keeps_registries (apply_native get set del has fv this args).
Proof.
  unfold apply_native.
  destruct fv as [| | | | | |fn|]; try apply preserves_fail.
  destruct fn as [[m|m]|am];
    [apply keeps_native_search|apply keeps_native_mutator
    |apply preserves_fail].
Qed.

Lemma keeps_pauseTracking : preserves keeps_registries pauseTracking.
Proof. unfold pauseTracking. auto with frame. Qed.

Lemma keeps_resetTracking : preserves keeps_registries resetTracking.
Proof.
  unfold resetTracking. apply preserves_keeps_modify. intros s.
  destruct (trackStack s); auto with frame.
Qed.

Lemma keeps_apply_func fv this args :
  preserves keeps_registries
    (apply_func get set del has depth fv this args).
Proof.
  pose proof keeps_apply_native as Hn. pose proof keeps_pauseTracking.
  pose proof keeps_resetTracking.
  assert (Hs : forall m, preserves keeps_registries
                 (instr_search get set del has depth m this args)).
  { intros m. unfold instr_search, LengthOfArrayLike. cbv zeta.
    repeat first [ apply Hn | pres_step ]; auto with frame. }
  assert (Hm : forall m, preserves keeps_registries
                 (instr_mutator get set del has depth m this args)).
  { intros m. unfold instr_mutator. cbv zeta.
    repeat first [ apply Hn | assumption | pres_step ]; auto with frame. }
  unfold apply_func.
  destruct fv as [| | | | | |fn|]; try apply Hn.
  destruct fn as [am|[m|m]]; [apply Hn|apply Hs|apply Hm].
Qed.
End KeepsSet.

Lemma keeps_set_prop f o k v r :
  preserves keeps_registries (set_prop f o k v r).
Proof.
  revert o k v r. induction f as [|f IH]; intros o k v r.
  - apply preserves_fail.
  - rewrite set_prop_S. apply keeps_set_body; auto with frame.
Qed.

Lemma keeps_del_prop f o k : preserves keeps_registries (del_prop f o k).
Proof.
  revert o k. induction f as [|f IH]; intros o k.
  - apply preserves_fail.
  - rewrite del_prop_S. apply keeps_del_body; auto with frame.
Qed.

Lemma keeps_has_prop f o k : preserves keeps_registries (has_prop f o k).
Proof.
  revert o k. induction f as [|f IH]; intros o k.
  - apply preserves_fail.
  - rewrite has_prop_S. by apply keeps_has_body.
Qed.

Lemma keeps_call_method f o name args :
  preserves keeps_registries (call_method f o name args).
Proof.
  unfold call_method. apply preserves_bind; [apply _|auto with frame|].
  intros fv. apply keeps_apply_func.
  - apply keeps_get_prop.
  - apply keeps_set_prop.
  - apply keeps_del_prop.
  - apply keeps_has_prop.
Qed.

Lemma keeps_markRaw v : preserves keeps_registries (markRaw v).
Proof.
  intros s b s'. unfold markRaw. mstep.
  destruct (underlying_of s v) as [[a o]|] eqn:Eu; [|done].
  destruct (ordinary_define o ReactiveFlags.SKIP (VBool true)) as [o'|];
    mstep; [|done].
  intros [= _ <-].
  destruct v; try done. apply underlying_is_plain in Eu.
  by apply (keeps_update_plain _ o).
Qed.

(** ** Single instance per raw value and variant *)

Lemma variant_registry_inj v v' :
  variant_registry v = variant_registry v' -> v = v'.
Proof. by destruct v, v'. Qed.

Lemma alloc_changes_state s r a p c :
  proxyMap_set r a p (set_heap (heap s ++ [c]) s) <> s.
Proof.
  intros Hs. apply (f_equal (fun st => length (heap st))) in Hs.
  rewrite heap_proxyMap_set in Hs. simpl in Hs.
  rewrite length_app in Hs. simpl in Hs. lia.
Qed.

(** A request that came back without allocating comes back the same
    once another ordinary object got its proxy. *)
Lemma wrap_after_alloc f s1 v x o y v' x' o' hh :
  heap s1 !! x = Some (Plain o) ->
  heap s1 !! x' = Some (Plain o') ->
  wrap_result s1 x o v = (y, s1) ->
  proxyMap_get (variant_registry v') s1 !! x' = None ->
  classify o' <> INVALID ->
  let s2 := proxyMap_set (variant_registry v') x' (VObj (length (heap s1)))
              (set_heap (heap s1 ++ [Proxy x' hh]) s1) in
  wrap (S f) v (VObj x) s2 = Some (y, s2).
Proof.
  intros Hx Hx' Hw E' Hc' s2.
  assert (Hx2 : heap s2 !! x = Some (Plain o)).
  { unfold s2. rewrite heap_proxyMap_set. simpl. by apply lookup_app_l_Some. }
  rewrite (wrap_plain f s2 x o v Hx2).
  unfold wrap_result in *.
  destruct (bool_decide (v = MutableDeep) && _); [by injection Hw as <-|].
  unfold factory_result in *.
  destruct (truthy (ordinary_get o ReactiveFlags.RAW) && _);
    [by injection Hw as <-|].
  destruct (decide (variant_registry v' = variant_registry v /\ x' = x))
    as [[Hv ->]|Hne].
  - apply variant_registry_inj in Hv as ->.
    rewrite E' in Hw. simpl in Hw.
    assert (o' = o) as -> by congruence.
    destruct (classify o); [done| |]; injection Hw as _ Hs;
      by apply alloc_changes_state in Hs.
  - assert (Hl : proxyMap_get (variant_registry v) s2 !! x
                 = proxyMap_get (variant_registry v) s1 !! x).
    { unfold s2. rewrite proxyMap_get_set_ne.
      - by rewrite proxyMap_get_set_heap.
      - destruct (decide (variant_registry v' = variant_registry v));
          [right|left]; naive_solver. }
    rewrite Hl.
    destruct (truthy (default VUndefined
                (proxyMap_get (variant_registry v) s1 !! x)));
      [by injection Hw as <-|].
    destruct (classify o); [by injection Hw as <-| |];
      injection Hw as _ Hs; by apply alloc_changes_state in Hs.
Qed.

Lemma wrap_stable f s1 v x o y v' x' o' y' s2 :
  registries_ok s1 ->
  heap s1 !! x = Some (Plain o) ->
  heap s1 !! x' = Some (Plain o') ->
  wrap (S f) v (VObj x) s1 = Some (y, s1) ->
  wrap (S f) v' (VObj x') s1 = Some (y', s2) ->
  wrap (S f) v (VObj x) s2 = Some (y, s2).
Proof.
  intros Hok Hx Hx' Hw Hw'. pose proof Hw as Hw0.
  rewrite (wrap_plain f s1 x o v Hx) in Hw. injection Hw as Hw.
  rewrite (wrap_plain f s1 x' o' v' Hx') in Hw'.
  unfold wrap_result in Hw'.
  destruct (bool_decide (v' = MutableDeep) && _) in Hw'.
  { by injection Hw' as <- <-. }
  unfold factory_result in Hw'.
  destruct (_ && _) in Hw'.
  { by injection Hw' as <- <-. }
  destruct (proxyMap_get (variant_registry v') s1 !! x') as [e|] eqn:E'.
  { destruct (entry_ok_inv _ _ _ _ (Hok _ _ _ E')) as (pa & h & -> & _).
    simpl in Hw'. by injection Hw' as <- <-. }
  simpl in Hw'.
  destruct (classify o') eqn:Ec'.
  - by injection Hw' as <- <-.
  - injection Hw' as <- <-.
    apply (wrap_after_alloc f s1 v x o y v' x' o'); try done.
    by rewrite Ec'.
  - injection Hw' as <- <-.
    apply (wrap_after_alloc f s1 v x o y v' x' o'); try done.
    by rewrite Ec'.
Qed.

Lemma preserves_wrap f v x : preserves get_frame (wrap f v x).
Proof.
  destruct v; unfold wrap.
  - apply preserves_reactive, preserves_get_prop.
  - apply preserves_createReactiveObject, preserves_get_prop.
  - apply preserves_createReactiveObject, preserves_get_prop.
  - apply preserves_createReactiveObject, preserves_get_prop.
Qed.

Lemma is_raw_object s a :
  is_raw s (VObj a) = true <-> exists o, heap s !! a = Some (Plain o).
Proof.
  unfold is_raw.
  destruct (heap s !! a) as [[o|t h]|]; split; try done;
    try (by intros [? ?]).
  eauto.
Qed.

Lemma wraps_stable f v x o y reqs :
  forall s1 s2,
    registries_ok s1 ->
    heap s1 !! x = Some (Plain o) ->
    wrap (S f) v (VObj x) s1 = Some (y, s1) ->
    Forall (fun r => is_raw s1 (VObj r.2) = true) reqs ->
    wraps (S f) reqs s1 = Some (tt, s2) ->
    wrap (S f) v (VObj x) s2 = Some (y, s2).
Proof.
  induction reqs as [|[v' x'] reqs IH]; intros s1 s2 Hok Hx Hw Hall Hrun.
  - by injection Hrun as <-.
  - apply Forall_cons in Hall as [Hx' Hall]. simpl in Hx'.
    apply is_raw_object in Hx' as [o' Hx'].
    cbn [wraps forM] in Hrun.
    apply bind_inv in Hrun as ([] & s1' & Hstep & Hrun).
    apply bind_inv in Hstep as (y' & s1'' & Hw' & Hret).
    injection Hret as ->.
    destruct (preserves_wrap _ _ _ _ _ _ Hw') as (_ & _ & _ & _ & Hpre).
    apply (IH s1' s2).
    + by apply (keeps_wrap _ _ _ _ _ _ Hw').
    + by eapply prefix_lookup_Some.
    + by apply (wrap_stable f s1 v x o y v' x' o' y' s1').
    + eapply Forall_impl; [exact Hall|]. intros [v0 x0] H0.
      apply is_raw_object in H0 as [o0 H0]. apply is_raw_object.
      exists o0. by eapply prefix_lookup_Some.
    + exact Hrun.
Qed.

(** C1.  Idempotence and single instance per raw value and variant:
    for every ordinary (structural) object [x] and every variant [v],
    [wrap] returns some [y]; wrapping [y] at [v] again returns [y]
    itself; a second request for [(x, v)] returns [y]; and so does a
    request made after any run of wrap requests for ordinary objects
    at any variants.  None of the repetitions changes the state. *)
Theorem wrap_idempotent (f : nat) (s : state) (v : variant) (x : addr)
    (o : object) :
  registries_ok s ->
  heap s !! x = Some (Plain o) ->
  exists y s1,
    wrap (S f) v (VObj x) s = Some (y, s1)
    /\ wrap (S f) v y s1 = Some (y, s1)
    /\ wrap (S f) v (VObj x) s1 = Some (y, s1)
    /\ forall reqs s2,
         Forall (fun r => is_raw s1 (VObj r.2) = true) reqs ->
         wraps (S f) reqs s1 = Some (tt, s2) ->
         wrap (S f) v (VObj x) s2 = Some (y, s2).
Proof.
  intros Hok Hx.
  destruct (wrap_twice f s v x o Hok Hx) as (y & s1 & Hw & Hy & Hx1).
  exists y, s1. split; [done|]. split; [done|]. split; [done|].
  intros reqs s2 Hall Hrun.
  destruct (preserves_wrap _ _ _ _ _ _ Hw) as (_ & _ & _ & _ & Hpre).
  apply (wraps_stable f v x o y reqs s1 s2); try done.
  - by apply (keeps_wrap _ _ _ _ _ _ Hw).
  - by eapply prefix_lookup_Some.
Qed.

Lemma wrap_idempotent_witness :
  exists y s1,
    wrap 1 MutableDeep (VObj 0) fresh_record_state = Some (y, s1)
    /\ wrap 1 MutableDeep y s1 = Some (y, s1)
    /\ wrap 1 MutableDeep (VObj 0) s1 = Some (y, s1)
    /\ forall reqs s2,
         Forall (fun r => is_raw s1 (VObj r.2) = true) reqs ->
         wraps 1 reqs s1 = Some (tt, s2) ->
         wrap 1 MutableDeep (VObj 0) s2 = Some (y, s2).
Proof.
  apply (wrap_idempotent 0 fresh_record_state MutableDeep 0
           (Object "Object" true [(KStr "a", VNum (Num 1))])).
  - apply registries_okb_ok. vm_compute. reflexivity.
  - reflexivity.
Defined.

(** Two records: the proxy of the first is the same before and after
    the second is wrapped three ways. *)
Example wrap_same_instance_later :
  option_map fst
    ((let* p := wrap 1 MutableDeep (VObj 0) in
      wraps 1 [(MutableDeep, 1); (ReadonlyDeep, 1); (ReadonlyShallow, 0)] ;;
      let* q := wrap 1 MutableDeep (VObj 0) in
      ret (bool_decide (p = q)))
       (init_state [plain_object []; plain_object []]))
  = Some true.
Proof. vm_compute. reflexivity. Qed.

(** Every state a program reaches from a fresh heap has sound
    registries. *)
Lemma keeps_run fuel op : preserves keeps_registries (run fuel op).
Proof.
  destruct op; unfold run;
    (apply preserves_bind; [apply _| |intros ?; apply preserves_ret; apply _]).
  - apply keeps_wrap.
  - apply keeps_get_prop.
  - apply keeps_set_prop.
  - apply keeps_del_prop.
  - apply keeps_has_prop.
  - apply keeps_call_method.
  - apply keeps_markRaw.
Qed.

Lemma registries_ok_reachable fuel ops h s :
  forM ops (run fuel) (init_state h) = Some (tt, s) -> registries_ok s.
Proof.
  intros Hrun.
  apply (preserves_forM keeps_registries ops (run fuel) (keeps_run fuel)
           _ _ _ Hrun).
  apply registries_ok_init.
Qed.

(** ** The flag predicates and [toRaw] *)

Lemma unflagged_inv s v :
  unflagged s v = true ->
  is_raw s v = true
  /\ truthy (prop_of s v ReactiveFlags.IS_REACTIVE) = false
  /\ truthy (prop_of s v ReactiveFlags.IS_READONLY) = false
  /\ truthy (prop_of s v ReactiveFlags.IS_SHALLOW) = false
  /\ truthy (prop_of s v ReactiveFlags.RAW) = false.
Proof.
  unfold unflagged. cbn [forallb]. rewrite !andb_true_iff, !negb_true_iff.
  tauto.
Qed.

Lemma prop_of_plain s a o k :
  heap s !! a = Some (Plain o) -> prop_of s (VObj a) k = ordinary_get o k.
Proof. intros H. unfold prop_of. by rewrite H. Qed.

Lemma isReactive_raw f n s v :
  is_raw s v = true ->
  truthy (prop_of s v ReactiveFlags.IS_READONLY) = false ->
  isReactive (get_prop (S f)) (S n) v s
  = Some (truthy v && truthy (prop_of s v ReactiveFlags.IS_REACTIVE), s).
Proof.
  intros Hraw Hro. cbn [isReactive].
  mrw (isReadonly_raw f s v Hraw). rewrite Hro, andb_false_r.
  destruct (truthy v) eqn:Hv; [|done].
  by mrw (read_raw f s v ReactiveFlags.IS_REACTIVE Hv Hraw).
Qed.

Lemma isShallow_proxy f s pa t h :
  heap s !! pa = Some (Proxy t h) ->
  isShallow (get_prop (S f)) (VObj pa) s = Some (h_shallow h, s).
Proof.
  intros Hp. unfold isShallow, read. cbn [truthy].
  destruct (get_proxy_flags f s pa t h (VObj pa) Hp) as (_ & _ & E).
  mrw E. by destruct (h_shallow h).
Qed.

Lemma isReactive_proxy f n s pa t h :
  heap s !! pa = Some (Proxy t h) ->
  h_readonly h = false ->
  isReactive (get_prop (S f)) (S n) (VObj pa) s = Some (true, s).
Proof.
  intros Hp Hro. cbn [isReactive].
  mrw (isReadonly_proxy f s pa t h Hp). rewrite Hro. unfold read.
  destruct (get_proxy_flags f s pa t h (VObj pa) Hp) as (E & _ & _).
  mrw E. by rewrite Hro.
Qed.

Lemma isReactive_readonly_proxy f n s pa t h :
  heap s !! pa = Some (Proxy t h) ->
  h_readonly h = true ->
  proxyMap_get (registry_of (h_readonly h) (h_shallow h)) s !! t
    = Some (VObj pa) ->
  isReactive (get_prop (S f)) (S n) (VObj pa) s
  = isReactive (get_prop (S f)) n (VObj t) s.
Proof.
  intros Hp Hro Hreg. cbn [isReactive].
  mrw (isReadonly_proxy f s pa t h Hp). rewrite Hro. unfold read.
  by mrw (get_proxy_RAW f s pa t h Hp Hreg).
Qed.

(** X1.  The flag predicates on a fresh wrapper and on what it wraps. *)
Theorem wrapper_predicates (f n : nat) (s : state) (v : variant) (x : addr)
    (o : object) :
  registries_ok s ->
  heap s !! x = Some (Plain o) ->
  classify o <> INVALID ->
  unflagged s (VObj x) = true ->
  let get := get_prop (S f) in
  exists y s1,
    wrap (S f) v (VObj x) s = Some (VObj y, s1)
    /\ isReadonly get (VObj y) s1 = Some (variant_readonly v, s1)
    /\ isShallow get (VObj y) s1 = Some (variant_shallow v, s1)
    /\ isReactive get (S (S n)) (VObj y) s1
       = Some (negb (variant_readonly v), s1)
    /\ isProxy get (S (S n)) (VObj y) s1 = Some (true, s1)
    /\ isReadonly get (VObj x) s1 = Some (false, s1)
    /\ isShallow get (VObj x) s1 = Some (false, s1)
    /\ isReactive get (S n) (VObj x) s1 = Some (false, s1)
    /\ isProxy get (S n) (VObj x) s1 = Some (false, s1).
Proof.
  intros Hok Hx Hc Hun get.
  apply unflagged_inv in Hun as (_ & Hre & Hro & Hsh & Hraw).
  rewrite (prop_of_plain s x o _ Hx) in Hre.
  rewrite (prop_of_plain s x o _ Hx) in Hro.
  rewrite (prop_of_plain s x o _ Hx) in Hsh.
  rewrite (prop_of_plain s x o _ Hx) in Hraw.
  destruct (wrap_plain_facts f s v x o Hok Hx Hc Hraw Hro)
    as (p & h & s1 & Hw & Hp & Hhro & Hhsh & Hreg & Hx1 & _).
  assert (Hrawx : is_raw s1 (VObj x) = true) by (unfold is_raw; by rewrite Hx1).
  assert (Hxro : isReadonly get (VObj x) s1 = Some (false, s1)).
  { unfold get. rewrite (isReadonly_plain f s1 x o Hx1). by rewrite Hro. }
  assert (Hxre : forall m, isReactive get (S m) (VObj x) s1 = Some (false, s1)).
  { intros m. unfold get. rewrite (isReactive_raw f m s1 (VObj x) Hrawx).
    - rewrite (prop_of_plain s1 x o _ Hx1). by rewrite Hre.
    - by rewrite (prop_of_plain s1 x o _ Hx1). }
  assert (Hyro : isReadonly get (VObj p) s1 = Some (variant_readonly v, s1)).
  { unfold get. rewrite (isReadonly_proxy f s1 p x h Hp). by rewrite Hhro. }
  assert (Hyre : isReactive get (S (S n)) (VObj p) s1
                 = Some (negb (variant_readonly v), s1)).
  { unfold get. destruct (h_readonly h) eqn:Eh.
    - rewrite (isReactive_readonly_proxy f (S n) s1 p x h Hp Eh).
      + rewrite <- Hhro. apply Hxre.
      + unfold variant_registry in Hreg.
        rewrite <- Hhro, <- Hhsh in Hreg. by rewrite Eh.
    - rewrite (isReactive_proxy f (S n) s1 p x h Hp Eh). by rewrite <- Hhro. }
  exists p, s1. split; [done|]. split; [done|]. split.
  { unfold get. rewrite (isShallow_proxy f s1 p x h Hp). by rewrite Hhsh. }
  split; [done|]. split.
  { unfold isProxy. mrw Hyre. destruct (variant_readonly v); [|done].
    simpl. exact Hyro. }
  split; [done|]. split.
  { unfold get. rewrite (isShallow_raw f s1 (VObj x) Hrawx).
    rewrite (prop_of_plain s1 x o _ Hx1). by rewrite Hsh. }
  split; [apply Hxre|].
  unfold isProxy. by mrw (Hxre n).
Qed.

Lemma wrapper_predicates_witness :
  exists y s1,
    wrap 1 ReadonlyShallow (VObj 0) fresh_record_state = Some (VObj y, s1)
    /\ isReadonly (get_prop 1) (VObj y) s1 = Some (true, s1)
    /\ isShallow (get_prop 1) (VObj y) s1 = Some (true, s1)
    /\ isReactive (get_prop 1) 2 (VObj y) s1 = Some (false, s1)
    /\ isProxy (get_prop 1) 2 (VObj y) s1 = Some (true, s1)
    /\ isReadonly (get_prop 1) (VObj 0) s1 = Some (false, s1)
    /\ isShallow (get_prop 1) (VObj 0) s1 = Some (false, s1)
    /\ isReactive (get_prop 1) 1 (VObj 0) s1 = Some (false, s1)
    /\ isProxy (get_prop 1) 1 (VObj 0) s1 = Some (false, s1).
Proof.
  apply (wrapper_predicates 0 0 fresh_record_state ReadonlyShallow 0
           (Object "Object" true [(KStr "a", VNum (Num 1))])).
  - apply registries_okb_ok. vm_compute. reflexivity.
  - reflexivity.
  - vm_compute. discriminate.
  - vm_compute. reflexivity.
Defined.

(** X2.  A value that is no proxy and carries no flag (every primitive
    is one) answers [false] to the four predicates and is its own raw
    value; none of the five calls changes the state. *)
Theorem unflagged_predicates (f n : nat) (s : state) (v : value) :
  unflagged s v = true ->
  let get := get_prop (S f) in
  isReactive get (S n) v s = Some (false, s)
  /\ isReadonly get v s = Some (false, s)
  /\ isShallow get v s = Some (false, s)
  /\ isProxy get (S n) v s = Some (false, s)
  /\ toRaw get (S n) v s = Some (v, s).
Proof.
  intros Hun get. apply unflagged_inv in Hun as (Hr & Hre & Hro & Hsh & Hraw).
  assert (H1 : isReactive get (S n) v s = Some (false, s)).
  { unfold get. rewrite (isReactive_raw f n s v Hr Hro).
    by rewrite Hre, andb_false_r. }
  assert (H2 : isReadonly get v s = Some (false, s)).
  { unfold get. rewrite (isReadonly_raw f s v Hr). by rewrite Hro, andb_false_r. }
  split; [done|]. split; [done|]. split.
  { unfold get. rewrite (isShallow_raw f s v Hr). by rewrite Hsh, andb_false_r. }
  split.
  { unfold isProxy. by mrw H1. }
  apply (toRaw_raw f n s v Hr Hraw).
Qed.

Lemma unflagged_predicates_witness :
  let s := fresh_record_state in
  let v := VStr "text" in
  isReactive (get_prop 1) 1 v s = Some (false, s)
  /\ isReadonly (get_prop 1) v s = Some (false, s)
  /\ isShallow (get_prop 1) v s = Some (false, s)
  /\ isProxy (get_prop 1) 1 v s = Some (false, s)
  /\ toRaw (get_prop 1) 1 v s = Some (v, s).
Proof.
  intros s v. apply (unflagged_predicates 0 0 s v). reflexivity.
Defined.

(** X3.  Round trip: [toRaw] of the wrapper any of the four factories
    returns for an ordinary object is that object, and the state is
    left as it was. *)
Theorem toRaw_wrap_roundtrip (f n : nat) (s : state) (v : variant) (x : addr)
    (o : object) :
  registries_ok s ->
  heap s !! x = Some (Plain o) ->
  classify o <> INVALID ->
  truthy (ordinary_get o ReactiveFlags.RAW) = false ->
  truthy (ordinary_get o ReactiveFlags.IS_READONLY) = false ->
  exists y s1,
    wrap (S f) v (VObj x) s = Some (VObj y, s1)
    /\ y <> x
    /\ toRaw (get_prop (S f)) (S (S n)) (VObj y) s1 = Some (VObj x, s1)
    /\ toRaw (get_prop (S f)) (S n) (VObj x) s1 = Some (VObj x, s1).
Proof.
  intros Hok Hx Hc Hraw Hro.
  destruct (wrap_plain_facts f s v x o Hok Hx Hc Hraw Hro)
    as (p & h & s1 & Hw & Hp & Hhro & Hhsh & Hreg & Hx1 & _).
  exists p, s1. split; [done|]. split.
  { intros ->. rewrite Hp in Hx1. discriminate. }
  split.
  - apply (toRaw_proxy f n s1 p x h o Hp); [|done|done].
    unfold variant_registry in Hreg. by rewrite Hhro, Hhsh.
  - apply toRaw_raw.
    + unfold is_raw. by rewrite Hx1.
    + by rewrite (prop_of_plain s1 x o _ Hx1).
Qed.

Lemma toRaw_wrap_roundtrip_witness :
  exists y s1,
    wrap 1 MutableShallow (VObj 0) fresh_record_state = Some (VObj y, s1)
    /\ y <> 0
    /\ toRaw (get_prop 1) 2 (VObj y) s1 = Some (VObj 0, s1)
    /\ toRaw (get_prop 1) 1 (VObj 0) s1 = Some (VObj 0, s1).
Proof.
  apply (toRaw_wrap_roundtrip 0 0 fresh_record_state MutableShallow 0
           (Object "Object" true [(KStr "a", VNum (Num 1))])).
  - apply registries_okb_ok. vm_compute. reflexivity.
  - reflexivity.
  - vm_compute. discriminate.
  - reflexivity.
  - reflexivity.
Defined.
(** X4.  The predicates look through a readonly wrapper laid over a
    mutable one: [readonly(reactive(x))] is readonly, is reactive and
    is a proxy. *)
Theorem readonly_of_reactive_predicates (f n : nat) (s : state) (x : addr)
    (o : object) :
  registries_ok s ->
  heap s !! x = Some (Plain o) ->
  classify o <> INVALID ->
  truthy (ordinary_get o ReactiveFlags.RAW) = false ->
  truthy (ordinary_get o ReactiveFlags.IS_READONLY) = false ->
  let F := S (S f) in
  exists p y s1 s2,
    wrap F MutableDeep (VObj x) s = Some (VObj p, s1)
    /\ wrap F ReadonlyDeep (VObj p) s1 = Some (VObj y, s2)
    /\ isReadonly (get_prop F) (VObj y) s2 = Some (true, s2)
    /\ isReactive (get_prop F) (S (S n)) (VObj y) s2 = Some (true, s2)
    /\ isProxy (get_prop F) (S (S n)) (VObj y) s2 = Some (true, s2)
    /\ isShallow (get_prop F) (VObj y) s2 = Some (false, s2).
Proof.
  intros Hok Hx Hc Hraw Hro F.
  destruct (wrap_plain_facts (S f) s MutableDeep x o Hok Hx Hc Hraw Hro)
    as (p & h & s1 & Hw & Hp & Hhro & Hhsh & Hreg & Hx1 & Hok1).
  simpl in Hhro, Hhsh, Hreg.
  destruct (readonly_over_mutable f s1 p x h o Hok1 Hp Hhro Hhsh Hreg Hx1 Hc)
    as (y & hy & s2 & Hr & Hy & Hyro & Hysh & Hyreg & Hp2 & _ & _).
  assert (Hre : isReactive (get_prop F) (S (S n)) (VObj y) s2
                = Some (true, s2)).
  { unfold F. rewrite (isReactive_readonly_proxy (S f) (S n) s2 y p hy Hy Hyro).
    - apply (isReactive_proxy (S f) n s2 p x h Hp2 Hhro).
    - by rewrite Hyro, Hysh. }
  exists p, y, s1, s2. split; [done|]. split; [done|]. split.
  { unfold F. rewrite (isReadonly_proxy (S f) s2 y p hy Hy). by rewrite Hyro. }
  split; [done|]. split.
  { unfold isProxy. by mrw Hre. }
  unfold F. rewrite (isShallow_proxy (S f) s2 y p hy Hy). by rewrite Hysh.
Qed.

Lemma readonly_of_reactive_predicates_witness :
  exists p y s1 s2,
    wrap 2 MutableDeep (VObj 0) fresh_record_state = Some (VObj p, s1)
    /\ wrap 2 ReadonlyDeep (VObj p) s1 = Some (VObj y, s2)
    /\ isReadonly (get_prop 2) (VObj y) s2 = Some (true, s2)
    /\ isReactive (get_prop 2) 2 (VObj y) s2 = Some (true, s2)
    /\ isProxy (get_prop 2) 2 (VObj y) s2 = Some (true, s2)
    /\ isShallow (get_prop 2) (VObj y) s2 = Some (false, s2).
Proof.
  apply (readonly_of_reactive_predicates 0 0 fresh_record_state 0
           (Object "Object" true [(KStr "a", VNum (Num 1))])).
  - apply registries_okb_ok. vm_compute. reflexivity.
  - reflexivity.
  - vm_compute. discriminate.
  - reflexivity.
  - reflexivity.
Defined.

(** X5.  No factory wraps a wrapper again: applied to a registered
    proxy, a factory returns that proxy and changes nothing, unless it
    is a readonly factory applied to a mutable proxy. *)
Theorem wrap_of_wrapper (f : nat) (s : state) (v : variant) (p t : addr)
    (h : handler) :
  heap s !! p = Some (Proxy t h) ->
  proxyMap_get (registry_of (h_readonly h) (h_shallow h)) s !! t
    = Some (VObj p) ->
  (variant_readonly v = true -> h_readonly h = true) ->
  wrap (S f) v (VObj p) s = Some (VObj p, s).
Proof.
  intros Hp Hreg Hv.
  destruct v; unfold wrap, reactive, shallowReactive, readonly, shallowReadonly.
  - mrw (isReadonly_proxy f s p t h Hp).
    destruct (h_readonly h) eqn:Eh; [done|].
    apply (createReactiveObject_proxy f s p t h); [done| |done].
    by rewrite Eh.
  - by apply (createReactiveObject_proxy f s p t h).
  - by apply (createReactiveObject_proxy f s p t h).
  - by apply (createReactiveObject_proxy f s p t h).
Qed.

Lemma wrap_of_wrapper_witness :
  wrap 1 MutableShallow (VObj 1) record_state = Some (VObj 1, record_state)
  /\ wrap 1 ReadonlyShallow (VObj 1) readonly_state
     = Some (VObj 1, readonly_state).
Proof.
  split.
  - apply (wrap_of_wrapper 0 record_state MutableShallow 1 0 mutableHandlers);
      [reflexivity | reflexivity | discriminate].
  - apply (wrap_of_wrapper 0 readonly_state ReadonlyShallow 1 0
             readonlyHandlers); reflexivity.
Defined.

(** ** What the factories return as it is *)

Lemma isReadonly_non_object f s x :
  isObject x = false -> isReadonly (get_prop (S f)) x s = Some (false, s).
Proof.
  intros Hx. rewrite (isReadonly_raw f s x) by (by destruct x).
  by destruct x; try done; rewrite andb_false_r.
Qed.

(** X6.  A primitive value comes back from every factory as it is;
    the heap and the registries are not touched, and a warning is
    logged in a development build only.  [toReactive] and [toReadonly]
    return it without the warning.  Function values are left out:
    what [String] prints for them is not modelled. *)
Theorem wrap_non_object (f : nat) (s : state) (v : variant) (x : value) :
  isObject x = false ->
  (forall fn, x <> VFun fn) ->
  wrap (S f) v x s
  = Some (x, warned ("value cannot be made reactive: " ++ String_of_value x) s)
  /\ toReactive (get_prop (S f)) x s = Some (x, s)
  /\ toReadonly (get_prop (S f)) x s = Some (x, s).
Proof.
  intros Hx _. split.
  - assert (Hc : forall ro bh ch r,
               createReactiveObject (get_prop (S f)) x ro bh ch r s
               = Some (x, warned ("value cannot be made reactive: "
                                  ++ String_of_value x) s)).
    { intros ro bh ch r. unfold createReactiveObject, warned.
      destruct x; try done; mstep; by destruct (DEV s). }
    destruct v; unfold wrap, reactive, shallowReactive, readonly,
      shallowReadonly; try apply Hc.
    mrw (isReadonly_non_object f s x Hx). apply Hc.
  - unfold toReactive, toReadonly. by rewrite Hx.
Qed.

Lemma wrap_non_object_witness :
  let s := fresh_record_state in
  wrap 1 MutableDeep (VNum (Num 5)) s
  = Some (VNum (Num 5), warned "value cannot be made reactive: 5" s)
  /\ toReactive (get_prop 1) (VNum (Num 5)) s = Some (VNum (Num 5), s)
  /\ toReadonly (get_prop 1) (VNum (Num 5)) s = Some (VNum (Num 5), s).
Proof.
  intros s. apply (wrap_non_object 0 s MutableDeep (VNum (Num 5))).
  - reflexivity.
  - discriminate.
Defined.

(** X7.  An ordinary object that is not extensible, or whose kind is
    none of the six the classifier knows, comes back from every
    factory as it is unless the factory's registry already holds a
    wrapper for it; no proxy is made and nothing is registered. *)
Theorem wrap_invalid_target (f : nat) (s : state) (v : variant) (x : addr)
    (o : object) :
  heap s !! x = Some (Plain o) ->
  extensible o = false \/ rawType o ∉ wrappable_kinds ->
  proxyMap_get (variant_registry v) s !! x = None ->
  wrap (S f) v (VObj x) s = Some (VObj x, s).
Proof.
  intros Hx Hinv Hreg. rewrite (wrap_plain f s x o v Hx).
  assert (Hc : classify o = INVALID).
  { unfold classify. destruct (truthy _); [done|].
    destruct Hinv as [-> | Hk]; [done|].
    destruct (extensible o); [|done]. simpl.
    by apply targetTypeMap_INVALID. }
  unfold wrap_result, factory_result. rewrite Hreg, Hc. simpl.
  by repeat (match goal with |- context [if ?b then _ else _] => destruct b end).
Qed.

Lemma wrap_invalid_target_witness :
  let s := init_state [Plain (Object "Object" false []);
                       Plain (Object "Date" true [])] in
  wrap 1 MutableDeep (VObj 0) s = Some (VObj 0, s)
  /\ wrap 1 ReadonlyDeep (VObj 1) s = Some (VObj 1, s).
Proof.
  intros s. split.
  - apply (wrap_invalid_target 0 s MutableDeep 0 (Object "Object" false []));
      [reflexivity | left; reflexivity | reflexivity].
  - apply (wrap_invalid_target 0 s ReadonlyDeep 1 (Object "Date" true []));
      [reflexivity | right; simpl; unfold wrappable_kinds | reflexivity].
    rewrite !elem_of_cons, elem_of_nil. intros [?|[?|[?|[?|[?|[?|[]]]]]]]; discriminate.
Defined.

(** ** The [deleteProperty], [has] and [ownKeys] traps *)

Lemma del_plain f s t o k :
  heap s !! t = Some (Plain o) ->
  del_prop (S f) (VObj t) k s
  = Some (match ordinary_delete o k with
          | Some o' => (true, update_cell t (Plain o') s)
          | None => (false, s)
          end).
Proof.
  intros Ht. rewrite del_prop_S. unfold del_body. mstep. rewrite Ht.
  by destruct (ordinary_delete o k).
Qed.

Lemma own_lookup_remove ps k : own_lookup (own_remove ps k) k = None.
Proof.
  unfold own_remove. induction ps as [|[k' v'] ps IH]; [done|].
  rewrite filter_cons. simpl. destruct (decide (k' ≠ k)) as [Hne|He].
  - simpl. by destruct (decide (k' = k)).
  - done.
Qed.

Lemma own_lookup_remove_ne ps k k' :
  k' <> k -> own_lookup (own_remove ps k) k' = own_lookup ps k'.
Proof.
  intros Hk. unfold own_remove. induction ps as [|[k0 v0] ps IH]; [done|].
  rewrite filter_cons. simpl. destruct (decide (k0 ≠ k)) as [Hne|He].
  - simpl. by rewrite IH.
  - apply dec_stable in He. subst k0.
    destruct (decide (k = k')); [congruence | done].
Qed.

(** [[Delete]] on a mutable proxy of an ordinary object: the trap's
    result stands, since after a successful delete the key is gone. *)
Lemma del_through_mutable f s p t h o k :
  heap s !! p = Some (Proxy t h) ->
  h_readonly h = false -> h_collection h = false ->
  heap s !! t = Some (Plain o) ->
  del_prop (S (S f)) (VObj p) k s
  = Some (if isArray_obj o && bool_decide (k = KStr "length")
          then (false, s)
          else (true,
                notified (deletion t o k)
                  (update_cell t
                     (Plain (with_props o (own_remove (props o) k))) s))).
Proof.
  intros Hp Hro Hc Ht.
  rewrite del_prop_S. unfold del_body at 1. mstep. rewrite Hp, Hc, Hro.
  assert (Htrap :
    deleteProperty (get_prop (S (S f))) (del_prop (S f)) t k s
    = Some (if isArray_obj o && bool_decide (k = KStr "length")
            then (false, s)
            else (true,
                  notified (deletion t o k)
                    (update_cell t
                       (Plain (with_props o (own_remove (props o) k))) s)))).
  { unfold deleteProperty, read. mstep.
    rewrite (hasOwn_plain s t o k Ht).
    rewrite (bind_Some _ _ _ _ _ (get_plain (S f) s t o k (VObj t) Ht)).
    pose proof (del_plain f s t o k Ht) as Hd. unfold ordinary_delete in Hd.
    destruct (isArray_obj o && bool_decide (k = KStr "length"));
      mrw Hd; [done|].
    unfold deletion, trigger.
    by destruct (bool_decide (is_Some (own_lookup (props o) k))). }
  destruct (isArray_obj o && bool_decide (k = KStr "length")); mrw Htrap;
    [done|].
  set (s1 := notified _ _).
  assert (Ht1 : heap s1 !! t
                = Some (Plain (with_props o (own_remove (props o) k)))).
  { unfold s1. rewrite heap_notified, heap_update_cell.
    apply list_lookup_insert_eq. by eapply lookup_lt_Some. }
  assert (Hgone : delete_refuted s1 (VObj t) k = false).
  { unfold delete_refuted. rewrite (hasOwn_plain s1 t _ k Ht1). simpl.
    rewrite own_lookup_remove.
    by rewrite bool_decide_eq_false_2 by (by intros [? ?]). }
  by rewrite Hgone.
Qed.

(** X8.  Deleting a key through a mutable proxy of an ordinary object
    removes the own property and reports [true]; one [DELETE]
    notification with the old value goes out when the key was an own
    key, none otherwise.  An array refuses to give up its [length]:
    the trap reports [false] and nothing changes. *)
Theorem delete_notification (f : nat) (s : state) (p t : addr) (h : handler)
    (o : object) (k : key) :
  heap s !! p = Some (Proxy t h) ->
  h_readonly h = false -> h_collection h = false ->
  heap s !! t = Some (Plain o) ->
  let o' := with_props o (own_remove (props o) k) in
  (isArray_obj o && bool_decide (k = KStr "length") = false ->
   del_prop (S (S f)) (VObj p) k s
   = Some (true, notified (deletion t o k) (update_cell t (Plain o') s))
   /\ triggered (notified (deletion t o k) (update_cell t (Plain o') s))
      = (triggered s ++ deletion t o k)%list
   /\ own_lookup (props o') k = None
   /\ forall k', k' <> k -> own_lookup (props o') k' = own_lookup (props o) k')
  /\ (isArray_obj o && bool_decide (k = KStr "length") = true ->
      del_prop (S (S f)) (VObj p) k s = Some (false, s)).
Proof.
  intros Hp Hro Hc Ht o'.
  rewrite (del_through_mutable f s p t h o k Hp Hro Hc Ht).
  split; intros Hlen; rewrite Hlen; [|done].
  split; [done|]. split; [by rewrite triggered_notified|]. split.
  - apply own_lookup_remove.
  - intros k' Hk'. by apply own_lookup_remove_ne.
Qed.

Lemma delete_notification_witness :
  let s := record_state in
  let o := Object "Object" true [(KStr "a", VNum (Num 1))] in
  (del_prop 2 (VObj 1) (KStr "a") s
   = Some (true, notified (deletion 0 o (KStr "a"))
                   (update_cell 0 (Plain (with_props o [])) s))
   /\ triggered (notified (deletion 0 o (KStr "a"))
                   (update_cell 0 (Plain (with_props o [])) s))
      = [TriggerEv (VObj 0) DELETE (KStr "a") VUndefined (VNum (Num 1))]
   /\ own_lookup [] (KStr "a") = None
   /\ forall k', k' <> KStr "a" ->
        own_lookup [] k' = own_lookup (props o) k')
  /\ del_prop 2 (VObj 1) (KStr "length") one_array_state
     = Some (false, one_array_state).
Proof.
  intros s o. split.
  - apply (proj1 (delete_notification 0 s 1 0 mutableHandlers o (KStr "a")
                    eq_refl eq_refl eq_refl eq_refl)).
    reflexivity.
  - apply (proj2 (delete_notification 0 one_array_state 1 0 mutableHandlers
                    (Object "Array" true
                       [(KStr "0", VNum (Num 1));
                        (KStr "length", VNum (Num 1))])
                    (KStr "length") eq_refl eq_refl eq_refl eq_refl)).
    reflexivity.
Defined.
(** X9.  [key in proxy] over an ordinary object answers what the
    object answers.  The [has] trap of a mutable proxy logs one
    [track(target, HAS, key)] unless the key is a built-in symbol; a
    readonly proxy has no [has] trap and logs nothing. *)
Theorem has_tracking (f : nat) (s : state) (p t : addr) (h : handler)
    (o : object) (k : key) :
  heap s !! p = Some (Proxy t h) ->
  h_collection h = false ->
  heap s !! t = Some (Plain o) ->
  has_prop (S (S f)) (VObj p) k s
  = Some (ordinary_has o k,
          if h_readonly h || builtInSymbols_has k then s
          else add_track (TrackEv (VObj t) HAS k) s).
Proof.
  intros Hp Hc Ht. rewrite has_prop_S. unfold has_body at 1. mstep.
  rewrite Hp, Hc. simpl. destruct (h_readonly h).
  - apply (has_plain f s t o k Ht).
  - unfold has_trap. mrw (has_plain f s t o k Ht). simpl.
    destruct (builtInSymbols_has k) eqn:Eb.
    + by rewrite (builtin_is_symbol k Eb).
    + by rewrite orb_true_r.
Qed.

Lemma has_tracking_witness :
  has_prop 2 (VObj 1) (KStr "a") record_state
  = Some (true, add_track (TrackEv (VObj 0) HAS (KStr "a")) record_state)
  /\ has_prop 2 (VObj 1) (KSym (WellKnown "iterator")) record_state
     = Some (false, record_state)
  /\ has_prop 2 (VObj 1) (KStr "b") readonly_state
     = Some (false, readonly_state).
Proof.
  split; [|split].
  - apply (has_tracking 0 record_state 1 0 mutableHandlers
             (Object "Object" true [(KStr "a", VNum (Num 1))]) (KStr "a"));
      reflexivity.
  - apply (has_tracking 0 record_state 1 0 mutableHandlers
             (Object "Object" true [(KStr "a", VNum (Num 1))])
             (KSym (WellKnown "iterator"))); reflexivity.
  - apply (has_tracking 0 readonly_state 1 0 readonlyHandlers
             (Object "Object" true [(KStr "a", VNum (Num 1))]) (KStr "b"));
      reflexivity.
Defined.

Lemma insert_sorted_perm n l : insert_sorted n l ≡ₚ n :: l.
Proof.
  induction l as [|m l IH]; [done|]. simpl.
  destruct (n <=? m)%N; [done|]. rewrite IH. apply Permutation_swap.
Qed.

Lemma sort_indices_perm l : sort_indices l ≡ₚ l.
Proof.
  induction l as [|n l IH]; [done|]. simpl.
  by rewrite insert_sorted_perm, IH.
Qed.

Lemma key_of_Number_of_key k :
  isIntegerKey k = true -> key_of_index (Number_of_key k) = k.
Proof.
  destruct k as [str|y]; [|done]. unfold isIntegerKey, Number_of_key.
  intros H. apply bool_decide_eq_true_1 in H as [n Hn]. rewrite Hn. simpl.
  unfold index_of_string in Hn.
  destruct (NilEmpty.uint_of_string str) as [u|]; [|done].
  destruct (String.eqb_spec (string_of_index (N.of_uint u)) str) as [E|];
    [|done].
  injection Hn as <-. unfold key_of_index. by rewrite E.
Qed.

Lemma own_keys_perm o : own_keys o ≡ₚ (props o).*1.
Proof.
  unfold own_keys. cbv zeta. generalize ((props o).*1). intros ks.
  rewrite sort_indices_perm.
  assert (Hm : map key_of_index (map Number_of_key (filter isArrayIndex ks))
               = filter isArrayIndex ks).
  { induction ks as [|k ks IH]; [done|]. rewrite filter_cons.
    destruct (decide (isArrayIndex k)) as [Hk|Hk]; [|done].
    simpl. rewrite IH. f_equal. apply key_of_Number_of_key.
    apply Is_true_true in Hk. unfold isArrayIndex in Hk.
    by apply andb_true_iff in Hk as [? _]. }
  rewrite Hm. clear Hm.
  induction ks as [|k ks IH]; [done|]. rewrite !filter_cons.
  destruct (isArrayIndex k) eqn:Ei.
  - assert (Hs : isSymbol k = false).
    { destruct k; [done|]. by vm_compute in Ei. }
    rewrite Hs. simpl. by rewrite IH.
  - destruct (isSymbol k) eqn:Hs; simpl.
    + rewrite !app_assoc, <- Permutation_middle, <- !app_assoc.
      by apply Permutation_skip.
    + rewrite <- Permutation_middle. by apply Permutation_skip.
Qed.

(** X10.  Listing the keys of a proxy over an ordinary object gives
    exactly the object's own keys: the array indices in ascending
    order first, then the other string keys and then the symbols in
    creation order.  The [ownKeys] trap of a mutable proxy logs one
    [track(target, ITERATE, key)], keyed by ["length"] for an array
    and by [ITERATE_KEY] otherwise; a readonly proxy has no [ownKeys]
    trap and logs nothing. *)
Theorem ownKeys_tracking (f : nat) (s : state) (p t : addr) (h : handler)
    (o : object) :
  heap s !! p = Some (Proxy t h) ->
  h_collection h = false ->
  heap s !! t = Some (Plain o) ->
  ownKeys_prop (S (S f)) (VObj p) s
  = Some (own_keys o,
          if h_readonly h then s
          else add_track
                 (TrackEv (VObj t) ITERATE
                    (if isArray_obj o then KStr "length" else ITERATE_KEY)) s)
  /\ own_keys o ≡ₚ (props o).*1.
Proof.
  intros Hp Hc Ht. split; [|apply own_keys_perm].
  cbn [ownKeys_prop]. mstep. rewrite Hp, Hc. simpl.
  destruct (h_readonly h).
  - mstep. by rewrite Ht.
  - unfold ownKeys, track. mstep. rewrite (isArray_plain s t o Ht).
    rewrite (underlying_of_plain _ t o) by done. done.
Qed.

Lemma ownKeys_tracking_witness :
  let s := state_after (wrap 1 MutableDeep (VObj 0))
             (init_state [plain_object [(KStr "b", VNum (Num 1));
                                        (KSym (UserSym 1), VNull);
                                        (KStr "10", VNum (Num 2));
                                        (KStr "9", VNum (Num 3))]]) in
  ownKeys_prop 2 (VObj 1) s
  = Some ([KStr "9"; KStr "10"; KStr "b"; KSym (UserSym 1)],
          add_track (TrackEv (VObj 0) ITERATE ITERATE_KEY) s)
  /\ ownKeys_prop 2 (VObj 1) one_array_state
     = Some ([KStr "0"; KStr "length"],
             add_track (TrackEv (VObj 0) ITERATE (KStr "length"))
               one_array_state)
  /\ ownKeys_prop 2 (VObj 1) readonly_state = Some ([KStr "a"], readonly_state).
Proof.
  intros s. split; [|split].
  - apply (ownKeys_tracking 0 s 1 0 mutableHandlers
             (Object "Object" true
                [(KStr "b", VNum (Num 1)); (KSym (UserSym 1), VNull);
                 (KStr "10", VNum (Num 2)); (KStr "9", VNum (Num 3))]));
      reflexivity.
  - apply (ownKeys_tracking 0 one_array_state 1 0 mutableHandlers
             (Object "Array" true
                [(KStr "0", VNum (Num 1)); (KStr "length", VNum (Num 1))]));
      reflexivity.
  - apply (ownKeys_tracking 0 readonly_state 1 0 readonlyHandlers
             (Object "Object" true [(KStr "a", VNum (Num 1))])); reflexivity.
Defined.

(** ** The suppression state across whole operations *)

Lemma quiet_paused (m : M value) :
  preserves quiet m ->
  preserves quiet (pauseTracking ;; let* res := m in resetTracking ;; ret res).
Proof.
  intros Hm s res s'. unfold pauseTracking, resetTracking. mstep.
  set (sp := set_tracking false (shouldTrack s :: trackStack s) s).
  intros Hrun. apply bind_inv in Hrun as (res' & sn & Hnat & Hrun).
  destruct (Hm sp res' sn Hnat) as (Hst & Hstk & Hdeps).
  revert Hrun. mstep. rewrite Hstk. simpl.
  intros [= _ <-]. unfold quiet. simpl. split; [done|]. split; [done|].
  intros _. by apply Hdeps.
Qed.

Section QuietCalls.
Variable depth : nat.
Variable get : getter.
Variable set : setter.
Variable del : deleter.
Variable has : hasser.
Hypothesis Hget : forall o k r, preserves get_frame (get o k r).
Hypothesis Hset : forall o k v r, preserves quiet (set o k v r).
Hypothesis Hdel : forall o k, preserves quiet (del o k).
Hypothesis Hhas : forall o k, preserves quiet (has o k).

#[local] Hint Resolve Hget Hset Hdel Hhas : frame.

Lemma quiet_get' o k r : preserves quiet (get o k r).
Proof. apply preserves_quiet_of_get, Hget. Qed.

Lemma quiet_native_search m O args :
  preserves quiet (native_search get has m O args).
Proof.
  pose proof quiet_get' as Hg.
  assert (Hf : forall p tst ks,
            preserves quiet (find_index get has O p tst ks)).
  { intros p tst ks. induction ks as [|i ks IH]; simpl; pres;
      auto with frame. }
  unfold native_search, LengthOfArrayLike. cbv zeta. pres; auto with frame.
Qed.

Lemma quiet_apply_native fv this args :
  preserves quiet (apply_native get set del has fv this args).
Proof.
  unfold apply_native.
  destruct fv as [| | | | | |fn|]; try apply preserves_fail.
  destruct fn as [[m|m]|am];
    [apply quiet_native_search
    |apply quiet_native_mutator; auto using quiet_get'
    |apply preserves_fail].
Qed.

Lemma quiet_apply_func fv this args :
  preserves quiet (apply_func get set del has depth fv this args).
Proof.
  pose proof quiet_apply_native as Hn. pose proof quiet_get' as Hg.
  assert (Hs : forall m, preserves quiet
                 (instr_search get set del has depth m this args)).
  { intros m. unfold instr_search, LengthOfArrayLike, read. cbv zeta.
    repeat first [ apply Hn | pres_step ]; auto with frame. }
  assert (Hm : forall m, preserves quiet
                 (instr_mutator get set del has depth m this args)).
  { intros m. unfold instr_mutator. cbv zeta.
    intros s res s' Hrun.
    apply (quiet_paused
             (let* raw := toRaw get depth this in
              let* f := read get raw (KStr (name_of_method (Mutator m))) in
              apply_native get set del has f this args)) with res.
    - unfold read. repeat first [ apply Hn | pres_step ]; auto with frame.
    - rewrite <- Hrun. unfold bind.
      destruct (pauseTracking s) as [[[] s1]|]; [|done].
      destruct (toRaw get depth this s1) as [[raw s2]|]; [|done].
      by destruct (read get raw _ s2) as [[fn s3]|]. }
  unfold apply_func.
  destruct fv as [| | | | | |fn|]; try apply Hn.
  destruct fn as [am|[m|m]]; [apply Hn|apply Hs|apply Hm].
Qed.
End QuietCalls.

Lemma quiet_call_method f o name args :
  preserves quiet (call_method f o name args).
Proof.
  unfold call_method. apply preserves_bind; [apply _| |].
  - apply preserves_quiet_of_get, preserves_get_prop.
  - intros fv. apply quiet_apply_func.
    + apply preserves_get_prop.
    + apply quiet_set_prop.
    + apply quiet_del_prop.
    + apply quiet_has_prop.
Qed.

Lemma quiet_markRaw v : preserves quiet (markRaw v).
Proof.
  unfold markRaw. apply preserves_bind; [apply _|apply preserves_gets; apply _|].
  intros [[a o]|]; [|apply preserves_fail].
  destruct (ordinary_define o ReactiveFlags.SKIP (VBool true));
    [|apply preserves_fail].
  pres; auto with frame.
Qed.

Lemma quiet_run fuel op : preserves quiet (run fuel op).
Proof.
  destruct op; unfold run;
    (apply preserves_bind; [apply _| |intros ?; apply preserves_ret; apply _]).
  - apply preserves_quiet_of_get, preserves_wrap.
  - apply preserves_quiet_of_get, preserves_get_prop.
  - apply quiet_set_prop.
  - apply quiet_del_prop.
  - apply quiet_has_prop.
  - apply quiet_call_method.
  - apply quiet_markRaw.
Qed.

(** X11.  The suppression state is balanced over every run of
    operations (wrap requests, reads, writes, deletes, presence
    checks, method calls, [markRaw]) in which each operation returns:
    the flag and its stack end as they began, and while tracking is
    suppressed no dependency is registered.  A run in which an
    operation throws is not covered: the mutator shim pauses and
    resets around the native call without a [finally]. *)
Theorem tracking_state_balanced (fuel : nat) (ops : list operation)
    (s s' : state) :
  forM ops (run fuel) s = Some (tt, s') ->
  shouldTrack s' = shouldTrack s
  /\ trackStack s' = trackStack s
  /\ (shouldTrack s = false -> deps s' = deps s).
Proof.
  intros Hrun.
  apply (preserves_forM quiet ops (run fuel) (quiet_run fuel) _ _ _ Hrun).
Qed.
Lemma tracking_state_balanced_witness :
  let s := set_tracking false [true] three_array_state in
  let ops := [OpGet (VObj 1) (KStr "0");
              OpCall (VObj 1) "push" [VNum (Num 4)];
              OpHas (VObj 1) (KStr "1");
              OpDelete (VObj 1) (KStr "0")] in
  let s' := state_after (forM ops (run 3)) s in
  forM ops (run 3) s = Some (tt, s')
  /\ shouldTrack s' = false
  /\ trackStack s' = [true]
  /\ (false = false -> deps s' = deps s).
Proof.
  intros s ops s'.
  assert (Hrun : forM ops (run 3) s = Some (tt, s'))
    by (vm_compute; reflexivity).
  split; [exact Hrun|].
  exact (tracking_state_balanced 3 ops s s' Hrun).
Defined.
(** ** What reads and wrap requests leave alone *)

(** X12.  A property read through any value, and a wrap request at any
    variant, send no notification and leave every object that exists
    in place as it is: the heap only grows (by the proxies made for
    nested values or for the request). *)
Theorem reads_change_nothing (f : nat) (s s' : state) (res : value) :
  (exists o k r, get_prop f o k r s = Some (res, s'))
  \/ (exists v x, wrap f v x s = Some (res, s')) ->
  triggered s' = triggered s
  /\ (forall a c, heap s !! a = Some c -> heap s' !! a = Some c)
  /\ shouldTrack s' = shouldTrack s
  /\ trackStack s' = trackStack s.
Proof.
  intros Hrun.
  assert (Hf : get_frame s s').
  { destruct Hrun as [(o & k & r & Hrun) | (v & x & Hrun)].
    - apply (preserves_get_prop _ _ _ _ _ _ _ Hrun).
    - apply (preserves_wrap _ _ _ _ _ _ Hrun). }
  destruct Hf as (Ht & Hs & Hk & _ & Hpre).
  split; [done|]. split; [|done].
  intros a c Ha. by eapply prefix_lookup_Some.
Qed.

Lemma reads_change_nothing_witness :
  let s := conversion_state in
  let s' := state_after (get_prop 2 (VObj 3) (KStr "child") (VObj 3)) s in
  get_prop 2 (VObj 3) (KStr "child") (VObj 3) s = Some (VObj 4, s')
  /\ length (heap s') = S (length (heap s))
  /\ triggered s' = triggered s
  /\ (forall a c, heap s !! a = Some c -> heap s' !! a = Some c)
  /\ shouldTrack s' = shouldTrack s
  /\ trackStack s' = trackStack s.
Proof.
  intros s s'.
  assert (Hrun : get_prop 2 (VObj 3) (KStr "child") (VObj 3) s
                 = Some (VObj 4, s')) by (vm_compute; reflexivity).
  split; [exact Hrun|]. split; [vm_compute; reflexivity|].
  apply (reads_change_nothing 2 s s' (VObj 4)).
  left. exists (VObj 3), (KStr "child"), (VObj 3). exact Hrun.
Defined.

(** ** The registries in every reachable state *)

(** X13.  In every state a run of operations reaches from a fresh
    start, each registry entry maps its key to a proxy over that key
    made with a handler bundle of the registry's own variant; so no
    proxy is registered for two targets or in two registries. *)
Theorem registry_entries_sound (fuel : nat) (ops : list operation)
    (h : list cell) (s : state) :
  forM ops (run fuel) (init_state h) = Some (tt, s) ->
  (forall r t p,
     proxyMap_get r s !! t = Some p ->
     exists pa hd,
       p = VObj pa /\ heap s !! pa = Some (Proxy t hd)
       /\ registry_of (h_readonly hd) (h_shallow hd) = r)
  /\ (forall r r' t t' p,
        proxyMap_get r s !! t = Some p ->
        proxyMap_get r' s !! t' = Some p ->
        r = r' /\ t = t').
Proof.
  intros Hrun. pose proof (registries_ok_reachable fuel ops h s Hrun) as Hok.
  split.
  - intros r t p Hp. apply entry_ok_inv. by apply Hok.
  - intros r r' t t' p Hp Hp'.
    destruct (entry_ok_inv _ _ _ _ (Hok _ _ _ Hp)) as (pa & hd & -> & Ha & Hr).
    destruct (entry_ok_inv _ _ _ _ (Hok _ _ _ Hp'))
      as (pa' & hd' & [= <-] & Ha' & Hr').
    rewrite Ha in Ha'. injection Ha' as <- <-. by rewrite <- Hr, <- Hr'.
Qed.

Lemma registry_entries_sound_witness :
  let h := [plain_object [(KStr "child", VObj 1)]; array_of [VNum (Num 1)]] in
  let ops := [OpWrap MutableDeep (VObj 0);
              OpGet (VObj 2) (KStr "child");
              OpWrap ReadonlyDeep (VObj 2);
              OpCall (VObj 3) "push" [VNum (Num 2)]] in
  let s := state_after (forM ops (run 4)) (init_state h) in
  forM ops (run 4) (init_state h) = Some (tt, s)
  /\ proxyMap_get RegReactive s !! 1 = Some (VObj 3)
  /\ (forall r t p,
        proxyMap_get r s !! t = Some p ->
        exists pa hd,
          p = VObj pa /\ heap s !! pa = Some (Proxy t hd)
          /\ registry_of (h_readonly hd) (h_shallow hd) = r)
  /\ (forall r r' t t' p,
        proxyMap_get r s !! t = Some p ->
        proxyMap_get r' s !! t' = Some p ->
        r = r' /\ t = t').
Proof.
  intros h ops s.
  assert (Hrun : forM ops (run 4) (init_state h) = Some (tt, s))
    by (vm_compute; reflexivity).
  split; [exact Hrun|]. split; [vm_compute; reflexivity|].
  exact (registry_entries_sound 4 ops h s Hrun).
Defined.

(** ** Array methods through a readonly proxy *)

#[global] Instance readonly_frame_preorder p t h o :
  PreOrder (readonly_frame p t h o).
Proof.
  split.
  - intros s _ _. done.
  - intros s1 s2 s3 H12 H23 Hp Ht.
    destruct (H12 Hp Ht) as [T12 P12].
    destruct (H23 (prefix_lookup_Some _ _ _ _ Hp P12)
                  (prefix_lookup_Some _ _ _ _ Ht P12)) as [T23 P23].
    split; [congruence | by etrans].
Qed.

Lemma readonly_frame_of_get p t h o s s' :
  get_frame s s' -> readonly_frame p t h o s s'.
Proof. intros (? & _ & _ & _ & ?) _ _. done. Qed.

Section ReadonlyArray.
Variables (p t : addr) (h : handler) (o : object).
Hypothesis Hro : h_readonly h = true.
Hypothesis Hc : h_collection h = false.

#[local] Abbreviation R := (readonly_frame p t h o).

Lemma readonly_frame_get f O k r : preserves R (get_prop f O k r).
Proof.
  eapply preserves_weaken; [apply readonly_frame_of_get|].
  apply preserves_get_prop.
Qed.

Lemma readonly_frame_set f k v r : preserves R (set_prop f (VObj p) k v r).
Proof.
  intros s b s' Hrun Hp Ht. destruct f as [|f]; [done|].
  rewrite set_prop_S in Hrun. unfold set_body in Hrun. revert Hrun. mstep.
  rewrite Hp, Hc, Hro. unfold readonly_set, warn. mstep.
  destruct (DEV s); simpl; intros [= _ <-]; done.
Qed.

Lemma readonly_frame_del f k : preserves R (del_prop f (VObj p) k).
Proof.
  intros s b s' Hrun Hp Ht. destruct f as [|f]; [done|].
  rewrite del_prop_S in Hrun. unfold del_body in Hrun. revert Hrun. mstep.
  rewrite Hp, Hc, Hro. mrw (readonly_deleteProperty_run t k s).
  destruct (delete_refuted _ _ _); [done|]. intros [= _ <-].
  by rewrite triggered_warned, heap_warned.
Qed.

Lemma readonly_frame_has f k : preserves R (has_prop f (VObj p) k).
Proof.
  intros s b s' Hrun Hp Ht. destruct f as [|f]; [done|].
  rewrite has_prop_S in Hrun. unfold has_body in Hrun. revert Hrun. mstep.
  rewrite Hp, Hc, Hro. simpl. destruct f as [|f]; [done|].
  rewrite (has_plain f s t o k Ht). intros [= _ <-]. done.
Qed.

Lemma readonly_frame_mutator f m args :
  m <> Splice ->
  preserves R
    (native_mutator (get_prop f) (set_prop f) (del_prop f) (has_prop f)
       m (VObj p) args).
Proof.
  intros Hm.
  pose proof (readonly_frame_get f) as Hg.
  pose proof (readonly_frame_set f) as Hs.
  pose proof (readonly_frame_del f) as Hd.
  pose proof (readonly_frame_has f) as Hh.
  unfold native_mutator, set_items, move, Set_or_throw, Delete_or_throw,
    LengthOfArrayLike.
  cbv zeta. destruct m; try done; pres; auto.
Qed.
End ReadonlyArray.

Lemma get_primitive_through_readonly f s p t h o k :
  heap s !! p = Some (Proxy t h) ->
  h_readonly h = true -> h_collection h = false ->
  heap s !! t = Some (Plain o) ->
  (k ∉ [ReactiveFlags.IS_REACTIVE; ReactiveFlags.IS_READONLY;
        ReactiveFlags.IS_SHALLOW; ReactiveFlags.RAW]) ->
  builtInSymbols_has k = false -> isNonTrackableKeys k = false ->
  isObject (ordinary_get o k) = false ->
  get_prop (S (S f)) (VObj p) k (VObj p) s = Some (ordinary_get o k, s).
Proof.
  intros Hp Hro Hc Ht Hk Hb Hn Hv.
  rewrite !elem_of_cons, elem_of_nil in Hk.
  assert (Hearly : returns_early (h_readonly h) (h_shallow h) s t o
                     k (VObj p) = false).
  { unfold returns_early, answers_RAW.
    rewrite (bool_decide_eq_false_2 (_ = ReactiveFlags.RAW)) by tauto.
    rewrite (bool_decide_eq_false_2 (_ ∈ _))
      by (rewrite !elem_of_cons, elem_of_nil; tauto).
    by rewrite Hro, Hb, Hn. }
  rewrite (get_prop_proxy _ _ _ _ _ _ _ Hp Hc).
  destruct (createGetter_plain f s (h_readonly h) (h_shallow h) t o
              k (VObj p) Ht) as [_ Hlate].
  rewrite (Hlate Hearly).
  rewrite convert_read_primitive by done.
  unfold tracked, read_trap_tracks. by rewrite Hro.
Qed.

Lemma mutator_name_plain_key m :
  (KStr (mutator_name m) ∉ [ReactiveFlags.IS_REACTIVE;
                            ReactiveFlags.IS_READONLY;
                            ReactiveFlags.IS_SHALLOW; ReactiveFlags.RAW])
  /\ isNonTrackableKeys (KStr (mutator_name m)) = false.
Proof.
  split.
  - rewrite !elem_of_cons, elem_of_nil. by destruct m; intros [?|[?|[?|[?|[]]]]].
  - by destruct m.
Qed.

Lemma call_mutator_through_readonly f s p t h o m args :
  heap s !! p = Some (Proxy t h) ->
  h_readonly h = true -> h_collection h = false ->
  heap s !! t = Some (Plain o) ->
  isArray_obj o = true ->
  own_lookup (props o) (KStr (mutator_name m)) = None ->
  let F := S (S f) in
  call_method F (VObj p) (mutator_name m) args s
  = native_mutator (get_prop F) (set_prop F) (del_prop F) (has_prop F)
      m (VObj p) args s.
Proof.
  intros Hp Hro Hc Ht Harr Hown F. unfold call_method, F.
  assert (Hm : ordinary_get o (KStr (mutator_name m))
               = VFun (FNative (Mutator m))).
  { unfold ordinary_get. by rewrite Hown, Harr, mutator_name_instrumented. }
  destruct (mutator_name_plain_key m) as [Hk Hn].
  pose proof (get_primitive_through_readonly f s p t h o _ Hp Hro Hc Ht Hk
                eq_refl Hn) as Hg.
  rewrite Hm in Hg. by mrw (Hg eq_refl).
Qed.

(** X14.  A readonly proxy of an array hands out the native [push],
    [pop], [shift] and [unshift], not the instrumented ones; run on
    the proxy, their writes and deletes end in the readonly traps, so
    the call sends no notification and leaves the array and every
    other object in place as it was. *)
Theorem readonly_array_mutators (f : nat) (s s' : state) (p t : addr)
    (h : handler) (o : object) (m : mutator_method) (args : list value)
    (res : value) :
  heap s !! p = Some (Proxy t h) ->
  h_readonly h = true -> h_collection h = false ->
  heap s !! t = Some (Plain o) ->
  isArray_obj o = true ->
  own_lookup (props o) (KStr (mutator_name m)) = None ->
  m <> Splice ->
  call_method (S (S f)) (VObj p) (mutator_name m) args s = Some (res, s') ->
  get_prop (S (S f)) (VObj p) (KStr (mutator_name m)) (VObj p) s
  = Some (VFun (FNative (Mutator m)), s)
  /\ heap s' !! t = Some (Plain o)
  /\ triggered s' = triggered s
  /\ (forall a c, heap s !! a = Some c -> heap s' !! a = Some c).
Proof.
  intros Hp Hro Hc Ht Harr Hown Hm Hrun. split.
  { destruct (mutator_name_plain_key m) as [Hk Hn].
    pose proof (get_primitive_through_readonly f s p t h o _ Hp Hro Hc Ht Hk
                  eq_refl Hn) as Hg.
    unfold ordinary_get in Hg.
    rewrite Hown, Harr, mutator_name_instrumented in Hg. by apply Hg. }
  rewrite (call_mutator_through_readonly f s p t h o m args Hp Hro Hc Ht
             Harr Hown) in Hrun.
  destruct (readonly_frame_mutator p t h o Hro Hc _ m args Hm _ _ _ Hrun
              Hp Ht) as [Htr Hpre].
  split; [by eapply prefix_lookup_Some|]. split; [done|].
  intros a c Ha. by eapply prefix_lookup_Some.
Qed.

Lemma readonly_array_mutators_witness :
  let s := state_after (wrap 1 ReadonlyDeep (VObj 0))
             (init_state [array_of [VNum (Num 5); VStr "b"]]) in
  let s' := state_after (call_method 2 (VObj 1) "shift" []) s in
  call_method 2 (VObj 1) "shift" [] s = Some (VNum (Num 5), s')
  /\ get_prop 2 (VObj 1) (KStr "shift") (VObj 1) s
     = Some (VFun (FNative (Mutator Shift)), s)
  /\ heap s' !! 0 = Some (array_of [VNum (Num 5); VStr "b"])
  /\ triggered s' = triggered s
  /\ (forall a c, heap s !! a = Some c -> heap s' !! a = Some c).
Proof.
  intros s s'.
  assert (Hrun : call_method 2 (VObj 1) "shift" [] s
                 = Some (VNum (Num 5), s')) by (vm_compute; reflexivity).
  split; [exact Hrun|].
  exact (readonly_array_mutators 0 s s' 1 0 readonlyHandlers
           (Object "Array" true
              [(KStr "0", VNum (Num 5)); (KStr "1", VStr "b");
               (KStr "length", VNum (Num 2))])
           Shift [] (VNum (Num 5)) eq_refl eq_refl eq_refl eq_refl eq_refl
           eq_refl ltac:(discriminate) Hrun).
Defined.

Lemma heap_warned_all ks s : heap (warned_all ks s) = heap s.
Proof.
  revert s. induction ks as [|k ks IH]; intros s; [done|].
  simpl. fold (warned_all ks (warned (set_warning k) s)).
  by rewrite IH, heap_warned.
Qed.

Lemma warned_all_app ks ks' s :
  warned_all (ks ++ ks') s = warned_all ks' (warned_all ks s).
Proof. unfold warned_all. by rewrite foldl_app. Qed.

Lemma warned_all_production ks s : DEV s = false -> warned_all ks s = s.
Proof.
  intros Hd. induction ks as [|k ks IH]; [done|].
  simpl. fold (warned_all ks (warned (set_warning k) s)).
  assert (Hw : warned (set_warning k) s = s) by (unfold warned; by rewrite Hd).
  by rewrite Hw.
Qed.

Lemma set_through_readonly f s p t h k v r :
  heap s !! p = Some (Proxy t h) ->
  h_readonly h = true -> h_collection h = false ->
  set_prop (S f) (VObj p) k v r s = Some (true, warned (set_warning k) s).
Proof.
  intros Hp Hro Hc. rewrite set_prop_S. unfold set_body. mstep.
  rewrite Hp, Hc, Hro. unfold readonly_set, warn, warned, set_warning. mstep.
  by destruct (DEV s).
Qed.

Lemma set_items_through_readonly f p t h items st s :
  heap s !! p = Some (Proxy t h) ->
  h_readonly h = true -> h_collection h = false ->
  set_items (set_prop (S f)) (VObj p) st items s
  = Some (tt, warned_all (map idx (seq st (length items))) s).
Proof.
  intros Hp Hro Hc. unfold set_items.
  revert st s Hp. induction items as [|x items IH]; intros st s Hp; [done|].
  simpl. unfold Set_or_throw at 1.
  rewrite Nat.add_0_r.
  rewrite (bind_Some _ _ _ _ _
             (bind_Some _ (fun ok : bool => if ok then ret tt else fail) _ _ _
                (set_through_readonly f s p t h (idx st) x (VObj p)
                   Hp Hro Hc))).
  simpl.
  rewrite (imap_ext _ (fun j item => (S st + j, item)))
    by (intros; simpl; f_equal; lia).
  rewrite IH by (by rewrite heap_warned). done.
Qed.

(** X15.  [push] on a readonly proxy of an array returns the length
    the array would have had, and all it leaves behind is one warning
    for each write it attempted (the new elements, then [length]); in
    a production build the state is the same as before. *)
Theorem readonly_push (f : nat) (s : state) (p t : addr) (h : handler)
    (o : object) (l : nat) (args : list value) :
  heap s !! p = Some (Proxy t h) ->
  h_readonly h = true -> h_collection h = false ->
  heap s !! t = Some (Plain o) ->
  isArray_obj o = true ->
  own_lookup (props o) (KStr "push") = None ->
  ordinary_get o (KStr "length") = num l ->
  let s' := warned_all (map idx (seq l (length args)) ++ [KStr "length"]) s in
  call_method (S (S f)) (VObj p) "push" args s
  = Some (num (l + length args), s')
  /\ heap s' = heap s
  /\ (DEV s = false -> s' = s).
Proof.
  intros Hp Hro Hc Ht Harr Hown Hlen s'.
  split; [|split; [apply heap_warned_all | apply warned_all_production]].
  change "push" with (mutator_name Push).
  rewrite (call_mutator_through_readonly f s p t h o Push args Hp Hro Hc Ht
             Harr Hown).
  unfold native_mutator.
  assert (Hg : get_prop (S (S f)) (VObj p) (KStr "length") (VObj p) s
               = Some (num l, s)).
  { rewrite <- Hlen.
    apply (get_primitive_through_readonly f s p t h o _ Hp Hro Hc Ht);
      try done.
    - rewrite !elem_of_cons, elem_of_nil. by intros [?|[?|[?|[?|[]]]]].
    - by rewrite Hlen. }
  assert (Hl : LengthOfArrayLike (get_prop (S (S f))) (VObj p) s
               = Some (l, s)).
  { unfold LengthOfArrayLike. mrw Hg. unfold num. cbn [ToLength].
    by rewrite Nat2Z.id. }
  mrw Hl.
  mrw (set_items_through_readonly (S f) p t h args l s Hp Hro Hc).
  unfold Set_or_throw.
  set (s1 := warned_all (map idx (seq l (length args))) s).
  assert (Hp1 : heap s1 !! p = Some (Proxy t h))
    by (unfold s1; by rewrite heap_warned_all).
  rewrite (bind_Some _ _ _ _ _
             (bind_Some _ (fun ok : bool => if ok then ret tt else fail) _ _ _
                (set_through_readonly (S f) s1 p t h (KStr "length")
                   (num (l + length args)) (VObj p) Hp1 Hro Hc))).
  simpl. unfold s', s1. by rewrite warned_all_app.
Qed.

Lemma readonly_push_witness :
  let s := state_after (wrap 1 ReadonlyDeep (VObj 0))
             (init_state [array_of [VNum (Num 5); VStr "b"]]) in
  let s' := warned_all [KStr "2"; KStr "3"; KStr "length"] s in
  call_method 2 (VObj 1) "push" [VNum (Num 7); VNum (Num 8)] s
  = Some (VNum (Num 4), s')
  /\ heap s' = heap s
  /\ (DEV s = false -> s' = s).
Proof.
  intros s.
  apply (readonly_push 0 s 1 0 readonlyHandlers
           (Object "Array" true
              [(KStr "0", VNum (Num 5)); (KStr "1", VStr "b");
               (KStr "length", VNum (Num 2))])
           2 [VNum (Num 7); VNum (Num 8)]); reflexivity.
Defined.

(** ** What a write through a mutable proxy stores *)

Lemma isIntegerKey_not_length k : isIntegerKey k = true -> k <> KStr "length".
Proof. intros H ->. by vm_compute in H. Qed.

Lemma ordinary_define_lookup o k v o' :
  ordinary_define o k v = Some o' -> own_lookup (props o') k = Some v.
Proof.
  unfold ordinary_define. destruct (own_lookup (props o) k).
  - destruct (isArray_obj o && bool_decide (k = KStr "length"));
      intros [= <-]; simpl; apply own_lookup_update.
  - destruct (extensible o); [|done].
    destruct (isArray_obj o && isIntegerKey k) eqn:Ei.
    + apply andb_true_iff in Ei as [_ Ei].
      apply isIntegerKey_not_length in Ei.
      destruct (own_lookup (own_update (props o) k v) (KStr "length"))
        as [len|]; [destruct (index_lt (Number_of_key k) len)|];
        intros [= <-]; simpl;
        rewrite ?(own_lookup_update_ne _ (KStr "length")) by done;
        apply own_lookup_update.
    + intros [= <-]. simpl. apply own_lookup_update.
Qed.

Lemma ordinary_define_kind o k v o' :
  ordinary_define o k v = Some o' ->
  rawType o' = rawType o /\ extensible o' = extensible o.
Proof.
  unfold ordinary_define. destruct (own_lookup (props o) k).
  - destruct (isArray_obj o && bool_decide (k = KStr "length"));
      intros [= <-]; split; reflexivity.
  - destruct (extensible o) eqn:Ee; [|done].
    destruct (isArray_obj o && isIntegerKey k);
      [|intros [= <-]; simpl; auto].
    destruct (own_lookup (own_update (props o) k v) (KStr "length"))
      as [len|]; [destruct (index_lt (Number_of_key k) len)|];
      intros [= <-]; simpl; auto.
Qed.

Lemma ordinary_define_accepts o k v :
  extensible o = true \/ is_Some (own_lookup (props o) k) ->
  is_Some (ordinary_define o k v).
Proof.
  intros H. unfold ordinary_define.
  destruct (own_lookup (props o) k) eqn:E.
  - by destruct (isArray_obj o && bool_decide (k = KStr "length")).
  - destruct H as [-> | [? ?]]; [|done].
    destruct (isArray_obj o && isIntegerKey k); [|done].
    by destruct (own_lookup (own_update (props o) k v) (KStr "length"))
      as [len|]; [destruct (index_lt (Number_of_key k) len)|].
Qed.

Lemma ordinary_define_refuses o k v :
  extensible o = false -> own_lookup (props o) k = None ->
  ordinary_define o k v = None.
Proof. intros He Hk. unfold ordinary_define. by rewrite Hk, He. Qed.

(** The setter's tail for a write whose receiver is the registered
    proxy: the state it leaves. *)
Lemma set_and_notify_result f s t o p h k v old :
  heap s !! t = Some (Plain o) ->
  heap s !! p = Some (Proxy t h) ->
  proxyMap_get (registry_of (h_readonly h) (h_shallow h)) s !! t
    = Some (VObj p) ->
  truthy (ordinary_get o ReactiveFlags.RAW) = false ->
  k <> ReactiveFlags.RAW ->
  set_and_notify (S (S f)) (get_prop (S (S f))) (set_prop (S f))
    t k v old (VObj p) s
  = Some (match ordinary_define o k v with
          | Some o' =>
              (true, notified (notification t o k v old (VObj t))
                       (update_cell t (Plain o') s))
          | None => (false, notified (notification t o k v old (VObj t)) s)
          end).
Proof.
  intros Ht Hp Hreg Hraw Hk.
  assert (Hpt : p <> t) by (intros ->; congruence).
  rewrite (set_and_notify_eq (S f) s t o k v old _ Ht).
  assert (Hset : set_prop (S f) (VObj t) k v (VObj p) s
                 = Some (match ordinary_define o k v with
                         | Some o' => (true, update_cell t (Plain o') s)
                         | None => (false, s)
                         end)).
  { rewrite set_prop_S. unfold set_body. mstep. rewrite Ht. mstep.
    unfold underlying_of. rewrite (underlying_proxy_plain _ _ _ _ _ Hp Ht).
    by destruct (ordinary_define o k v). }
  destruct (ordinary_define o k v) as [o'|] eqn:Ed.
  - mrw Hset.
    assert (Hraw' : toRaw (get_prop (S (S f))) (S (S f)) (VObj p)
                      (update_cell t (Plain o') s)
                    = Some (VObj t, update_cell t (Plain o') s)).
    { apply (toRaw_proxy (S f) f _ p t h o').
      + rewrite heap_update_cell. by rewrite list_lookup_insert_ne.
      + by rewrite proxyMap_get_update_cell.
      + rewrite heap_update_cell. apply list_lookup_insert_eq.
        by eapply lookup_lt_Some.
      + by rewrite (ordinary_define_RAW _ _ _ _ Ed Hk). }
    by mrw Hraw'.
  - mrw Hset. by mrw (toRaw_proxy (S f) f s p t h o Hp Hreg Ht Hraw).
Qed.
(** The mutable setter over an old value that is neither a box nor a
    proxy: the shallow one writes the value as it is, the deep one
    the raw value behind it. *)
Lemma createSetter_reduces f s t o sh k v rv r :
  heap s !! t = Some (Plain o) ->
  is_raw s (ordinary_get o k) = true ->
  is_box s (ordinary_get o k) = false ->
  truthy (prop_of s (ordinary_get o k) ReactiveFlags.RAW) = false ->
  (sh = false ->
   isShallow (get_prop (S (S f))) v s = Some (false, s)
   /\ isReadonly (get_prop (S (S f))) v s = Some (false, s)
   /\ toRaw (get_prop (S (S f))) (S (S f)) v s = Some (rv, s)) ->
  (sh = true -> rv = v) ->
  createSetter (S (S f)) (get_prop (S (S f))) (set_prop (S f)) sh t k v r s
  = set_and_notify (S (S f)) (get_prop (S (S f))) (set_prop (S f))
      t k rv (ordinary_get o k) r s.
Proof.
  intros Ht Hraw Hbox Hnraw Hdeep Hshallow. set (old := ordinary_get o k) in *.
  unfold is_box in Hbox. rewrite Hraw in Hbox. simpl in Hbox.
  unfold createSetter, read.
  mrw (get_plain (S f) s t o k (VObj t) Ht). fold old.
  mrw (isReadonly_raw (S f) s old Hraw).
  assert (Href : (if truthy old
                     && truthy (prop_of s old ReactiveFlags.IS_READONLY)
                  then isRef (get_prop (S (S f))) old else ret false) s
                 = Some (false, s)).
  { destruct (truthy old && truthy _); [|done].
    rewrite (isRef_raw (S f) s old Hraw). by rewrite Hbox. }
  mrw Href.
  destruct sh; [by rewrite Hshallow|]. mstep.
  destruct (Hdeep eq_refl) as (Hsh & Hro & Hrv).
  mrw Hsh.
  rewrite (bind_Some _ _ _ _ _
             (bind_Some _ (fun ro => ret (negb ro)) _ _ _ Hro)).
  mstep.
  assert (Hov : (let* o0 := toRaw (get_prop (S (S f))) (S (S f)) old in
                 let* v0 := toRaw (get_prop (S (S f))) (S (S f)) v in
                 ret (o0, v0)) s = Some ((old, rv), s)).
  { mrw (toRaw_raw (S f) (S f) s old Hraw Hnraw). by mrw Hrv. }
  mrw Hov.
  assert (Hr1 : (if negb (isArray s (VObj t))
                 then isRef (get_prop (S (S f))) old else ret false) s
                = Some (false, s)).
  { destruct (negb _); [|done].
    rewrite (isRef_raw (S f) s old Hraw). by rewrite Hbox. }
  mrw Hr1. done.
Qed.
(** X16.  Writing a reactive proxy into a key through a deep mutable
    proxy stores the raw object behind the value, not the proxy;
    through a shallow mutable proxy the value is stored as it is.
    The write is notified with the value that was stored.  The key is
    neither the [length] of an array, which takes no object, nor the
    skip marker. *)
Theorem write_stores_raw (f : nat) (s : state) (p t pv tv : addr)
    (h hv : handler) (o ov : object) (k : key) :
  heap s !! p = Some (Proxy t h) ->
  h_readonly h = false -> h_collection h = false ->
  proxyMap_get (registry_of (h_readonly h) (h_shallow h)) s !! t
    = Some (VObj p) ->
  heap s !! t = Some (Plain o) ->
  truthy (ordinary_get o ReactiveFlags.RAW) = false ->
  k <> ReactiveFlags.RAW ->
  k <> ReactiveFlags.SKIP ->
  array_length_key o k = false ->
  is_raw s (ordinary_get o k) = true ->
  is_box s (ordinary_get o k) = false ->
  truthy (prop_of s (ordinary_get o k) ReactiveFlags.RAW) = false ->
  extensible o = true \/ is_Some (own_lookup (props o) k) ->
  heap s !! pv = Some (Proxy tv hv) ->
  h_readonly hv = false -> h_shallow hv = false ->
  proxyMap_get RegReactive s !! tv = Some (VObj pv) ->
  heap s !! tv = Some (Plain ov) ->
  truthy (ordinary_get ov ReactiveFlags.RAW) = false ->
  let stored := if h_shallow h then VObj pv else VObj tv in
  exists s' o',
    set_prop (S (S f)) (VObj p) k (VObj pv) (VObj p) s = Some (true, s')
    /\ heap s' !! t = Some (Plain o')
    /\ own_lookup (props o') k = Some stored
    /\ triggered s'
       = (triggered s
          ++ notification t o k stored (ordinary_get o k) (VObj t))%list.
Proof.
  intros Hp Hro Hc Hreg Ht Hraw Hk _ _ Holdraw Hbox Hnraw Hacc
    Hpv Hvro Hvsh Hvreg Htv Hvraw stored.
  rewrite (set_prop_proxy _ _ _ _ _ _ _ _ Hp Hc Hro).
  rewrite (createSetter_reduces f s t o (h_shallow h) k (VObj pv) stored
             (VObj p) Ht Holdraw Hbox Hnraw).
  - rewrite (set_and_notify_result f s t o p h k stored _ Ht Hp Hreg Hraw Hk).
    destruct (ordinary_define_accepts o k stored Hacc) as [o' Hd].
    rewrite Hd. eexists _, o'. split; [done|].
    rewrite heap_notified, heap_update_cell, triggered_notified.
    split; [|split; [by apply ordinary_define_lookup in Hd | done]].
    apply list_lookup_insert_eq. by eapply lookup_lt_Some.
  - intros Hsh. unfold stored. rewrite Hsh. split; [|split].
    + rewrite (isShallow_proxy (S f) s pv tv hv Hpv). by rewrite Hvsh.
    + rewrite (isReadonly_proxy (S f) s pv tv hv Hpv). by rewrite Hvro.
    + apply (toRaw_proxy (S f) f s pv tv hv ov Hpv); [|done|done].
      by rewrite Hvro, Hvsh.
  - intros Hsh. unfold stored. by rewrite Hsh.
Qed.
Lemma write_stores_raw_witness :
  let s := two_records_state in
  let o := Object "Object" true [(KStr "a", VNum (Num 1))] in
  exists s' o',
    set_prop 2 (VObj 2) (KStr "child") (VObj 3) (VObj 2) s = Some (true, s')
    /\ heap s' !! 0 = Some (Plain o')
    /\ own_lookup (props o') (KStr "child") = Some (VObj 1)
    /\ triggered s'
       = (triggered s
          ++ notification 0 o (KStr "child") (VObj 1) VUndefined (VObj 0))%list.
Proof.
  intros s o.
  apply (write_stores_raw 0 s 2 0 3 1 mutableHandlers mutableHandlers o
           (Object "Object" true [(KStr "x", VNum (Num 1))]) (KStr "child"));
    try reflexivity; [discriminate | discriminate | left; reflexivity].
Defined.

Lemma returns_early_false ro sh s t o k r :
  (k ∉ [ReactiveFlags.IS_REACTIVE; ReactiveFlags.IS_READONLY;
        ReactiveFlags.IS_SHALLOW; ReactiveFlags.RAW]) ->
  (isArray_obj o = true -> arrayInstrumentations k = None) ->
  builtInSymbols_has k = false ->
  isNonTrackableKeys k = false ->
  returns_early ro sh s t o k r = false.
Proof.
  intros Hk Harr Hb Hn. rewrite !elem_of_cons, elem_of_nil in Hk.
  unfold returns_early, answers_RAW.
  rewrite (bool_decide_eq_false_2 (_ = ReactiveFlags.RAW)) by tauto.
  rewrite (bool_decide_eq_false_2 (_ ∈ _))
    by (rewrite !elem_of_cons, elem_of_nil; tauto).
  rewrite Hb, Hn. simpl. rewrite !orb_false_r.
  destruct (isArray_obj o); [|by rewrite andb_false_r].
  rewrite (Harr eq_refl). rewrite bool_decide_eq_false_2 by (by intros [? ?]).
  by rewrite !andb_false_r.
Qed.

(** X17.  Round trip through a mutable proxy of an ordinary object: a
    primitive written to a key is what a read of that key returns.
    The key is none of the reserved flags nor the skip marker, on an
    array it is none of the instrumented method names, and a value
    written to the [length] of an array is a valid length. *)
Theorem write_then_read (f : nat) (s : state) (p t : addr) (h : handler)
    (o : object) (k : key) (v : value) :
  heap s !! p = Some (Proxy t h) ->
  h_readonly h = false -> h_collection h = false ->
  proxyMap_get (registry_of (h_readonly h) (h_shallow h)) s !! t
    = Some (VObj p) ->
  heap s !! t = Some (Plain o) ->
  truthy (ordinary_get o ReactiveFlags.RAW) = false ->
  (k ∉ [ReactiveFlags.IS_REACTIVE; ReactiveFlags.IS_READONLY;
        ReactiveFlags.IS_SHALLOW; ReactiveFlags.RAW]) ->
  (isArray_obj o = true -> arrayInstrumentations k = None) ->
  builtInSymbols_has k = false ->
  isNonTrackableKeys k = false ->
  k <> ReactiveFlags.SKIP ->
  length_write_ok o k v = true ->
  is_raw s (ordinary_get o k) = true ->
  is_box s (ordinary_get o k) = false ->
  truthy (prop_of s (ordinary_get o k) ReactiveFlags.RAW) = false ->
  extensible o = true \/ is_Some (own_lookup (props o) k) ->
  isObject v = false ->
  exists s1,
    set_prop (S (S f)) (VObj p) k v (VObj p) s = Some (true, s1)
    /\ get_prop (S (S f)) (VObj p) k (VObj p) s1
       = Some (v, add_track (TrackEv (VObj t) GET k) s1).
Proof.
  intros Hp Hro Hc Hreg Ht Hraw Hk Harr Hb Hn _ _ Holdraw Hbox Hnraw Hacc Hv.
  assert (HkRAW : k <> ReactiveFlags.RAW).
  { intros ->. apply Hk. rewrite !elem_of_cons. tauto. }
  assert (Hpv : forall s0, is_raw s0 v = true /\ forall k', prop_of s0 v k' = VUndefined)
    by (intros s0; by destruct v).
  rewrite (set_prop_proxy _ _ _ _ _ _ _ _ Hp Hc Hro).
  rewrite (createSetter_reduces f s t o (h_shallow h) k v v (VObj p) Ht
             Holdraw Hbox Hnraw); [|intros _|done].
  - rewrite (set_and_notify_result f s t o p h k v _ Ht Hp Hreg Hraw HkRAW).
    destruct (ordinary_define_accepts o k v Hacc) as [o' Hd].
    rewrite Hd. eexists. split; [done|].
    set (s1 := notified _ _).
    assert (Hp1 : heap s1 !! p = Some (Proxy t h)).
    { unfold s1. rewrite heap_notified, heap_update_cell.
      rewrite list_lookup_insert_ne; [done|]. intros ->. congruence. }
    assert (Ht1 : heap s1 !! t = Some (Plain o')).
    { unfold s1. rewrite heap_notified, heap_update_cell.
      apply list_lookup_insert_eq. by eapply lookup_lt_Some. }
    rewrite (get_prop_proxy _ _ _ _ _ _ _ Hp1 Hc).
    destruct (createGetter_plain f s1 (h_readonly h) (h_shallow h) t o'
                k (VObj p) Ht1) as [_ Hlate].
    assert (Hearly : returns_early (h_readonly h) (h_shallow h) s1 t o' k
                       (VObj p) = false).
    { apply returns_early_false; try done.
      unfold isArray_obj in *.
      by rewrite (proj1 (ordinary_define_kind _ _ _ _ Hd)). }
    rewrite (Hlate Hearly).
    assert (Hget : ordinary_get o' k = v).
    { unfold ordinary_get. by rewrite (ordinary_define_lookup _ _ _ _ Hd). }
    rewrite Hget, convert_read_primitive by done.
    unfold tracked, read_trap_tracks. by rewrite Hearly, Hro.
  - destruct (Hpv s) as [Hr Hu]. split; [|split].
    + rewrite (isShallow_raw (S f) s v Hr). by rewrite Hu, andb_false_r.
    + rewrite (isReadonly_raw (S f) s v Hr). by rewrite Hu, andb_false_r.
    + apply toRaw_raw; [done|]. by rewrite Hu.
Qed.

Lemma write_then_read_witness :
  let s := record_state in
  exists s1,
    set_prop 2 (VObj 1) (KStr "b") (VStr "new") (VObj 1) s = Some (true, s1)
    /\ get_prop 2 (VObj 1) (KStr "b") (VObj 1) s1
       = Some (VStr "new", add_track (TrackEv (VObj 0) GET (KStr "b")) s1).
Proof.
  intros s.
  apply (write_then_read 0 s 1 0 mutableHandlers
           (Object "Object" true [(KStr "a", VNum (Num 1))])
           (KStr "b") (VStr "new")); try reflexivity.
  - rewrite !elem_of_cons, elem_of_nil. by intros [?|[?|[?|[?|[]]]]].
  - discriminate.
  - left. reflexivity.
Defined.
(** X18.  The setter notifies without looking at the outcome of the
    write: a new key written through the mutable proxy of a record
    that has since been made non-extensible is refused (the trap
    reports [false] and no object changes), and the [ADD]
    notification goes out all the same. *)
Theorem refused_write_still_notifies (f : nat) (s : state) (p t : addr)
    (h : handler) (o : object) (k : key) (v : value) :
  heap s !! p = Some (Proxy t h) ->
  h_readonly h = false -> h_collection h = false ->
  proxyMap_get (registry_of (h_readonly h) (h_shallow h)) s !! t
    = Some (VObj p) ->
  heap s !! t = Some (Plain o) ->
  truthy (ordinary_get o ReactiveFlags.RAW) = false ->
  k <> ReactiveFlags.RAW ->
  isArray_obj o = false ->
  extensible o = false ->
  own_lookup (props o) k = None ->
  isObject v = false ->
  set_prop (S (S f)) (VObj p) k v (VObj p) s
  = Some (false, add_trigger (TriggerEv (VObj t) ADD k v VUndefined) s).
Proof.
  intros Hp Hro Hc Hreg Ht Hraw Hk Harr Hext Hown Hv.
  assert (Hold : ordinary_get o k = VUndefined).
  { unfold ordinary_get. by rewrite Hown, Harr. }
  assert (Hpv : is_raw s v = true /\ forall k', prop_of s v k' = VUndefined)
    by (by destruct v).
  destruct Hpv as [Hr Hu].
  rewrite (set_prop_proxy _ _ _ _ _ _ _ _ Hp Hc Hro).
  rewrite (createSetter_reduces f s t o (h_shallow h) k v v (VObj p) Ht);
    rewrite ?Hold; try done.
  - rewrite (set_and_notify_result f s t o p h k v _ Ht Hp Hreg Hraw Hk).
    rewrite (ordinary_define_refuses o k v Hext Hown).
    unfold notification, existed_before, strict_eq.
    rewrite bool_decide_eq_true_2 by done.
    by rewrite Harr, Hown.
  - intros _. split; [|split].
    + rewrite (isShallow_raw (S f) s v Hr). by rewrite Hu, andb_false_r.
    + rewrite (isReadonly_raw (S f) s v Hr). by rewrite Hu, andb_false_r.
    + apply toRaw_raw; [done|]. by rewrite Hu.
Qed.

Lemma refused_write_still_notifies_witness :
  let s := sealed_record_state in
  set_prop 2 (VObj 1) (KStr "b") (VNum (Num 2)) (VObj 1) s
  = Some (false,
          add_trigger
            (TriggerEv (VObj 0) ADD (KStr "b") (VNum (Num 2)) VUndefined) s).
Proof.
  intros s.
  apply (refused_write_still_notifies 0 s 1 0 mutableHandlers
           (Object "Object" false [(KStr "a", VNum (Num 1))])
           (KStr "b") (VNum (Num 2))); try reflexivity.
  discriminate.
Defined.

(** ** Nested values and fresh wrappers *)

Lemma nested_read_is_wrap f s p t h o k r c oc :
  heap s !! p = Some (Proxy t h) ->
  h_collection h = false -> h_shallow h = false ->
  heap s !! t = Some (Plain o) ->
  returns_early (h_readonly h) (h_shallow h) s t o k r = false ->
  ordinary_get o k = VObj c ->
  heap s !! c = Some (Plain oc) ->
  is_box s (VObj c) = false ->
  get_prop (S (S f)) (VObj p) k r s
  = wrap (S f) (nested_variant (h_readonly h)) (VObj c)
      (tracked (h_readonly h) (h_shallow h) s t o k r).
Proof.
  intros Hp Hc Hsh Ht Hearly Hres Hcc Hbox.
  rewrite (get_prop_proxy _ _ _ _ _ _ _ Hp Hc).
  destruct (createGetter_plain f s (h_readonly h) (h_shallow h) t o k r Ht)
    as [_ Hlate].
  rewrite (Hlate Hearly), Hres. unfold convert_read. rewrite Hsh.
  set (s1 := tracked _ _ _ _ _ _ _).
  assert (Hraw1 : is_raw s1 (VObj c) = true).
  { unfold s1. rewrite is_raw_tracked. unfold is_raw. by rewrite Hcc. }
  mrw (isRef_raw f s1 (VObj c) Hraw1). unfold s1 at 1.
  rewrite prop_of_tracked.
  unfold is_box, is_raw in Hbox. rewrite Hcc in Hbox. simpl in Hbox.
  simpl. rewrite Hbox. by destruct (h_readonly h).
Qed.

Lemma wrap_registered_target f s v c oc q :
  heap s !! c = Some (Plain oc) ->
  truthy (ordinary_get oc ReactiveFlags.RAW) = false ->
  truthy (ordinary_get oc ReactiveFlags.IS_READONLY) = false ->
  proxyMap_get (variant_registry v) s !! c = Some (VObj q) ->
  wrap (S f) v (VObj c) s = Some (VObj q, s).
Proof.
  intros Hc Hraw Hro Hreg. rewrite (wrap_plain f s c oc v Hc).
  unfold wrap_result, factory_result.
  by rewrite Hro, Hraw, andb_false_r, Hreg.
Qed.

(** X19.  A nested object read twice through the same deep proxy comes
    back as the same wrapper, the one the factory of that variant
    returns for the nested object itself; the second read makes no
    new proxy. *)
Theorem nested_read_same_instance (f : nat) (s : state) (p t c : addr)
    (h : handler) (o oc : object) (k : key) :
  registries_ok s ->
  heap s !! p = Some (Proxy t h) ->
  h_collection h = false -> h_shallow h = false ->
  heap s !! t = Some (Plain o) ->
  (k ∉ [ReactiveFlags.IS_REACTIVE; ReactiveFlags.IS_READONLY;
        ReactiveFlags.IS_SHALLOW; ReactiveFlags.RAW]) ->
  (isArray_obj o = true -> arrayInstrumentations k = None) ->
  builtInSymbols_has k = false ->
  isNonTrackableKeys k = false ->
  ordinary_get o k = VObj c ->
  heap s !! c = Some (Plain oc) ->
  is_box s (VObj c) = false ->
  classify oc <> INVALID ->
  truthy (ordinary_get oc ReactiveFlags.RAW) = false ->
  truthy (ordinary_get oc ReactiveFlags.IS_READONLY) = false ->
  let F := S (S f) in
  let v := nested_variant (h_readonly h) in
  exists q hq s1 s2,
    get_prop F (VObj p) k (VObj p) s = Some (VObj q, s1)
    /\ heap s1 !! q = Some (Proxy c hq)
    /\ h_readonly hq = h_readonly h
    /\ get_prop F (VObj p) k (VObj p) s1 = Some (VObj q, s2)
    /\ heap s2 = heap s1
    /\ wrap F v (VObj c) s2 = Some (VObj q, s2).
Proof.
  intros Hok Hp Hc Hsh Ht Hk Harr Hb Hn Hres Hcc Hbox Hcl Hraw Hro F v.
  pose proof (fun s0 => returns_early_false (h_readonly h) (h_shallow h)
                          s0 t o k (VObj p) Hk Harr Hb Hn) as Hearly.
  set (s0 := tracked (h_readonly h) (h_shallow h) s t o k (VObj p)).
  assert (Hcc0 : heap s0 !! c = Some (Plain oc))
    by (unfold s0; by rewrite heap_tracked).
  destruct (wrap_plain_facts f s0 v c oc
              (registries_ok_tracked _ _ _ _ _ _ _ Hok) Hcc0 Hcl Hraw Hro)
    as (q & hq & s1 & Hw & Hq & Hqro & _ & Hreg & Hcc1 & _).
  assert (Hpre : heap s `prefix_of` heap s1).
  { destruct (preserves_wrap _ _ _ _ _ _ Hw) as (_ & _ & _ & _ & Hpre).
    unfold s0 in Hpre. by rewrite heap_tracked in Hpre. }
  pose proof (prefix_lookup_Some _ _ _ _ Hp Hpre) as Hp1.
  pose proof (prefix_lookup_Some _ _ _ _ Ht Hpre) as Ht1.
  set (s2 := tracked (h_readonly h) (h_shallow h) s1 t o k (VObj p)).
  assert (Hcc2 : heap s2 !! c = Some (Plain oc))
    by (unfold s2; by rewrite heap_tracked).
  assert (Hreg2 : proxyMap_get (variant_registry v) s2 !! c = Some (VObj q)).
  { unfold s2, tracked. destruct (read_trap_tracks _ _ _ _ _ _ _); [|done].
    by rewrite proxyMap_get_add_track. }
  assert (Hbox1 : is_box s1 (VObj c) = false).
  { unfold is_box, is_raw, prop_of in *. by rewrite Hcc1; rewrite Hcc in Hbox. }
  exists q, hq, s1, s2. split.
  { unfold F. by rewrite (nested_read_is_wrap f s p t h o k (VObj p) c oc). }
  split; [done|]. split; [by destruct (h_readonly h)|]. split.
  { unfold F.
    rewrite (nested_read_is_wrap f s1 p t h o k (VObj p) c oc) by done.
    by apply (wrap_registered_target f s2 v c oc q). }
  split; [unfold s2; by rewrite heap_tracked|].
  by apply (wrap_registered_target (S f) s2 v c oc q).
Qed.

Lemma nested_read_same_instance_witness :
  let s := conversion_state in
  exists q hq s1 s2,
    get_prop 2 (VObj 3) (KStr "child") (VObj 3) s = Some (VObj q, s1)
    /\ heap s1 !! q = Some (Proxy 1 hq)
    /\ h_readonly hq = false
    /\ get_prop 2 (VObj 3) (KStr "child") (VObj 3) s1 = Some (VObj q, s2)
    /\ heap s2 = heap s1
    /\ wrap 2 MutableDeep (VObj 1) s2 = Some (VObj q, s2).
Proof.
  intros s.
  apply (nested_read_same_instance 0 s 3 2 1 mutableHandlers
           conversion_record
           (Object "Object" true [(KStr "x", VNum (Num 1))])
           (KStr "child")); try reflexivity.
  - apply registries_okb_ok. vm_compute. reflexivity.
  - rewrite !elem_of_cons, elem_of_nil. by intros [?|[?|[?|[?|[]]]]].
  - vm_compute. discriminate.
Defined.
(** X20.  The first wrap request for an ordinary object at a variant
    makes exactly one new cell, a proxy over the object, and enters
    it in the registry of the variant.  The proxy gets the collection
    bundle of the variant for a [Map], [Set], [WeakMap] or [WeakSet]
    and the base bundle for an [Object] or [Array].  Nothing else
    changes: nested objects are not wrapped until they are read. *)
Theorem first_wrap (f : nat) (s : state) (v : variant) (x : addr)
    (o : object) :
  heap s !! x = Some (Plain o) ->
  truthy (ordinary_get o ReactiveFlags.RAW) = false ->
  truthy (ordinary_get o ReactiveFlags.IS_READONLY) = false ->
  truthy (ordinary_get o ReactiveFlags.SKIP) = false ->
  extensible o = true ->
  rawType o ∈ wrappable_kinds ->
  proxyMap_get (variant_registry v) s !! x = None ->
  let hd := Handler (variant_readonly v) (variant_shallow v)
              (bool_decide (rawType o ∈ ["Map"; "Set"; "WeakMap"; "WeakSet"]))
  in
  let y := length (heap s) in
  wrap (S f) v (VObj x) s
  = Some (VObj y,
          proxyMap_set (variant_registry v) x (VObj y)
            (set_heap (heap s ++ [Proxy x hd]) s)).
Proof.
  intros Hx Hraw Hro Hskip Hext Hkind Hreg hd y.
  rewrite (wrap_plain f s x o v Hx).
  unfold wrap_result, factory_result, classify.
  rewrite Hro, Hraw, Hskip, Hext, andb_false_r, Hreg. simpl.
  unfold hd, y, variant_base, variant_collection.
  destruct o as [rt ext ps]. simpl in *. unfold wrappable_kinds in Hkind.
  rewrite !elem_of_cons, elem_of_nil in Hkind.
  destruct Hkind as [->|[->|[->|[->|[->|[->|[]]]]]]]; reflexivity.
Qed.

Lemma first_wrap_witness :
  let s := init_state [Plain (Object "Map" true []);
                       plain_object [(KStr "child", VObj 0)]] in
  wrap 1 ReadonlyDeep (VObj 0) s
  = Some (VObj 2,
          proxyMap_set RegReadonly 0 (VObj 2)
            (set_heap (heap s ++ [Proxy 0 readonlyCollectionHandlers]) s))
  /\ wrap 1 MutableDeep (VObj 1) s
     = Some (VObj 2,
             proxyMap_set RegReactive 1 (VObj 2)
               (set_heap (heap s ++ [Proxy 1 mutableHandlers]) s)).
Proof.
  intros s. split.
  - apply (first_wrap 0 s ReadonlyDeep 0 (Object "Map" true []));
      try reflexivity.
    simpl. unfold wrappable_kinds. rewrite !elem_of_cons. tauto.
  - apply (first_wrap 0 s MutableDeep 1
             (Object "Object" true [(KStr "child", VObj 0)]));
      try reflexivity.
    simpl. unfold wrappable_kinds. rewrite !elem_of_cons. tauto.
Defined.

(** ** [push] through a mutable proxy of an array *)

Lemma index_of_string_of_index n : index_of_string (string_of_index n) = Some n.
Proof.
  unfold index_of_string, string_of_index.
  assert (Hs : NilZero.string_of_uint (N.to_uint n)
               = NilEmpty.string_of_uint (N.to_uint n)).
  { destruct n as [|q]; [done|]. simpl.
    pose proof (DecimalPos.Unsigned.to_uint_nonnil q) as Hn.
    by destruct (Pos.to_uint q). }
  rewrite Hs, NilEmpty.usu, DecimalN.Unsigned.of_to.
  rewrite <- Hs. by rewrite String.eqb_refl.
Qed.

Lemma isIntegerKey_idx i : isIntegerKey (idx i) = true.
Proof.
  unfold isIntegerKey, idx, key_of_index.
  rewrite index_of_string_of_index. by apply bool_decide_eq_true_2.
Qed.

Lemma Number_of_key_idx i : Number_of_key (idx i) = N.of_nat i.
Proof.
  unfold Number_of_key, idx, key_of_index.
  by rewrite index_of_string_of_index.
Qed.

Lemma idx_inj i j : idx i = idx j -> i = j.
Proof.
  intros H. apply (f_equal Number_of_key) in H.
  rewrite !Number_of_key_idx in H. lia.
Qed.

Lemma idx_not_length i : idx i <> KStr "length".
Proof. apply isIntegerKey_not_length, isIntegerKey_idx. Qed.

Lemma idx_not_RAW i : idx i <> ReactiveFlags.RAW.
Proof.
  intros H. pose proof (isIntegerKey_idx i) as Hi. rewrite H in Hi.
  by vm_compute in Hi.
Qed.

Lemma index_lt_num i l : index_lt (N.of_nat i) (num l) = bool_decide (i < l).
Proof.
  unfold index_lt, num. rewrite nat_N_Z.
  destruct (Z.ltb_spec (Z.of_nat i) (Z.of_nat l)).
  - rewrite bool_decide_eq_true_2; [done|lia].
  - rewrite bool_decide_eq_false_2; [done|lia].
Qed.

Lemma proxyMap_get_notified r evs s :
  proxyMap_get r (notified evs s) = proxyMap_get r s.
Proof.
  revert s. induction evs as [|e evs IH]; intros s; [done|].
  change (notified (e :: evs) s) with (notified evs (add_trigger e s)).
  rewrite IH. by destruct r.
Qed.

Lemma primitive_unwrapped f s v :
  isObject v = false ->
  isShallow (get_prop (S f)) v s = Some (false, s)
  /\ isReadonly (get_prop (S f)) v s = Some (false, s)
  /\ toRaw (get_prop (S f)) (S f) v s = Some (v, s).
Proof.
  intros Hv.
  assert (Hr : is_raw s v = true) by (by destruct v).
  assert (Hu : forall k, prop_of s v k = VUndefined) by (by destruct v).
  split; [|split].
  - rewrite (isShallow_raw f s v Hr). by rewrite Hu, andb_false_r.
  - rewrite (isReadonly_raw f s v Hr). by rewrite Hu, andb_false_r.
  - apply toRaw_raw; [done|]. by rewrite Hu.
Qed.
Lemma ordinary_define_append o l v :
  isArray_obj o = true -> extensible o = true ->
  own_lookup (props o) (KStr "length") = Some (num l) ->
  own_lookup (props o) (idx l) = None ->
  ordinary_define o (idx l) v
  = Some (with_props o
            (own_update (own_update (props o) (idx l) v) (KStr "length")
               (num (S l)))).
Proof.
  intros Harr Hext Hlen Hnone. unfold ordinary_define.
  rewrite Hnone, Hext, Harr, isIntegerKey_idx. cbn [andb]. cbv zeta.
  rewrite (own_lookup_update_ne _ (idx l) (KStr "length"))
    by apply idx_not_length.
  rewrite Hlen, Number_of_key_idx, index_lt_num.
  rewrite bool_decide_eq_false_2 by lia.
  do 3 f_equal. unfold num. do 2 f_equal. lia.
Qed.

Lemma push_one f s p t h o l v :
  h_readonly h = false -> h_collection h = false ->
  array_behind s p t h o l ->
  isObject v = false ->
  exists s' o',
    set_prop (S (S f)) (VObj p) (idx l) v (VObj p) s = Some (true, s')
    /\ array_behind s' p t h o' (S l)
    /\ triggered s'
       = (triggered s ++ [TriggerEv (VObj t) ADD (idx l) v VUndefined])%list
    /\ own_lookup (props o') (idx l) = Some v
    /\ (forall k, k <> idx l -> k <> KStr "length" ->
          own_lookup (props o') k = own_lookup (props o) k).
Proof.
  intros Hro Hc (Hp & Hreg & Ht & Harr & Hext & Hraw & Hlen & Hnone) Hv.
  assert (Hpt : p <> t) by (intros ->; congruence).
  pose proof (Hnone l (Nat.le_refl l)) as Hnl.
  assert (Hold : is_raw s (ordinary_get o (idx l)) = true
                 /\ is_box s (ordinary_get o (idx l)) = false
                 /\ truthy (prop_of s (ordinary_get o (idx l))
                              ReactiveFlags.RAW) = false).
  { unfold ordinary_get. rewrite Hnl, Harr.
    by destruct (arrayInstrumentations (idx l)). }
  destruct Hold as (Ho1 & Ho2 & Ho3).
  pose proof (ordinary_define_append o l v Harr Hext Hlen Hnl) as Hd.
  set (o' := with_props o _) in Hd.
  rewrite (set_prop_proxy _ _ _ _ _ _ _ _ Hp Hc Hro).
  rewrite (createSetter_reduces f s t o (h_shallow h) (idx l) v v (VObj p) Ht
             Ho1 Ho2 Ho3); [|intros _; by apply primitive_unwrapped|done].
  rewrite (set_and_notify_result f s t o p h (idx l) v _ Ht Hp Hreg Hraw
             (idx_not_RAW l)).
  rewrite Hd.
  assert (Hn : notification t o (idx l) v (ordinary_get o (idx l)) (VObj t)
               = [TriggerEv (VObj t) ADD (idx l) v VUndefined]).
  { unfold notification, existed_before, strict_eq.
    rewrite bool_decide_eq_true_2 by done.
    rewrite Harr, isIntegerKey_idx. cbn [andb].
    unfold ordinary_get at 1. rewrite Hlen, Number_of_key_idx, index_lt_num.
    by rewrite bool_decide_eq_false_2 by lia. }
  rewrite Hn. eexists _, o'. split; [done|]. split; [|split; [|split]].
  - unfold array_behind.
    rewrite !heap_notified, !heap_update_cell, proxyMap_get_notified,
      proxyMap_get_update_cell.
    split; [by rewrite list_lookup_insert_ne|]. split; [done|].
    split; [apply list_lookup_insert_eq; by eapply lookup_lt_Some|].
    split; [done|]. split; [done|].
    split; [by rewrite (ordinary_define_RAW _ _ _ _ Hd (idx_not_RAW l))|].
    split; [apply own_lookup_update|].
    intros i Hi. unfold o'. simpl.
    rewrite own_lookup_update_ne by (intros E; by apply (idx_not_length i)).
    rewrite own_lookup_update_ne by (intros E; apply idx_inj in E; lia).
    apply Hnone. lia.
  - by rewrite triggered_notified.
  - unfold o'. simpl.
    rewrite own_lookup_update_ne by (intros E; by apply (idx_not_length l)).
    apply own_lookup_update.
  - intros k Hk1 Hk2. unfold o'. simpl.
    rewrite own_lookup_update_ne by done.
    by rewrite own_lookup_update_ne by done.
Qed.
Lemma push_items f p t h items :
  h_readonly h = false -> h_collection h = false ->
  Forall (fun v => isObject v = false) items ->
  forall l s o,
    array_behind s p t h o l ->
    exists s' o',
      set_items (set_prop (S (S f))) (VObj p) l items s = Some (tt, s')
      /\ array_behind s' p t h o' (l + length items)
      /\ triggered s' = (triggered s ++ appended t l items)%list
      /\ (forall j v, items !! j = Some v ->
            own_lookup (props o') (idx (l + j)) = Some v)
      /\ (forall k, (forall j, k <> idx (l + j)) -> k <> KStr "length" ->
            own_lookup (props o') k = own_lookup (props o) k).
Proof.
  intros Hro Hc Hall. induction Hall as [|x xs Hx Hxs IH]; intros l s o Hinv.
  - exists s, o. unfold set_items, appended. simpl.
    rewrite Nat.add_0_r, app_nil_r. done.
  - destruct (push_one f s p t h o l x Hro Hc Hinv Hx)
      as (s1 & o1 & Hset & Hinv1 & Htr1 & Hl1 & Hk1).
    destruct (IH (S l) s1 o1 Hinv1) as (s' & o' & Hrun & Hinv' & Htr & Hl & Hk).
    exists s', o'. split; [|split; [|split; [|split]]].
    + unfold set_items in *. simpl. unfold Set_or_throw at 1.
      rewrite Nat.add_0_r.
      rewrite (bind_Some _ _ _ _ _
                 (bind_Some _ (fun ok : bool => if ok then ret tt else fail)
                    _ _ _ Hset)).
      simpl.
      rewrite (imap_ext _ (fun j item => (S l + j, item)))
        by (intros; simpl; f_equal; lia).
      exact Hrun.
    + simpl. by rewrite Nat.add_succ_r.
    + rewrite Htr, Htr1, <- app_assoc. f_equal. unfold appended. simpl.
      rewrite Nat.add_0_r. f_equal.
      apply imap_ext. intros j v _. simpl. do 2 f_equal. lia.
    + intros [|j] v Hj.
      * injection Hj as ->. rewrite Nat.add_0_r.
        rewrite Hk; [done| |apply idx_not_length].
        intros j E. apply idx_inj in E. lia.
      * rewrite Nat.add_succ_r. by apply Hl.
    + intros k Hkj Hkl. rewrite Hk; [|intros j|done].
      * apply Hk1; [|done]. rewrite <- (Nat.add_0_r l). apply Hkj.
      * replace (S l + j) with (l + S j) by lia. apply Hkj.
Qed.

Lemma set_length_same f s p t h o l :
  h_readonly h = false -> h_collection h = false ->
  array_behind s p t h o l ->
  exists s' o',
    set_prop (S (S f)) (VObj p) (KStr "length") (num l) (VObj p) s
    = Some (true, s')
    /\ heap s' !! t = Some (Plain o')
    /\ triggered s' = triggered s
    /\ isArray_obj o' = true
    /\ own_lookup (props o') (KStr "length") = Some (num l)
    /\ (forall i, i < l ->
          own_lookup (props o') (idx i) = own_lookup (props o) (idx i)).
Proof.
  intros Hro Hc (Hp & Hreg & Ht & Harr & Hext & Hraw & Hlen & Hnone).
  assert (Hget : ordinary_get o (KStr "length") = num l)
    by (unfold ordinary_get; by rewrite Hlen).
  assert (Hd : ordinary_define o (KStr "length") (num l)
               = Some (with_props o
                         (own_update
                            (filter (fun kv => negb (isIntegerKey kv.1)
                                        || index_lt (Number_of_key kv.1) (num l))
                                    (props o))
                            (KStr "length") (num l)))).
  { unfold ordinary_define. rewrite Hlen, Harr.
    by rewrite bool_decide_eq_true_2. }
  set (o' := with_props o _) in Hd.
  rewrite (set_prop_proxy _ _ _ _ _ _ _ _ Hp Hc Hro).
  assert (Hbox : is_box s (num l) = false)
    by (unfold is_box; simpl; by rewrite andb_false_r).
  rewrite (createSetter_reduces f s t o (h_shallow h) (KStr "length") (num l)
             (num l) (VObj p) Ht);
    rewrite ?Hget; try done; [|intros _; by apply primitive_unwrapped].
  rewrite (set_and_notify_result f s t o p h (KStr "length") (num l) _ Ht Hp
             Hreg Hraw) by done.
  rewrite Hd.
  assert (Hn : notification t o (KStr "length") (num l) (num l) (VObj t) = []).
  { unfold notification, existed_before, hasChanged, same_value.
    rewrite andb_false_r, Hlen.
    rewrite (bool_decide_eq_true_2 (is_Some _)) by done.
    rewrite (bool_decide_eq_true_2 (num l = num l)) by done.
    by destruct (strict_eq _ _). }
  rewrite Hn. eexists _, o'. split; [done|].
  change (notified [] ?x) with x. rewrite heap_update_cell.
  split; [apply list_lookup_insert_eq; by eapply lookup_lt_Some|].
  split; [done|]. split; [done|]. split; [apply own_lookup_update|].
  intros i Hi. unfold o'. cbn [props with_props].
  rewrite own_lookup_update_ne by (intros E; by apply (idx_not_length i)).
  apply own_lookup_filter. intros v. cbn [fst].
  rewrite isIntegerKey_idx, Number_of_key_idx, index_lt_num.
  by rewrite bool_decide_eq_true_2.
Qed.
Lemma call_mutator_through_mutable f s p t h o m args :
  heap s !! p = Some (Proxy t h) ->
  h_readonly h = false -> h_collection h = false ->
  proxyMap_get (registry_of (h_readonly h) (h_shallow h)) s !! t
    = Some (VObj p) ->
  heap s !! t = Some (Plain o) ->
  isArray_obj o = true ->
  own_lookup (props o) (KStr (mutator_name m)) = None ->
  truthy (ordinary_get o ReactiveFlags.RAW) = false ->
  let F := S (S f) in
  call_method F (VObj p) (mutator_name m) args s
  = (let* res := native_mutator (get_prop F) (set_prop F) (del_prop F)
                   (has_prop F) m (VObj p) args in
     resetTracking ;;
     ret res) (set_tracking false (shouldTrack s :: trackStack s) s).
Proof.
  intros Hp Hro Hc Hreg Ht Harr Hown Hraw F. unfold call_method, F.
  mrw (get_instrumented (S f) s p t h o _ _ (VObj p) Hp Hro Hc Ht Harr
         (mutator_name_instrumented m)).
  unfold apply_func, instr_mutator, pauseTracking. mstep.
  set (sp := set_tracking false (shouldTrack s :: trackStack s) s).
  assert (Hreg' : proxyMap_get (registry_of (h_readonly h) (h_shallow h))
                    sp !! t = Some (VObj p)).
  { revert Hreg. unfold sp. by destruct (registry_of _ _). }
  mrw (toRaw_proxy (S f) f sp p t h o Hp Hreg' Ht Hraw).
  unfold read.
  mrw (get_plain (S f) sp t o (KStr (name_of_method (Mutator m)))
         (VObj t) Ht).
  unfold ordinary_get. fold (mutator_name m).
  rewrite Hown, Harr, mutator_name_instrumented. done.
Qed.

Lemma array_behind_same_heap s s' p t h o l :
  heap s' = heap s ->
  (forall r, proxyMap_get r s' = proxyMap_get r s) ->
  array_behind s p t h o l -> array_behind s' p t h o l.
Proof. unfold array_behind. intros -> ->. done. Qed.

(** X21.  [push] of primitive values on a mutable proxy of an array
    whose new length stays below [2^32] returns, with the new length.
    The values are appended to the raw array after its old elements,
    which stay as they are, and its length grows by their number.
    One [ADD] notification goes out for each new index, in order, and
    none for [length]; no dependency is registered and the
    suppression state is restored. *)
Theorem push_through_proxy (f : nat) (s : state) (p t : addr) (h : handler)
    (o : object) (l : nat) (args : list value) :
  h_readonly h = false -> h_collection h = false ->
  array_behind s p t h o l ->
  (Z.of_nat (l + length args) < 4294967296)%Z ->
  own_lookup (props o) (KStr "push") = None ->
  Forall (fun v => isObject v = false) args ->
  exists s' o',
    call_method (S (S f)) (VObj p) "push" args s
    = Some (num (l + length args), s')
    /\ heap s' !! t = Some (Plain o')
    /\ own_lookup (props o') (KStr "length") = Some (num (l + length args))
    /\ (forall j v, args !! j = Some v ->
          own_lookup (props o') (idx (l + j)) = Some v)
    /\ (forall i, i < l ->
          own_lookup (props o') (idx i) = own_lookup (props o) (idx i))
    /\ triggered s' = (triggered s ++ appended t l args)%list
    /\ deps s' = deps s
    /\ shouldTrack s' = shouldTrack s
    /\ trackStack s' = trackStack s.
Proof.
  intros Hro Hc Hinv _ Hown Hargs.
  pose proof Hinv as (Hp & Hreg & Ht & Harr & Hext & Hraw & Hlen & Hnone).
  change "push" with (mutator_name Push).
  rewrite (call_mutator_through_mutable f s p t h o Push args Hp Hro Hc Hreg
             Ht Harr Hown Hraw).
  set (sp := set_tracking false (shouldTrack s :: trackStack s) s).
  set (F := S (S f)).
  assert (Hinvp : array_behind sp p t h o l).
  { apply (array_behind_same_heap s); [done| |done]. by intros []. }
  set (st := add_track (TrackEv (VObj t) GET (KStr "length")) sp).
  assert (Hl : LengthOfArrayLike (get_prop F) (VObj p) sp = Some (l, st)).
  { apply (get_length_through_proxy f sp p t h o l); try done.
    unfold ordinary_get. by rewrite Hlen. }
  assert (Hinvt : array_behind st p t h o l).
  { apply (array_behind_same_heap sp); [done| |done]. by intros []. }
  destruct (push_items f p t h args Hro Hc Hargs l st o Hinvt)
    as (s1 & o1 & Hitems & Hinv1 & Htr1 & Hel1 & Hk1).
  destruct (set_length_same f s1 p t h o1 (l + length args) Hro Hc Hinv1)
    as (s2 & o2 & Hset & Ht2 & Htr2 & _ & Hlen2 & Hel2).
  assert (Hnat : native_mutator (get_prop F) (set_prop F) (del_prop F)
                   (has_prop F) Push (VObj p) args sp
                 = Some (num (l + length args), s2)).
  { unfold native_mutator. mrw Hl. mrw Hitems. unfold Set_or_throw.
    rewrite (bind_Some _ _ _ _ _
               (bind_Some _ (fun ok : bool => if ok then ret tt else fail)
                  _ _ _ Hset)).
    done. }
  destruct (quiet_native_mutator _ _ _ _
              (fun o k r => preserves_quiet_of_get _
                              (preserves_get_prop F o k r))
              (quiet_set_prop F) (quiet_del_prop F) (quiet_has_prop F)
              Push (VObj p) args sp _ s2 Hnat) as (Hst & Hstk & Hdeps).
  mrw Hnat. unfold resetTracking. mstep. rewrite Hstk. simpl.
  eexists _, o2. split; [done|]. simpl.
  split; [done|]. split; [done|]. split.
  { intros j v Hj. rewrite Hel2; [by apply Hel1|].
    apply lookup_lt_Some in Hj. lia. }
  split.
  { intros i Hi. rewrite Hel2 by lia. apply Hk1; [|apply idx_not_length].
    intros j E. apply idx_inj in E. lia. }
  split; [by rewrite Htr2, Htr1|]. split; [|done].
  by rewrite Hdeps.
Qed.

(** The array [[5, "b", 8]] behind its proxy. *)
Lemma three_array_behind :
  array_behind three_array_state 1 0 mutableHandlers
    (Object "Array" true
       [(KStr "0", VNum (Num 5)); (KStr "1", VStr "b");
        (KStr "2", VNum (Num 8)); (KStr "length", VNum (Num 3))]) 3.
Proof.
  unfold array_behind. repeat split; try reflexivity.
  intros i Hi. simpl.
  repeat (match goal with
          | |- context [decide (?a = idx i)] =>
              destruct (decide (a = idx i)) as [E|_];
              [change a with (idx 0) in E || change a with (idx 1) in E
               || change a with (idx 2) in E || idtac|]
          end).
  all: try (apply idx_inj in E; lia).
  all: try (symmetry in E; by apply idx_not_length in E).
  done.
Qed.

Lemma push_through_proxy_witness :
  let s := three_array_state in
  let o := Object "Array" true
             [(KStr "0", VNum (Num 5)); (KStr "1", VStr "b");
              (KStr "2", VNum (Num 8)); (KStr "length", VNum (Num 3))] in
  let args := [VStr "x"; VNum NaN] in
  exists s' o',
    call_method 2 (VObj 1) "push" args s = Some (VNum (Num 5), s')
    /\ heap s' !! 0 = Some (Plain o')
    /\ own_lookup (props o') (KStr "length") = Some (VNum (Num 5))
    /\ (forall j v, args !! j = Some v ->
          own_lookup (props o') (idx (3 + j)) = Some v)
    /\ (forall i, i < 3 ->
          own_lookup (props o') (idx i) = own_lookup (props o) (idx i))
    /\ triggered s'
       = [TriggerEv (VObj 0) ADD (KStr "3") (VStr "x") VUndefined;
          TriggerEv (VObj 0) ADD (KStr "4") (VNum NaN) VUndefined]
    /\ deps s' = deps s
    /\ shouldTrack s' = shouldTrack s
    /\ trackStack s' = trackStack s.
Proof.
  intros s o args.
  apply (push_through_proxy 0 s 1 0 mutableHandlers o 3 args);
    try reflexivity.
  - apply three_array_behind.
  - repeat constructor.
Defined.

(** ** Values the handlers leave as they are *)

(** X22.  A nested object the classifier turns down (it carries the
    skip marker, or is not extensible, or is of no wrappable kind)
    comes back from a read through a deep proxy as it is, not wrapped,
    as long as the registry holds no wrapper made for it earlier. *)
Theorem nested_unwrappable_read_raw (f : nat) (s : state) (p t c : addr)
    (h : handler) (o oc : object) (k : key) :
  heap s !! p = Some (Proxy t h) ->
  h_collection h = false -> h_shallow h = false ->
  heap s !! t = Some (Plain o) ->
  (k ∉ [ReactiveFlags.IS_REACTIVE; ReactiveFlags.IS_READONLY;
        ReactiveFlags.IS_SHALLOW; ReactiveFlags.RAW]) ->
  (isArray_obj o = true -> arrayInstrumentations k = None) ->
  builtInSymbols_has k = false ->
  isNonTrackableKeys k = false ->
  ordinary_get o k = VObj c ->
  heap s !! c = Some (Plain oc) ->
  is_box s (VObj c) = false ->
  truthy (ordinary_get oc ReactiveFlags.SKIP) = true
  \/ extensible oc = false
  \/ rawType oc ∉ wrappable_kinds ->
  proxyMap_get (variant_registry (nested_variant (h_readonly h))) s !! c
    = None ->
  get_prop (S (S f)) (VObj p) k (VObj p) s
  = Some (VObj c,
          if h_readonly h then s else add_track (TrackEv (VObj t) GET k) s).
Proof.
  intros Hp Hc Hsh Ht Hk Harr Hb Hn Hres Hcc Hbox Hinv Hreg.
  pose proof (returns_early_false (h_readonly h) (h_shallow h) s t o k
                (VObj p) Hk Harr Hb Hn) as Hearly.
  rewrite (nested_read_is_wrap f s p t h o k (VObj p) c oc) by done.
  assert (Hs0 : tracked (h_readonly h) (h_shallow h) s t o k (VObj p)
                = if h_readonly h then s
                  else add_track (TrackEv (VObj t) GET k) s).
  { unfold tracked, read_trap_tracks. rewrite Hearly.
    by destruct (h_readonly h). }
  rewrite Hs0. set (s0 := if h_readonly h then s else _).
  assert (Hcc0 : heap s0 !! c = Some (Plain oc))
    by (unfold s0; by destruct (h_readonly h)).
  assert (Hreg0 : proxyMap_get (variant_registry
                                  (nested_variant (h_readonly h))) s0 !! c
                  = None).
  { unfold s0. destruct (h_readonly h); [done|].
    by rewrite proxyMap_get_add_track. }
  rewrite (wrap_plain f s0 c oc _ Hcc0).
  assert (Hcl : classify oc = INVALID).
  { unfold classify. destruct Hinv as [-> | [He | Hkind]]; [done| |].
    - rewrite He. by destruct (truthy _).
    - destruct (truthy _); [done|]. destruct (extensible oc); [|done].
      by apply targetTypeMap_INVALID. }
  unfold wrap_result, factory_result. rewrite Hreg0, Hcl. simpl.
  by repeat (match goal with |- context [if ?b then _ else _] => destruct b end).
Qed.

Lemma nested_unwrappable_read_raw_witness :
  let s := state_after (wrap 1 MutableDeep (VObj 1))
             (init_state
                [plain_object [(ReactiveFlags.SKIP, VBool true)];
                 plain_object [(KStr "lib", VObj 0)]]) in
  get_prop 2 (VObj 2) (KStr "lib") (VObj 2) s
  = Some (VObj 0, add_track (TrackEv (VObj 1) GET (KStr "lib")) s).
Proof.
  intros s.
  apply (nested_unwrappable_read_raw 0 s 2 1 0 mutableHandlers
           (Object "Object" true [(KStr "lib", VObj 0)])
           (Object "Object" true [(ReactiveFlags.SKIP, VBool true)])
           (KStr "lib")); try reflexivity.
  - rewrite !elem_of_cons, elem_of_nil. by intros [?|[?|[?|[?|[]]]]].
  - left. reflexivity.
Defined.
Lemma createSetter_keeps f s t o k v shv r :
  heap s !! t = Some (Plain o) ->
  is_raw s (ordinary_get o k) = true ->
  is_box s (ordinary_get o k) = false ->
  isShallow (get_prop (S (S f))) v s = Some (shv, s) ->
  (shv = false -> isReadonly (get_prop (S (S f))) v s = Some (true, s)) ->
  createSetter (S (S f)) (get_prop (S (S f))) (set_prop (S f)) false t k v r s
  = set_and_notify (S (S f)) (get_prop (S (S f))) (set_prop (S f))
      t k v (ordinary_get o k) r s.
Proof.
  intros Ht Hraw Hbox Hsh Hro. set (old := ordinary_get o k) in *.
  unfold is_box in Hbox. rewrite Hraw in Hbox. simpl in Hbox.
  unfold createSetter, read.
  mrw (get_plain (S f) s t o k (VObj t) Ht). fold old.
  mrw (isReadonly_raw (S f) s old Hraw).
  assert (Href : (if truthy old
                     && truthy (prop_of s old ReactiveFlags.IS_READONLY)
                  then isRef (get_prop (S (S f))) old else ret false) s
                 = Some (false, s)).
  { destruct (truthy old && truthy _); [|done].
    rewrite (isRef_raw (S f) s old Hraw). by rewrite Hbox. }
  mrw Href. mrw Hsh.
  assert (Hun : (if shv then ret false
                 else let* ro := isReadonly (get_prop (S (S f))) v in
                      ret (negb ro)) s = Some (false, s)).
  { destruct shv; [done|]. by mrw (Hro eq_refl). }
  mrw Hun.
  assert (Hr1 : (if negb (isArray s (VObj t))
                 then isRef (get_prop (S (S f))) old else ret false) s
                = Some (false, s)).
  { destruct (negb _); [|done].
    rewrite (isRef_raw (S f) s old Hraw). by rewrite Hbox. }
  mrw Hr1. done.
Qed.

(** X23.  The deep setter unwraps only what is neither shallow nor
    readonly: a readonly proxy or a shallow proxy written through a
    deep mutable proxy is stored as the proxy it is, and the write is
    notified with that proxy as the new value.  The key is neither
    the [length] of an array, which takes no object, nor the skip
    marker. *)
Theorem write_keeps_wrapped_value (f : nat) (s : state) (p t pv tv : addr)
    (h hv : handler) (o : object) (k : key) :
  heap s !! p = Some (Proxy t h) ->
  h_readonly h = false -> h_collection h = false -> h_shallow h = false ->
  proxyMap_get (registry_of (h_readonly h) (h_shallow h)) s !! t
    = Some (VObj p) ->
  heap s !! t = Some (Plain o) ->
  truthy (ordinary_get o ReactiveFlags.RAW) = false ->
  k <> ReactiveFlags.RAW ->
  k <> ReactiveFlags.SKIP ->
  array_length_key o k = false ->
  is_raw s (ordinary_get o k) = true ->
  is_box s (ordinary_get o k) = false ->
  extensible o = true \/ is_Some (own_lookup (props o) k) ->
  heap s !! pv = Some (Proxy tv hv) ->
  h_shallow hv = true \/ h_readonly hv = true ->
  exists s' o',
    set_prop (S (S f)) (VObj p) k (VObj pv) (VObj p) s = Some (true, s')
    /\ heap s' !! t = Some (Plain o')
    /\ own_lookup (props o') k = Some (VObj pv)
    /\ triggered s'
       = (triggered s
          ++ notification t o k (VObj pv) (ordinary_get o k) (VObj t))%list.
Proof.
  intros Hp Hro Hc Hsh Hreg Ht Hraw Hk _ _ Holdraw Hbox Hacc Hpv Hv.
  rewrite (set_prop_proxy _ _ _ _ _ _ _ _ Hp Hc Hro), Hsh.
  rewrite (createSetter_keeps f s t o k (VObj pv) (h_shallow hv) (VObj p) Ht
             Holdraw Hbox).
  - rewrite (set_and_notify_result f s t o p h k (VObj pv) _ Ht Hp Hreg Hraw
               Hk).
    destruct (ordinary_define_accepts o k (VObj pv) Hacc) as [o' Hd].
    rewrite Hd. eexists _, o'. split; [done|].
    rewrite heap_notified, heap_update_cell, triggered_notified.
    split; [|split; [by apply ordinary_define_lookup in Hd | done]].
    apply list_lookup_insert_eq. by eapply lookup_lt_Some.
  - apply (isShallow_proxy (S f) s pv tv hv Hpv).
  - intros Hs. rewrite (isReadonly_proxy (S f) s pv tv hv Hpv).
    destruct Hv as [Hv|Hv]; [congruence | by rewrite Hv].
Qed.

Lemma write_keeps_wrapped_value_witness :
  let s := state_after (wrap 1 MutableDeep (VObj 0) ;;
                        wrap 1 ReadonlyDeep (VObj 1))
             (init_state [plain_object [(KStr "a", VNum (Num 1))];
                          plain_object [(KStr "x", VNum (Num 1))]]) in
  let o := Object "Object" true [(KStr "a", VNum (Num 1))] in
  exists s' o',
    set_prop 2 (VObj 2) (KStr "a") (VObj 3) (VObj 2) s = Some (true, s')
    /\ heap s' !! 0 = Some (Plain o')
    /\ own_lookup (props o') (KStr "a") = Some (VObj 3)
    /\ triggered s'
       = (triggered s
          ++ notification 0 o (KStr "a") (VObj 3) (VNum (Num 1)) (VObj 0))%list.
Proof.
  intros s o.
  apply (write_keeps_wrapped_value 0 s 2 0 3 1 mutableHandlers
           readonlyHandlers o (KStr "a")); try reflexivity.
  - discriminate.
  - discriminate.
  - left. reflexivity.
  - right. reflexivity.
Defined.

(** ** [pop] through a mutable proxy of an array *)

Lemma integer_key_is_plain k :
  isIntegerKey k = true ->
  (k ∉ [ReactiveFlags.IS_REACTIVE; ReactiveFlags.IS_READONLY;
        ReactiveFlags.IS_SHALLOW; ReactiveFlags.RAW])
  /\ arrayInstrumentations k = None
  /\ builtInSymbols_has k = false
  /\ isNonTrackableKeys k = false.
Proof.
  intros Hk. destruct k as [str|y]; [|done].
  split; [|split; [|split; [done|]]].
  - rewrite !elem_of_cons, elem_of_nil.
    intros [E|[E|[E|[E|[]]]]]; rewrite E in Hk; by vm_compute in Hk.
  - unfold arrayInstrumentations, method_of_name.
    repeat match goal with
           | |- context [String.eqb str ?x] =>
               destruct (String.eqb_spec str x) as [E|_];
               [rewrite E in Hk; by vm_compute in Hk|]
           end.
    done.
  - unfold isNonTrackableKeys. apply bool_decide_eq_false_2.
    rewrite !elem_of_cons, elem_of_nil.
    intros [E|[E|[E|[]]]]; rewrite E in Hk; by vm_compute in Hk.
Qed.

Lemma get_element_through_proxy f s p t h o i e :
  heap s !! p = Some (Proxy t h) ->
  h_readonly h = false -> h_collection h = false ->
  heap s !! t = Some (Plain o) ->
  own_lookup (props o) (idx i) = Some e ->
  isObject e = false ->
  get_prop (S (S f)) (VObj p) (idx i) (VObj p) s
  = Some (e, add_track (TrackEv (VObj t) GET (idx i)) s).
Proof.
  intros Hp Hro Hc Ht He Hprim.
  destruct (integer_key_is_plain (idx i) (isIntegerKey_idx i))
    as (Hk & Hai & Hb & Hn).
  pose proof (returns_early_false (h_readonly h) (h_shallow h) s t o (idx i)
                (VObj p) Hk (fun _ => Hai) Hb Hn) as Hearly.
  rewrite (get_prop_proxy _ _ _ _ _ _ _ Hp Hc).
  destruct (createGetter_plain f s (h_readonly h) (h_shallow h) t o
              (idx i) (VObj p) Ht) as [_ Hlate].
  rewrite (Hlate Hearly).
  assert (Hg : ordinary_get o (idx i) = e)
    by (unfold ordinary_get; by rewrite He).
  rewrite Hg, convert_read_primitive by done.
  unfold tracked, read_trap_tracks. by rewrite Hearly, Hro.
Qed.

Lemma del_element_through_proxy f s p t h o i e :
  heap s !! p = Some (Proxy t h) ->
  h_readonly h = false -> h_collection h = false ->
  heap s !! t = Some (Plain o) ->
  own_lookup (props o) (idx i) = Some e ->
  del_prop (S (S f)) (VObj p) (idx i) s
  = Some (true,
          add_trigger (TriggerEv (VObj t) DELETE (idx i) VUndefined e)
            (update_cell t
               (Plain (with_props o (own_remove (props o) (idx i)))) s)).
Proof.
  intros Hp Hro Hc Ht He.
  rewrite (del_through_mutable f s p t h o (idx i) Hp Hro Hc Ht).
  rewrite (bool_decide_eq_false_2 (idx i = KStr "length"))
    by apply idx_not_length.
  rewrite andb_false_r. unfold deletion, ordinary_get. rewrite He.
  by rewrite bool_decide_eq_true_2.
Qed.

Lemma own_lookup_filter_None (P : key * value -> Prop)
    `{!forall x, Decision (P x)} ps k :
  own_lookup ps k = None -> own_lookup (filter P ps) k = None.
Proof.
  induction ps as [|[k' v'] ps IH]; [done|].
  rewrite filter_cons. simpl. destruct (decide (k' = k)) as [->|Hne]; [done|].
  intros Hk. destruct (decide (P (k', v'))); simpl; [|by apply IH].
  rewrite decide_False by done. by apply IH.
Qed.

Lemma set_length_through_proxy f s p t h o l n :
  h_readonly h = false -> h_collection h = false ->
  array_behind s p t h o l ->
  exists s' o',
    set_prop (S (S f)) (VObj p) (KStr "length") (num n) (VObj p) s
    = Some (true, s')
    /\ heap s' !! t = Some (Plain o')
    /\ triggered s'
       = (triggered s
          ++ if bool_decide (n = l) then []
             else [TriggerEv (VObj t) SET (KStr "length") (num n) (num l)])%list
    /\ own_lookup (props o') (KStr "length") = Some (num n)
    /\ (forall i, i < n ->
          own_lookup (props o') (idx i) = own_lookup (props o) (idx i))
    /\ (forall k, k <> KStr "length" -> own_lookup (props o) k = None ->
          own_lookup (props o') k = None).
Proof.
  intros Hro Hc (Hp & Hreg & Ht & Harr & Hext & Hraw & Hlen & Hnone).
  assert (Hget : ordinary_get o (KStr "length") = num l)
    by (unfold ordinary_get; by rewrite Hlen).
  assert (Hd : ordinary_define o (KStr "length") (num n)
               = Some (with_props o
                         (own_update
                            (filter (fun kv => negb (isIntegerKey kv.1)
                                        || index_lt (Number_of_key kv.1) (num n))
                                    (props o))
                            (KStr "length") (num n)))).
  { unfold ordinary_define. rewrite Hlen, Harr.
    by rewrite bool_decide_eq_true_2. }
  set (o' := with_props o _) in Hd.
  assert (Hbox : is_box s (num l) = false)
    by (unfold is_box; simpl; by rewrite andb_false_r).
  rewrite (set_prop_proxy _ _ _ _ _ _ _ _ Hp Hc Hro).
  rewrite (createSetter_reduces f s t o (h_shallow h) (KStr "length") (num n)
             (num n) (VObj p) Ht);
    rewrite ?Hget; try done; [|intros _; by apply primitive_unwrapped].
  rewrite (set_and_notify_result f s t o p h (KStr "length") (num n) _ Ht Hp
             Hreg Hraw) by done.
  rewrite Hd.
  assert (Hn : notification t o (KStr "length") (num n) (num l) (VObj t)
               = if bool_decide (n = l) then []
                 else [TriggerEv (VObj t) SET (KStr "length") (num n) (num l)]).
  { unfold notification, existed_before, hasChanged, same_value, strict_eq.
    rewrite (bool_decide_eq_true_2 (VObj t = VObj t)) by done.
    rewrite andb_false_r, Hlen.
    rewrite (bool_decide_eq_true_2 (is_Some _)) by done. cbn [negb].
    destruct (decide (n = l)) as [->|Hne].
    - by rewrite !bool_decide_eq_true_2.
    - rewrite !bool_decide_eq_false_2; [done|done|].
      unfold num. intros [= E]. lia. }
  rewrite Hn. eexists _, o'. split; [done|].
  rewrite heap_notified, heap_update_cell, triggered_notified.
  split; [apply list_lookup_insert_eq; by eapply lookup_lt_Some|].
  split; [done|]. split; [apply own_lookup_update|]. split.
  - intros i Hi. unfold o'. cbn [props with_props].
    rewrite own_lookup_update_ne by (intros E; by apply (idx_not_length i)).
    apply own_lookup_filter. intros v. cbn [fst].
    rewrite isIntegerKey_idx, Number_of_key_idx, index_lt_num.
    by rewrite bool_decide_eq_true_2.
  - intros k Hk Hnk. unfold o'. cbn [props with_props].
    rewrite own_lookup_update_ne by done.
    by apply own_lookup_filter_None.
Qed.
(** X24.  [pop] on a mutable proxy of an array whose last element is
    a primitive returns that element.  The element is deleted from
    the raw array and its length goes down by one; the elements
    before it stay.  Two notifications go out, [DELETE] for the index
    with the old element and [SET] for [length] with the new and the
    old length; no dependency is registered and the suppression state
    is restored. *)
Theorem pop_through_proxy (f : nat) (s : state) (p t : addr) (h : handler)
    (o : object) (n : nat) (e : value) (args : list value) :
  h_readonly h = false -> h_collection h = false ->
  array_behind s p t h o (S n) ->
  own_lookup (props o) (KStr "pop") = None ->
  own_lookup (props o) (idx n) = Some e ->
  isObject e = false ->
  exists s' o',
    call_method (S (S f)) (VObj p) "pop" args s = Some (e, s')
    /\ heap s' !! t = Some (Plain o')
    /\ own_lookup (props o') (KStr "length") = Some (num n)
    /\ own_lookup (props o') (idx n) = None
    /\ (forall i, i < n ->
          own_lookup (props o') (idx i) = own_lookup (props o) (idx i))
    /\ triggered s'
       = (triggered s
          ++ [TriggerEv (VObj t) DELETE (idx n) VUndefined e;
              TriggerEv (VObj t) SET (KStr "length") (num n) (num (S n))])%list
    /\ deps s' = deps s
    /\ shouldTrack s' = shouldTrack s
    /\ trackStack s' = trackStack s.
Proof.
  intros Hro Hc Hinv Hown He Hprim.
  pose proof Hinv as (Hp & Hreg & Ht & Harr & Hext & Hraw & Hlen & Hnone).
  change "pop" with (mutator_name Pop).
  rewrite (call_mutator_through_mutable f s p t h o Pop args Hp Hro Hc Hreg
             Ht Harr Hown Hraw).
  set (sp := set_tracking false (shouldTrack s :: trackStack s) s).
  set (F := S (S f)).
  set (st := add_track (TrackEv (VObj t) GET (KStr "length")) sp).
  assert (Hl : LengthOfArrayLike (get_prop F) (VObj p) sp = Some (S n, st)).
  { apply (get_length_through_proxy f sp p t h o (S n)); try done.
    unfold ordinary_get. by rewrite Hlen. }
  set (st1 := add_track (TrackEv (VObj t) GET (idx n)) st).
  assert (Hget : get_prop F (VObj p) (idx n) (VObj p) st = Some (e, st1))
    by (by apply (get_element_through_proxy f st p t h o n e)).
  set (o1 := with_props o (own_remove (props o) (idx n))).
  set (s1 := add_trigger (TriggerEv (VObj t) DELETE (idx n) VUndefined e)
               (update_cell t (Plain o1) st1)).
  assert (Hdel : del_prop F (VObj p) (idx n) st1 = Some (true, s1))
    by (by apply (del_element_through_proxy f st1 p t h o n e)).
  assert (Hpt : p <> t) by (intros ->; congruence).
  assert (Hinv1 : array_behind s1 p t h o1 (S n)).
  { unfold array_behind, s1. simpl.
    split; [by rewrite list_lookup_insert_ne|].
    split; [revert Hreg; by destruct (registry_of _ _)|].
    split; [apply list_lookup_insert_eq; by eapply lookup_lt_Some|].
    split; [done|]. split; [done|]. split.
    { unfold ordinary_get, o1 in *. cbn [props with_props] in *.
      rewrite own_lookup_remove_ne by (apply not_eq_sym, idx_not_RAW).
      exact Hraw. }
    split.
    { rewrite own_lookup_remove_ne by (apply not_eq_sym, idx_not_length).
      exact Hlen. }
    intros i Hi.
    rewrite own_lookup_remove_ne by (intros E; apply idx_inj in E; lia).
    by apply Hnone. }
  destruct (set_length_through_proxy f s1 p t h o1 (S n) n Hro Hc Hinv1)
    as (s2 & o2 & Hset & Ht2 & Htr2 & Hlen2 & Hel2 & Hnone2).
  assert (Hnat : native_mutator (get_prop F) (set_prop F) (del_prop F)
                   (has_prop F) Pop (VObj p) args sp = Some (e, s2)).
  { unfold native_mutator. mrw Hl. mrw Hget.
    unfold Delete_or_throw, Set_or_throw.
    rewrite (bind_Some _ _ _ _ _
               (bind_Some _ (fun ok : bool => if ok then ret tt else fail)
                  _ _ _ Hdel)).
    mstep.
    rewrite (bind_Some _ _ _ _ _
               (bind_Some _ (fun ok : bool => if ok then ret tt else fail)
                  _ _ _ Hset)).
    done. }
  destruct (quiet_native_mutator _ _ _ _
              (fun o k r => preserves_quiet_of_get _
                              (preserves_get_prop F o k r))
              (quiet_set_prop F) (quiet_del_prop F) (quiet_has_prop F)
              Pop (VObj p) args sp _ s2 Hnat) as (Hst & Hstk & Hdeps).
  mrw Hnat. unfold resetTracking. mstep. rewrite Hstk. simpl.
  eexists _, o2. split; [done|]. simpl.
  split; [done|]. split; [done|]. split.
  { apply Hnone2; [apply idx_not_length|]. apply own_lookup_remove. }
  split.
  { intros i Hi. rewrite Hel2 by done. unfold o1. cbn [props with_props].
    apply own_lookup_remove_ne. intros E. apply idx_inj in E. lia. }
  split.
  { rewrite Htr2. rewrite bool_decide_eq_false_2 by lia.
    unfold s1. simpl. by rewrite <- app_assoc. }
  split; [|done]. by rewrite Hdeps.
Qed.
Lemma pop_through_proxy_witness :
  let s := three_array_state in
  let o := Object "Array" true
             [(KStr "0", VNum (Num 5)); (KStr "1", VStr "b");
              (KStr "2", VNum (Num 8)); (KStr "length", VNum (Num 3))] in
  exists s' o',
    call_method 2 (VObj 1) "pop" [] s = Some (VNum (Num 8), s')
    /\ heap s' !! 0 = Some (Plain o')
    /\ own_lookup (props o') (KStr "length") = Some (VNum (Num 2))
    /\ own_lookup (props o') (KStr "2") = None
    /\ (forall i, i < 2 ->
          own_lookup (props o') (idx i) = own_lookup (props o) (idx i))
    /\ triggered s'
       = [TriggerEv (VObj 0) DELETE (KStr "2") VUndefined (VNum (Num 8));
          TriggerEv (VObj 0) SET (KStr "length") (VNum (Num 2))
            (VNum (Num 3))]
    /\ deps s' = deps s
    /\ shouldTrack s' = shouldTrack s
    /\ trackStack s' = trackStack s.
Proof.
  intros s o.
  apply (pop_through_proxy 0 s 1 0 mutableHandlers o 2 (VNum (Num 8)) []);
    try reflexivity.
  apply three_array_behind.
Defined.

(** ** Classification and the skip marker

    The marker holds for as long as it is left alone. *)

#[global] Instance keeps_marked_preorder x r : PreOrder (keeps_marked x r).
Proof.
  split.
  - intros s. unfold keeps_marked. done.
  - intros s1 s2 s3 H1 H2. unfold keeps_marked in *. auto.
Qed.

Lemma marked_same_heap x r s s' :
  heap s' = heap s -> proxyMap_get r s' = proxyMap_get r s ->
  keeps_marked x r s s'.
Proof. intros Hh Hr. unfold keeps_marked, marked_unwrapped. by rewrite Hh, Hr. Qed.

Lemma marked_track x r e s : keeps_marked x r s (add_track e s).
Proof. apply marked_same_heap; [done|by destruct r]. Qed.

Lemma marked_trigger x r e s : keeps_marked x r s (add_trigger e s).
Proof. apply marked_same_heap; [done|by destruct r]. Qed.

Lemma marked_warning x r w s : keeps_marked x r s (add_warning w s).
Proof. apply marked_same_heap; [done|by destruct r]. Qed.

Lemma marked_tracking x r st stk s : keeps_marked x r s (set_tracking st stk s).
Proof. apply marked_same_heap; [done|by destruct r]. Qed.

Lemma marked_alloc x r c s : keeps_marked x r s (set_heap (heap s ++ [c]) s).
Proof.
  intros [(o & Hx & Hs) Hr]. split.
  - exists o. split; [|done]. simpl. by apply lookup_app_l_Some.
  - by rewrite proxyMap_get_set_heap.
Qed.

(** Replacing an ordinary object keeps the marker when the new object
    still carries it. *)
Lemma marked_update_plain x r a o o' s :
  heap s !! a = Some (Plain o) ->
  (truthy (ordinary_get o ReactiveFlags.SKIP) = true ->
   truthy (ordinary_get o' ReactiveFlags.SKIP) = true) ->
  keeps_marked x r s (update_cell a (Plain o') s).
Proof.
  intros Ha Hk [(ox & Hx & Hs) Hr]. split.
  - rewrite heap_update_cell. destruct (decide (a = x)) as [->|Hne].
    + exists o'. split.
      * apply list_lookup_insert_eq. by eapply lookup_lt_Some.
      * apply Hk. congruence.
    + exists ox. by rewrite list_lookup_insert_ne.
  - by rewrite proxyMap_get_update_cell.
Qed.

Lemma ordinary_define_SKIP o k v o' :
  ordinary_define o k v = Some o' ->
  k <> ReactiveFlags.SKIP ->
  ordinary_get o' ReactiveFlags.SKIP = ordinary_get o ReactiveFlags.SKIP.
Proof.
  intros Hd Hk.
  assert (Hl : own_lookup (props o') ReactiveFlags.SKIP
               = own_lookup (props o) ReactiveFlags.SKIP
               /\ rawType o' = rawType o).
  { revert Hd. unfold ordinary_define.
    destruct (own_lookup (props o) k).
    - destruct (isArray_obj o && bool_decide (k = KStr "length"));
        intros [= <-]; simpl; (split; [|done]);
        rewrite own_lookup_update_ne by done; [|done].
      by apply own_lookup_filter.
    - destruct (extensible o); [|done].
      destruct (isArray_obj o && isIntegerKey k).
      + destruct (own_lookup (own_update (props o) k v) (KStr "length"))
          as [len|]; [destruct (index_lt (Number_of_key k) len)|];
          intros [= <-]; simpl; (split; [|done]);
          rewrite ?(own_lookup_update_ne _ (KStr "length")) by done;
          by rewrite own_lookup_update_ne.
      + intros [= <-]. simpl. split; [|done].
        by rewrite own_lookup_update_ne. }
  destruct Hl as [Hl Hrt]. unfold ordinary_get, isArray_obj.
  by rewrite Hl, Hrt.
Qed.

Lemma preserves_marked_modify x r (g : state -> state) :
  (forall s, keeps_marked x r s (g s)) ->
  preserves (keeps_marked x r) (modify g).
Proof. apply preserves_modify. Qed.

#[global] Hint Resolve marked_track marked_trigger marked_warning marked_alloc
  marked_tracking : frame.
#[global] Hint Extern 1 (preserves (keeps_marked _ _) (modify _)) =>
  apply preserves_marked_modify; intros ? : frame.
#[global] Hint Extern 1 (preserves (keeps_marked _ _) (track _ _ _)) =>
  apply preserves_marked_modify; intros ? : frame.
#[global] Hint Extern 1 (preserves (keeps_marked _ _) (trigger _ _ _ _ _)) =>
  apply preserves_marked_modify; intros ? : frame.
#[global] Hint Extern 1 (preserves (keeps_marked _ _) (warn _)) =>
  apply preserves_marked_modify; intros ? : frame.

Section MarkedGet.
Variable x : addr.
Variable r : registry.
Variable get : getter.
Hypothesis Hget : forall o k rv, preserves (keeps_marked x r) (get o k rv).
Hypothesis Hplain : forall s a o k rv res s',
  heap s !! a = Some (Plain o) ->
  get (VObj a) k rv s = Some (res, s') ->
  res = ordinary_get o k /\ s' = s.

Lemma marked_read o k : preserves (keeps_marked x r) (read get o k).
Proof. apply Hget. Qed.
#[local] Hint Resolve marked_read : frame.

Lemma marked_isRef v : preserves (keeps_marked x r) (isRef get v).
Proof. unfold isRef, read. pres; auto with frame. Qed.
#[local] Hint Resolve marked_isRef : frame.

Lemma marked_isReadonly v : preserves (keeps_marked x r) (isReadonly get v).
Proof. unfold isReadonly, read. pres; auto with frame. Qed.
#[local] Hint Resolve marked_isReadonly : frame.

Lemma marked_isShallow v : preserves (keeps_marked x r) (isShallow get v).
Proof. unfold isShallow, read. pres; auto with frame. Qed.
#[local] Hint Resolve marked_isShallow : frame.

Lemma marked_toRaw n v : preserves (keeps_marked x r) (toRaw get n v).
Proof.
  revert v. induction n as [|n IH]; intros v; simpl; unfold read; pres;
    auto with frame.
Qed.
#[local] Hint Resolve marked_toRaw : frame.

Lemma marked_getTargetType v :
  preserves (keeps_marked x r) (getTargetType get v).
Proof. unfold getTargetType, read. pres; auto with frame. Qed.

(** The classifier turns the marked object down, so the factory
    registers nothing for it; what it registers for another object
    leaves the entry of [x] alone. *)
Lemma marked_register a bh ch r' :
  preserves (keeps_marked x r)
    (let* targetType := getTargetType get (VObj a) in
     match targetType with
     | INVALID => ret (VObj a)
     | _ =>
         let* proxy :=
           new_Proxy a
             (match targetType with
              | COLLECTION => ch
              | _ => bh
              end) in
         modify (proxyMap_set r' a proxy) ;;
         ret proxy
     end).
Proof.
  destruct (decide (a = x)) as [->|Hne].
  - intros s res s' Hrun Hm. pose proof Hm as [(o & Hx & Hs) _].
    apply bind_inv in Hrun as (tt & s1 & Et & Hrun).
    unfold getTargetType, read in Et.
    apply bind_inv in Et as (skip & s2 & Eskip & Et).
    destruct (Hplain _ _ _ _ _ _ _ Hx Eskip) as [-> ->].
    rewrite Hs in Et. injection Et as <- <-.
    by injection Hrun as _ <-.
  - apply preserves_bind; [apply _|apply marked_getTargetType|].
    intros tt.
    assert (Hn : forall h, preserves (keeps_marked x r)
              (let* proxy := new_Proxy a h in
               modify (proxyMap_set r' a proxy) ;; ret proxy)).
    { intros h s p s'. unfold new_Proxy. mstep. intros [= _ <-].
      intros [(o & Hx & Hs) Hr]. split.
      - exists o. split; [|done]. rewrite heap_proxyMap_set. simpl.
        by apply lookup_app_l_Some.
      - rewrite proxyMap_get_set_ne by (by right).
        by rewrite proxyMap_get_set_heap. }
    destruct tt; [apply preserves_ret; apply _|apply Hn..].
Qed.

Lemma marked_createReactiveObject t ro bh ch r' :
  preserves (keeps_marked x r) (createReactiveObject get t ro bh ch r').
Proof.
  unfold createReactiveObject, read.
  repeat first [ apply marked_register | pres_step ]; auto with frame.
Qed.
#[local] Hint Resolve marked_createReactiveObject : frame.

Lemma marked_reactive t : preserves (keeps_marked x r) (reactive get t).
Proof. unfold reactive. pres; auto with frame. Qed.
#[local] Hint Resolve marked_reactive : frame.

Lemma marked_readonly t : preserves (keeps_marked x r) (readonly get t).
Proof. apply marked_createReactiveObject. Qed.
#[local] Hint Resolve marked_readonly : frame.

Lemma marked_shallowReactive t :
  preserves (keeps_marked x r) (shallowReactive get t).
Proof. apply marked_createReactiveObject. Qed.

Lemma marked_shallowReadonly t :
  preserves (keeps_marked x r) (shallowReadonly get t).
Proof. apply marked_createReactiveObject. Qed.

Lemma marked_convert_read ro sh arr k res :
  preserves (keeps_marked x r) (convert_read get ro sh arr k res).
Proof. unfold convert_read, read. pres; auto with frame. Qed.
#[local] Hint Resolve marked_convert_read : frame.

Lemma marked_createGetter ro sh t k rv :
  preserves (keeps_marked x r) (createGetter get ro sh t k rv).
Proof. unfold createGetter, read. pres; auto with frame. Qed.

Lemma marked_collectionGetter ro sh t k rv :
  preserves (keeps_marked x r) (collectionGetter get ro sh t k rv).
Proof. unfold collectionGetter. pres; auto with frame. Qed.

Lemma marked_get_body o k rv : preserves (keeps_marked x r) (get_body get o k rv).
Proof.
  pose proof marked_createGetter. pose proof marked_collectionGetter.
  unfold get_body. pres; auto with frame.
Qed.
End MarkedGet.

Lemma get_prop_plain_inv f s a o k rv res s' :
  heap s !! a = Some (Plain o) ->
  get_prop f (VObj a) k rv s = Some (res, s') ->
  res = ordinary_get o k /\ s' = s.
Proof.
  intros Ha. destruct f as [|f]; [done|].
  rewrite (get_plain f s a o k rv Ha). by intros [= <- <-].
Qed.

Lemma marked_get_prop x r f o k rv :
  preserves (keeps_marked x r) (get_prop f o k rv).
Proof.
  revert o k rv. induction f as [|f IH]; intros o k rv.
  - apply preserves_fail.
  - rewrite get_prop_S. apply marked_get_body; [done|].
    intros s a ob k' rv' res s'. apply get_prop_plain_inv.
Qed.

Lemma marked_wrap x r f v y : preserves (keeps_marked x r) (wrap f v y).
Proof.
  pose proof (marked_get_prop x r f) as Hg.
  pose proof (get_prop_plain_inv f) as Hp.
  destruct v; unfold wrap.
  - apply marked_reactive; [done|]. intros s a o k rv res s'. apply Hp.
  - apply marked_shallowReactive; [done|].
    intros s a o k rv res s'. apply Hp.
  - apply marked_readonly; [done|]. intros s a o k rv res s'. apply Hp.
  - apply marked_shallowReadonly; [done|].
    intros s a o k rv res s'. apply Hp.
Qed.

Lemma idx_not_SKIP i : idx i <> ReactiveFlags.SKIP.
Proof.
  intros H. pose proof (isIntegerKey_idx i) as Hi. rewrite H in Hi.
  by vm_compute in Hi.
Qed.

#[global] Hint Extern 1 (_ <> ReactiveFlags.SKIP) =>
  first [ assumption | apply idx_not_SKIP | discriminate ] : frame.

Section MarkedSet.
Variable x : addr.
Variable r : registry.
Variable depth : nat.
Variable get : getter.
Variable set : setter.
Variable del : deleter.
Variable has : hasser.
Hypothesis Hget : forall o k rv, preserves (keeps_marked x r) (get o k rv).
Hypothesis Hset : forall o k v rv,
  k <> ReactiveFlags.SKIP -> preserves (keeps_marked x r) (set o k v rv).
Hypothesis Hdel : forall o k,
  k <> ReactiveFlags.SKIP -> preserves (keeps_marked x r) (del o k).
Hypothesis Hhas : forall o k, preserves (keeps_marked x r) (has o k).

#[local] Hint Resolve marked_get_prop marked_isRef marked_isReadonly
  marked_isShallow marked_toRaw marked_read : frame.

Lemma marked_assign o k v :
  k <> ReactiveFlags.SKIP -> preserves (keeps_marked x r) (assign set o k v).
Proof. intros Hk. unfold assign. pres; auto with frame. Qed.
#[local] Hint Resolve marked_assign : frame.

Lemma marked_set_and_notify t k v old rv :
  k <> ReactiveFlags.SKIP ->
  preserves (keeps_marked x r) (set_and_notify depth get set t k v old rv).
Proof. intros Hk. unfold set_and_notify. pres; auto with frame. Qed.
#[local] Hint Resolve marked_set_and_notify : frame.

Lemma marked_createSetter sh t k v rv :
  k <> ReactiveFlags.SKIP ->
  preserves (keeps_marked x r) (createSetter depth get set sh t k v rv).
Proof. intros Hk. unfold createSetter. pres; auto with frame. Qed.

Lemma marked_deleteProperty t k :
  k <> ReactiveFlags.SKIP ->
  preserves (keeps_marked x r) (deleteProperty get del t k).
Proof. intros Hk. unfold deleteProperty. pres; auto with frame. Qed.

Lemma marked_has_trap t k : preserves (keeps_marked x r) (has_trap has t k).
Proof. unfold has_trap. pres; auto with frame. Qed.

Lemma marked_set_body o k v rv :
  k <> ReactiveFlags.SKIP ->
  preserves (keeps_marked x r) (set_body depth get set o k v rv).
Proof.
  intros Hk. pose proof marked_createSetter.
  unfold set_body. destruct o as [| | | | | | |a]; try apply preserves_fail.
  intros s b s'. mstep. destruct (heap s !! a) as [[obj|t h]|] eqn:E.
  - mstep. destruct (underlying_of s rv) as [[b' obj']|] eqn:Eu; mstep.
    + destruct (ordinary_define obj' k v) as [obj''|] eqn:Ed; mstep;
        intros [= _ <-]; [|done].
      destruct rv; try done. apply underlying_is_plain in Eu.
      apply (marked_update_plain _ _ _ obj'); [done|].
      by rewrite (ordinary_define_SKIP _ _ _ _ Ed Hk).
    + by intros [= _ <-].
  - revert s b s' E.
    assert (Hp : preserves (keeps_marked x r)
              (if h_collection h then set (VObj t) k v rv
               else if h_readonly h then readonly_set t k
                    else createSetter depth get set (h_shallow h) t k v rv)).
    { unfold readonly_set. pres; auto with frame. }
    intros s b s' _. apply Hp.
  - done.
Qed.

Lemma marked_del_body o k :
  k <> ReactiveFlags.SKIP ->
  preserves (keeps_marked x r) (del_body get del o k).
Proof.
  intros Hk. pose proof marked_deleteProperty.
  unfold del_body. destruct o as [| | | | | | |a]; try apply preserves_fail.
  intros s b s'. mstep. destruct (heap s !! a) as [[obj|t h]|] eqn:E.
  - unfold ordinary_delete.
    destruct (isArray_obj obj && bool_decide (k = KStr "length")); mstep;
      intros [= _ <-]; [done|].
    apply (marked_update_plain _ _ _ obj); [done|].
    unfold ordinary_get, isArray_obj. simpl.
    by rewrite own_lookup_remove_ne.
  - revert s b s' E.
    assert (Hp : preserves (keeps_marked x r)
              (if h_collection h then del (VObj t) k
               else
                 let* result :=
                   if h_readonly h then readonly_deleteProperty t k
                   else deleteProperty get del t k in
                 if result : bool then
                   let* refuted :=
                     gets (fun s => delete_refuted s (VObj t) k) in
                   if refuted : bool then fail else ret true
                 else ret false)).
    { unfold readonly_deleteProperty. pres; auto with frame. }
    intros s b s' _. apply Hp.
  - done.
Qed.

Lemma marked_has_body o k : preserves (keeps_marked x r) (has_body has o k).
Proof.
  pose proof marked_has_trap. unfold has_body. pres; auto with frame.
Qed.

Lemma marked_native_search m O args :
  preserves (keeps_marked x r) (native_search get has m O args).
Proof.
  assert (Hf : forall p tst ks,
            preserves (keeps_marked x r) (find_index get has O p tst ks)).
  { intros p tst ks. induction ks as [|i ks IH]; simpl; pres;
      auto with frame. }
  unfold native_search, LengthOfArrayLike. cbv zeta. pres; auto with frame.
Qed.

Lemma marked_native_mutator m O args :
  preserves (keeps_marked x r) (native_mutator get set del has m O args).
Proof.
  unfold native_mutator, set_items, move, Set_or_throw, Delete_or_throw,
    ArraySpeciesCreate, LengthOfArrayLike.
  cbv zeta. pres; auto with frame.
Qed.

Lemma marked_apply_native fv this args :
  preserves (keeps_marked x r) (apply_native get set del has fv this args).
Proof.
  unfold apply_native.
  destruct fv as [| | | | | |fn|]; try apply preserves_fail.
  destruct fn as [[m|m]|am];
    [apply marked_native_search|apply marked_native_mutator
    |apply preserves_fail].
Qed.

Lemma marked_pauseTracking : preserves (keeps_marked x r) pauseTracking.
Proof. unfold pauseTracking. auto with frame. Qed.

Lemma marked_resetTracking : preserves (keeps_marked x r) resetTracking.
Proof.
  unfold resetTracking. apply preserves_marked_modify. intros s.
  destruct (trackStack s); auto with frame.
Qed.

Lemma marked_apply_func fv this args :
  preserves (keeps_marked x r)
    (apply_func get set del has depth fv this args).
Proof.
  pose proof marked_apply_native as Hn. pose proof marked_pauseTracking.
  pose proof marked_resetTracking.
  assert (Hs : forall m, preserves (keeps_marked x r)
                 (instr_search get set del has depth m this args)).
  { intros m. unfold instr_search, LengthOfArrayLike. cbv zeta.
    repeat first [ apply Hn | pres_step ]; auto with frame. }
  assert (Hm : forall m, preserves (keeps_marked x r)
                 (instr_mutator get set del has depth m this args)).
  { intros m. unfold instr_mutator. cbv zeta.
    repeat first [ apply Hn | assumption | pres_step ]; auto with frame. }
  unfold apply_func.
  destruct fv as [| | | | | |fn|]; try apply Hn.
  destruct fn as [am|[m|m]]; [apply Hn|apply Hs|apply Hm].
Qed.
End MarkedSet.

Lemma marked_set_prop x r f o k v rv :
  k <> ReactiveFlags.SKIP ->
  preserves (keeps_marked x r) (set_prop f o k v rv).
Proof.
  revert o k v rv. induction f as [|f IH]; intros o k v rv Hk.
  - apply preserves_fail.
  - rewrite set_prop_S. apply marked_set_body; auto using marked_get_prop.
Qed.

Lemma marked_del_prop x r f o k :
  k <> ReactiveFlags.SKIP ->
  preserves (keeps_marked x r) (del_prop f o k).
Proof.
  revert o k. induction f as [|f IH]; intros o k Hk.
  - apply preserves_fail.
  - rewrite del_prop_S. apply marked_del_body; auto using marked_get_prop.
Qed.

Lemma marked_has_prop x r f o k : preserves (keeps_marked x r) (has_prop f o k).
Proof.
  revert o k. induction f as [|f IH]; intros o k.
  - apply preserves_fail.
  - rewrite has_prop_S. by apply marked_has_body.
Qed.

Lemma marked_call_method x r f o name args :
  preserves (keeps_marked x r) (call_method f o name args).
Proof.
  unfold call_method.
  apply preserves_bind; [apply _|apply marked_get_prop|].
  intros fv. apply marked_apply_func.
  - apply marked_get_prop.
  - intros. by apply marked_set_prop.
  - intros. by apply marked_del_prop.
  - apply marked_has_prop.
Qed.

Lemma marked_markRaw x r v : preserves (keeps_marked x r) (markRaw v).
Proof.
  intros s b s'. unfold markRaw. mstep.
  destruct (underlying_of s v) as [[a o]|] eqn:Eu; [|done].
  destruct (ordinary_define o ReactiveFlags.SKIP (VBool true)) as [o'|]
    eqn:Ed; mstep; [|done].
  intros [= _ <-].
  destruct v; try done. apply underlying_is_plain in Eu.
  apply (marked_update_plain _ _ _ o); [done|]. intros _.
  unfold ordinary_get. by rewrite (ordinary_define_lookup _ _ _ _ Ed).
Qed.

Lemma marked_run x r fuel op :
  keeps_marker op = true -> preserves (keeps_marked x r) (run fuel op).
Proof.
  intros Hop.
  assert (Hk : forall k, negb (bool_decide (k = ReactiveFlags.SKIP)) = true ->
                         k <> ReactiveFlags.SKIP).
  { intros k H ->. by rewrite bool_decide_eq_true_2 in H. }
  destruct op; simpl in *;
    (apply preserves_bind; [apply _| |intros ?; apply preserves_ret; apply _]).
  - apply marked_wrap.
  - apply marked_get_prop.
  - apply marked_set_prop; auto.
  - apply marked_del_prop; auto.
  - apply marked_has_prop.
  - apply marked_call_method.
  - apply marked_markRaw.
Qed.

(** C10 (as the code has it).  The classifier rejects an ordinary
    object exactly when its skip marker is truthy, or it is not
    extensible, or its runtime kind is none of Object, Array, Map, Set,
    WeakMap, WeakSet.  Once [markRaw x] has run, and whatever wrap
    requests, reads, writes, deletes, presence checks, method calls
    and [markRaw] calls have run since, none of them a write or a
    delete of the marker key, the classifier rejects [x], and a wrap
    request for [x] at a variant whose registry held no wrapper of [x]
    when it was marked returns [x] itself and leaves the state as it
    is. *)
Theorem skip_marker_blocks_wrap (f : nat) (s : state) (x : addr)
    (o : object) :
  heap s !! x = Some (Plain o) ->
  (classify o = INVALID <->
     truthy (ordinary_get o ReactiveFlags.SKIP) = true
     \/ extensible o = false
     \/ rawType o ∉ wrappable_kinds)
  /\ getTargetType (get_prop (S f)) (VObj x) s = Some (classify o, s)
  /\ forall s1 v fuel ops s2,
       markRaw (VObj x) s = Some (VObj x, s1) ->
       proxyMap_get (variant_registry v) s1 !! x = None ->
       forallb keeps_marker ops = true ->
       forM ops (run fuel) s1 = Some (tt, s2) ->
       getTargetType (get_prop (S f)) (VObj x) s2 = Some (INVALID, s2)
       /\ wrap (S f) v (VObj x) s2 = Some (VObj x, s2).
Proof.
  intros Hx. split; [|split].
  - unfold classify. destruct (truthy _); [split; auto|].
    destruct (extensible o); simpl; [|split; auto].
    rewrite targetTypeMap_INVALID.
    split; [auto|intros [?|[?|?]]; done].
  - by apply getTargetType_plain.
  - intros s1 v fuel ops s2 Hm Hreg Hops Hrun.
    assert (H1 : marked_unwrapped x (variant_registry v) s1).
    { split; [|done]. unfold markRaw in Hm. revert Hm. mstep.
      rewrite (underlying_of_plain _ _ _ Hx).
      destruct (ordinary_define o ReactiveFlags.SKIP (VBool true)) as [o'|]
        eqn:Ed; [|done].
      mstep. intros [= <-]. exists o'. split.
      - rewrite heap_update_cell. apply list_lookup_insert_eq.
        by eapply lookup_lt_Some.
      - unfold ordinary_get. by rewrite (ordinary_define_lookup _ _ _ _ Ed). }
    assert (H2 : marked_unwrapped x (variant_registry v) s2).
    { revert H1. clear Hm Hreg Hx. revert s1 s2 Hrun.
      induction ops as [|op ops IH]; intros s1 s2 Hrun.
      - by injection Hrun as <-.
      - simpl in Hops. apply andb_true_iff in Hops as [Hop Hops].
        simpl in Hrun. apply bind_inv in Hrun as ([] & s' & E1 & Hrun).
        intros H1. apply (IH Hops _ _ Hrun).
        by apply (marked_run x _ fuel op Hop _ _ _ E1). }
    destruct H2 as [(o2 & Hx2 & Hs2) Hreg2].
    assert (Hc : classify o2 = INVALID) by (unfold classify; by rewrite Hs2).
    split.
    + rewrite (getTargetType_plain f _ x o2 Hx2). by rewrite Hc.
    + rewrite (wrap_plain f _ x o2 v Hx2). unfold wrap_result.
      destruct (_ && _); [done|]. unfold factory_result.
      destruct (_ && _); [done|]. rewrite Hreg2. mstep. by rewrite Hc.
Qed.

Lemma skip_marker_blocks_wrap_witness :
  let o := Object "Object" true [] in
  let s1 := update_cell 0 (plain_object [(ReactiveFlags.SKIP, VBool true)])
              empty_record_state in
  let ops := [OpWrap MutableDeep (VObj 0);
              OpSet (VObj 0) (KStr "a") (VNum (Num 1));
              OpGet (VObj 0) (KStr "a");
              OpDelete (VObj 0) (KStr "a");
              OpMarkRaw (VObj 0)] in
  let s2 := state_after (forM ops (run 2)) s1 in
  (classify o = INVALID <->
     truthy (ordinary_get o ReactiveFlags.SKIP) = true
     \/ extensible o = false
     \/ rawType o ∉ wrappable_kinds)
  /\ getTargetType (get_prop 1) (VObj 0) empty_record_state
     = Some (classify o, empty_record_state)
  /\ markRaw (VObj 0) empty_record_state = Some (VObj 0, s1)
  /\ forM ops (run 2) s1 = Some (tt, s2)
  /\ getTargetType (get_prop 1) (VObj 0) s2 = Some (INVALID, s2)
  /\ wrap 1 ReadonlyDeep (VObj 0) s2 = Some (VObj 0, s2).
Proof.
  intros o s1 ops s2.
  destruct (skip_marker_blocks_wrap 0 empty_record_state 0 o eq_refl)
    as (H1 & H2 & H3).
  split; [exact H1|]. split; [exact H2|]. split; [reflexivity|].
  assert (Hrun : forM ops (run 2) s1 = Some (tt, s2))
    by (vm_compute; reflexivity).
  split; [exact Hrun|].
  exact (H3 s1 ReadonlyDeep 2 ops s2 eq_refl eq_refl eq_refl Hrun).
Defined.

(** C10 as stated fails in two places.  Where [x] was wrapped before
    it was marked, the registry is consulted before the classifier and
    hands the earlier wrapper back.  And the marker is not permanent:
    it is an own property that can be deleted, after which [x] is
    wrapped like any other object. *)
Lemma skip_marker_after_wrap_counterexample :
  (exists p s1 s2,
     wrap 1 MutableDeep (VObj 0) empty_record_state = Some (p, s1)
     /\ markRaw (VObj 0) s1 = Some (VObj 0, s2)
     /\ wrap 1 MutableDeep (VObj 0) s2 = Some (p, s2)
     /\ p <> VObj 0)
  /\ (exists s1 s2 p s3,
        markRaw (VObj 0) empty_record_state = Some (VObj 0, s1)
        /\ wrap 1 MutableDeep (VObj 0) s1 = Some (VObj 0, s1)
        /\ del_prop 1 (VObj 0) ReactiveFlags.SKIP s1 = Some (true, s2)
        /\ wrap 1 MutableDeep (VObj 0) s2 = Some (p, s3)
        /\ p <> VObj 0).
Proof.
  split.
  - eexists _, _, _. split; [vm_compute; reflexivity|].
    split; [vm_compute; reflexivity|].
    split; [vm_compute; reflexivity|]. discriminate.
  - eexists _, _, _, _. split; [vm_compute; reflexivity|].
    split; [vm_compute; reflexivity|].
    split; [vm_compute; reflexivity|].
    split; [vm_compute; reflexivity|]. discriminate.
Qed.
